(** * TokenDrop: a shallow embedding of the drop contract and its accounting

    The contract of [contracts/TokenDrop.algo.ts] is a TEALScript class whose
    methods run on the Algorand virtual machine.  Each method is embedded as
    a function in a state-and-error monad over the contract's storage (global
    keys and box maps), the application account it reads through
    [this.app.address] and the inner transactions it submits.  A failed
    [assert], an arithmetic panic or a rejected inner transaction yields
    [Err]: the ledger then discards every effect of the call. *)

From Stdlib Require Import ZArith Lia.
From stdpp Require Import base strings option list gmap fin_maps.

Open Scope Z_scope.

(** ** Values *)

(** An account address is a 32-byte public key; it is represented by the
    number those bytes encode.  [zeroAddress] is [globals.zeroAddress]. *)
Abbreviation Address := Z (only parsing).
Abbreviation AssetID := Z (only parsing).
Abbreviation AppID := Z (only parsing).
Abbreviation TokenDropId := Z (only parsing).

Definition zeroAddress : Address := 0.

(** [uint64] values: the range every ABI argument and stored number has. *)
Definition MAX_UINT64 : Z := 2 ^ 64 - 1.
Definition uint64 (x : Z) : Prop := 0 <= x <= MAX_UINT64.

(** ** types.algo.ts *)

Definition GATING_TYPE_NONE : Z := 0.
Definition GATING_TYPE_ASSETS_CREATED_BY : Z := 1.
Definition GATING_TYPE_ASSET_ID : Z := 2.
Definition GATING_TYPE_CREATED_BY_NFD_ADDRESSES : Z := 3.
Definition GATING_TYPE_SEGMENT_OF_NFD : Z := 4.
Definition GATING_TYPE_NFD_W_VERIFIED_TWITTER : Z := 5.
Definition GATING_TYPE_NFD_W_VERIFIED_BLUESKY : Z := 6.
Definition GATING_TYPE_NFD_HOLDING_AGE : Z := 7.
Definition GATING_TYPE_CONST_MAX : Z := 7.

Record TokenDropConfig := mkConfig {
  Token : AssetID;
  AmountPerClaim : Z;
  AirdropEndTime : Z;
  entryGatingType : Z;
  entryGatingAddress : Address;
  entryGatingAssets : list Z;   (* StaticArray<uint64, 4> *)
  gatingAssetMinBalance : Z
}.

Record TokenDropInfo := mkDrop {
  DropId : TokenDropId;
  DropCreator : Address;
  AmountRemaining : Z;
  MaxClaims : Z;
  NumClaims : Z;
  Config : TokenDropConfig
}.

Record ClaimedInfo := mkClaimed { TxnId : Z (* bytes32 *) }.

(** [AddressClaimKey] is the pair (TokenDropId, Address). *)
Abbreviation AddressClaimKey := (Z * Z)%type (only parsing).

(** Encoded byte lengths, [len<T>()] in the source. *)
Definition len_uint64 : Z := 8.
Definition len_Address : Z := 32.
Definition len_TokenDropConfig : Z :=
  len_uint64 + len_uint64 + len_uint64 + 1 + len_Address + 4 * len_uint64 + len_uint64.
Definition len_TokenDropInfo : Z :=
  len_uint64 + len_Address + len_uint64 + len_uint64 + len_uint64 + len_TokenDropConfig.
Definition len_AddressClaimKey : Z := len_uint64 + len_Address.
Definition len_ClaimedInfo : Z := 32.

(** ** Transactions *)

(** The payment and asset transfer that precede a call in its group. *)
Record PayTxn := mkPay {
  pay_sender : Address;
  pay_receiver : Address;
  pay_amount : Z
}.

Record AssetTransferTxn := mkAxfer {
  axfer_sender : Address;
  axfer_assetReceiver : Address;
  axfer_xferAsset : AssetID;
  axfer_assetAmount : Z
}.

(** Inner transactions submitted by the contract. *)
Inductive InnerTxn :=
| ItxnPay (receiver : Address) (amount : Z) (note : string)
| ItxnAxfer (xferAsset : AssetID) (assetReceiver : Address) (assetAmount : Z)
            (assetCloseTo : option Address) (note : string).

(** ** Failure *)

Inductive Error :=
| AssertFailed (msg : string)      (* assert(cond, msg), verify*Txn *)
| Overflow                         (* uint64 + or * out of range *)
| Underflow                        (* uint64 - below zero *)
| DivideByZero                     (* uint64 / or % by zero *)
| BoxMissing                       (* .value of a box that does not exist *)
| LedgerRejected (why : string).   (* an inner transaction the ledger refuses *)

Inductive Result (A : Type) :=
| Ok (a : A)
| Err (e : Error).
Arguments Ok {A} a.
Arguments Err {A} e.

Definition is_Ok {A} (r : Result A) : bool :=
  match r with Ok _ => true | Err _ => false end.

(** ** Contract state *)

Record State := mkState {
  (* global state keys *)
  nfdRegistryAppId : AppID;
  maintainerAddress : Address;
  creationFeeAmount : Z;
  perClaimFeeAmount : Z;
  totalClaims : Z;
  lastDropId : TokenDropId;
  (* box maps *)
  allDrops : gmap Z TokenDropInfo;          (* prefix 'd' *)
  dropForToken : gmap Z Z;                  (* prefix 'tok' *)
  claimedMap : gmap (Z * Z) ClaimedInfo;    (* prefix 'c' *)
  (* the application account, this.app.address *)
  appAlgo : Z;                              (* microAlgo balance *)
  appAssets : gmap Z Z;                     (* asset holdings; a key is an opt-in *)
  (* inner transactions submitted so far, oldest first *)
  itxns : list InnerTxn
}.

Definition set_allDrops (f : gmap Z TokenDropInfo -> gmap Z TokenDropInfo) (st : State) : State :=
  mkState (nfdRegistryAppId st) (maintainerAddress st) (creationFeeAmount st)
          (perClaimFeeAmount st) (totalClaims st) (lastDropId st)
          (f (allDrops st)) (dropForToken st) (claimedMap st)
          (appAlgo st) (appAssets st) (itxns st).

Definition set_dropForToken (f : gmap Z Z -> gmap Z Z) (st : State) : State :=
  mkState (nfdRegistryAppId st) (maintainerAddress st) (creationFeeAmount st)
          (perClaimFeeAmount st) (totalClaims st) (lastDropId st)
          (allDrops st) (f (dropForToken st)) (claimedMap st)
          (appAlgo st) (appAssets st) (itxns st).

Definition set_claimedMap (f : gmap (Z * Z) ClaimedInfo -> gmap (Z * Z) ClaimedInfo)
    (st : State) : State :=
  mkState (nfdRegistryAppId st) (maintainerAddress st) (creationFeeAmount st)
          (perClaimFeeAmount st) (totalClaims st) (lastDropId st)
          (allDrops st) (dropForToken st) (f (claimedMap st))
          (appAlgo st) (appAssets st) (itxns st).

Definition set_account (algo : Z) (assets : gmap Z Z) (tx : list InnerTxn) (st : State) : State :=
  mkState (nfdRegistryAppId st) (maintainerAddress st) (creationFeeAmount st)
          (perClaimFeeAmount st) (totalClaims st) (lastDropId st)
          (allDrops st) (dropForToken st) (claimedMap st)
          algo assets (itxns st ++ tx).

(** The account credited with [amount] microAlgo, or with [amount] of an asset. *)
Definition bump (amount : Z) (st : State) : State :=
  mkState (nfdRegistryAppId st) (maintainerAddress st) (creationFeeAmount st)
          (perClaimFeeAmount st) (totalClaims st) (lastDropId st)
          (allDrops st) (dropForToken st) (claimedMap st)
          (appAlgo st + amount) (appAssets st) (itxns st).

Definition set_assets (f : gmap Z Z -> gmap Z Z) (st : State) : State :=
  mkState (nfdRegistryAppId st) (maintainerAddress st) (creationFeeAmount st)
          (perClaimFeeAmount st) (totalClaims st) (lastDropId st)
          (allDrops st) (dropForToken st) (claimedMap st)
          (appAlgo st) (f (appAssets st)) (itxns st).

Definition set_globals (maint : Address) (cfee pfee claims last : Z) (st : State) : State :=
  mkState (nfdRegistryAppId st) maint cfee pfee claims last
          (allDrops st) (dropForToken st) (claimedMap st)
          (appAlgo st) (appAssets st) (itxns st).

(** ** Call context *)

(** What a call reads from its transaction, from [globals] and from accounts
    and applications other than the contract itself. *)
Record Ctx := mkCtx {
  txnSender : Address;                 (* this.txn.sender *)
  txnID : Z;                           (* this.txn.txID *)
  appCreator : Address;                (* this.app.creator *)
  appAddress : Address;                (* this.app.address *)
  latestTimestamp : Z;                 (* globals.latestTimestamp *)
  feeSink : Address;                   (* blocks[this.txn.firstValid - 1].feeSink *)
  (* holdings of other accounts *)
  extOptedIn : Address -> AssetID -> bool;
  extAssetBalance : Address -> AssetID -> Z;
  assetCreatorOf : AssetID -> Address;
  (* the NFD registry and NFD applications *)
  registryIsValidNfdAppId : AppID -> AppID -> bool;   (* registry, nfd *)
  nfdOwner : AppID -> Address;                        (* i.owner.a *)
  nfdParentAppID : AppID -> Z;                        (* i.parentAppID *)
  nfdCaAlgo : AppID -> list Address;                  (* v.caAlgo.0.as, 32 bytes each *)
  nfdMajorVersion : AppID -> string;                  (* first two bytes of i.ver *)
  nfdGlobalInt : AppID -> string -> option Z;         (* an integer key, if present *)
  nfdReadField : AppID -> string -> string;           (* readField(name) *)
  nfdTimePurchased : AppID -> Z                       (* i.timePurchased *)
}.

(** ** The monad *)

Definition M (A : Type) : Type := State -> Result (A * State).

Definition ret {A} (a : A) : M A := fun st => Ok (a, st).

Definition bind {A B} (m : M A) (f : A -> M B) : M B :=
  fun st => match m st with
            | Ok (a, st') => f a st'
            | Err e => Err e
            end.

Definition fail {A} (e : Error) : M A := fun _ => Err e.
Definition gets {A} (f : State -> A) : M A := fun st => Ok (f st, st).
Definition modify (f : State -> State) : M unit := fun st => Ok (tt, f st).

Declare Scope td_scope.
Delimit Scope td_scope with td.
Notation "'let*' x ':=' m 'in' k" := (bind m (fun x => k))
  (at level 10, x name, m at level 100, k at level 200) : td_scope.
Notation "m ';;' k" := (bind m (fun _ => k))
  (at level 100, k at level 200, right associativity) : td_scope.
Open Scope td_scope.

(** [assert(cond, msg)] *)
Definition assert (cond : bool) (msg : string) : M unit :=
  if cond then ret tt else fail (AssertFailed msg).

(** [if (cond) { ... }] with no else branch *)
Definition when (b : bool) (m : M unit) : M unit := if b then m else ret tt.

(** uint64 arithmetic of the virtual machine: out-of-range results panic. *)
Definition add64 (a b : Z) : M Z :=
  if a + b <=? MAX_UINT64 then ret (a + b) else fail Overflow.
Definition sub64 (a b : Z) : M Z :=
  if b <=? a then ret (a - b) else fail Underflow.
Definition mul64 (a b : Z) : M Z :=
  if a * b <=? MAX_UINT64 then ret (a * b) else fail Overflow.
Definition div64 (a b : Z) : M Z :=
  if b =? 0 then fail DivideByZero else ret (a / b).
Definition mod64 (a b : Z) : M Z :=
  if b =? 0 then fail DivideByZero else ret (a mod b).

(** ** The application account on the ledger *)

(** The ledger keeps every account at or above its minimum balance: a base
    amount, [assetOptInMinBalance] per asset opted in to, and for every box
    2500 microAlgo plus 400 per byte of its name and contents.  The last rule
    is the one [costForBoxStorage] of the source restates. *)
Definition ACCOUNT_MIN_BALANCE : Z := 100000.
Definition assetOptInMinBalance : Z := 100000.     (* globals.assetOptInMinBalance *)

Definition SCBOX_PERBOX : Z := 2500.
Definition SCBOX_PERBYTE : Z := 400.
Definition costForBoxStorage (totalNumBytes : Z) : Z :=
  SCBOX_PERBOX + totalNumBytes * SCBOX_PERBYTE.

(** Name and value bytes of one box of each map: prefix, key, value. *)
Definition boxBytes_allDrops : Z := 1 + len_uint64 + len_TokenDropInfo.
Definition boxBytes_dropForToken : Z := 3 + len_uint64 + len_uint64.
Definition boxBytes_claimedMap : Z := 1 + len_AddressClaimKey + len_ClaimedInfo.

(** [this.app.address.minBalance] *)
Definition minBalance (st : State) : Z :=
  ACCOUNT_MIN_BALANCE
  + assetOptInMinBalance * Z.of_nat (size (appAssets st))
  + costForBoxStorage boxBytes_allDrops * Z.of_nat (size (allDrops st))
  + costForBoxStorage boxBytes_dropForToken * Z.of_nat (size (dropForToken st))
  + costForBoxStorage boxBytes_claimedMap * Z.of_nat (size (claimedMap st)).

(** [addr.isOptedInToAsset(asset)] and [addr.assetBalance(asset)]: the
    contract's own account is part of the state, other accounts are read
    from the context. *)
Definition isOptedInToAsset (ctx : Ctx) (st : State) (addr : Address) (asset : AssetID) : bool :=
  if decide (addr = appAddress ctx)
  then bool_decide (is_Some (appAssets st !! asset))
  else extOptedIn ctx addr asset.

Definition assetBalance (ctx : Ctx) (st : State) (addr : Address) (asset : AssetID) : Z :=
  if decide (addr = appAddress ctx)
  then default 0 (appAssets st !! asset)
  else extAssetBalance ctx addr asset.

(** [sendPayment]: an inner payment from the application account.  Inner
    transaction fees are pooled from the caller's group, so only [amount]
    leaves the account; the ledger refuses a payment that would leave the
    account below its minimum balance. *)
Definition sendPayment (ctx : Ctx) (receiver : Address) (amount : Z) (note : string) : M unit :=
  fun st =>
    let algo' := if decide (receiver = appAddress ctx) then appAlgo st else appAlgo st - amount in
    if minBalance st <=? algo'
    then Ok (tt, set_account algo' (appAssets st) [ItxnPay receiver amount note] st)
    else Err (LedgerRejected "balance below minimum").

(** [sendAssetTransfer]: an inner asset transfer from the application
    account.  A transfer of 0 to itself of an asset it does not hold is the
    opt-in; [assetCloseTo] removes the holding after moving what is left of it
    (the ledger refuses to close a non-empty holding onto itself).  The
    receiver, and the close-to account, must have opted in. *)
Definition sendAssetTransfer (ctx : Ctx) (xferAsset : AssetID) (assetReceiver : Address)
    (assetAmount : Z) (assetCloseTo : option Address) (note : string) : M unit :=
  fun st =>
    let tx := [ItxnAxfer xferAsset assetReceiver assetAmount assetCloseTo note] in
    match appAssets st !! xferAsset with
    | None =>
        if decide (assetReceiver = appAddress ctx) then
          if (assetAmount =? 0) && bool_decide (assetCloseTo = None) then
            let st' := set_account (appAlgo st) (<[xferAsset := 0]> (appAssets st)) tx st in
            if minBalance st' <=? appAlgo st' then Ok (tt, st')
            else Err (LedgerRejected "balance below minimum")
          else Err (LedgerRejected "asset not opted in")
        else Err (LedgerRejected "asset not opted in")
    | Some bal =>
        if assetAmount <=? bal then
          let left := if decide (assetReceiver = appAddress ctx) then bal else bal - assetAmount in
          if isOptedInToAsset ctx st assetReceiver xferAsset then
            match assetCloseTo with
            | None =>
                Ok (tt, set_account (appAlgo st) (<[xferAsset := left]> (appAssets st)) tx st)
            | Some closeTo =>
                if decide (closeTo = appAddress ctx) then
                  if left =? 0
                  then Ok (tt, set_account (appAlgo st) (delete xferAsset (appAssets st)) tx st)
                  else Err (LedgerRejected "asset not zero after closing")
                else if extOptedIn ctx closeTo xferAsset
                  then Ok (tt, set_account (appAlgo st) (delete xferAsset (appAssets st)) tx st)
                  else Err (LedgerRejected "receiver not opted in")
            end
          else Err (LedgerRejected "receiver not opted in")
        else Err (LedgerRejected "underflow on asset holding")
    end.

(** The transactions of the caller's group that precede the call: the
    ledger applies them before the call runs. *)
Definition receivePayTxn (ctx : Ctx) (p : PayTxn) : M unit :=
  when (bool_decide (pay_receiver p = appAddress ctx)) (modify (bump (pay_amount p))).

Definition receiveAssetTransferTxn (ctx : Ctx) (a : AssetTransferTxn) : M unit :=
  when (bool_decide (axfer_assetReceiver a = appAddress ctx))
    (let* holding := gets (fun st => appAssets st !! axfer_xferAsset a) in
     match holding with
     | Some bal => modify (set_assets (insert (axfer_xferAsset a) (bal + axfer_assetAmount a)))
     | None => fail (LedgerRejected "receiver not opted in")
     end).

(** [verifyPayTxn(txn, { receiver, sender, amount })]: every field that is
    given must equal the transaction's. *)
Definition verifyPayTxn (p : PayTxn) (receiver sender : option Address) (amount : option Z) : M unit :=
  assert (from_option (fun r => bool_decide (pay_receiver p = r)) true receiver)
         "transaction verification failed: receiver";;
  assert (from_option (fun s => bool_decide (pay_sender p = s)) true sender)
         "transaction verification failed: sender";;
  assert (from_option (fun a => pay_amount p =? a) true amount)
         "transaction verification failed: amount".

(** [verifyAssetTransferTxn(txn, { assetReceiver })] *)
Definition verifyAssetTransferTxn (a : AssetTransferTxn) (assetReceiver : Address) : M unit :=
  assert (bool_decide (axfer_assetReceiver a = assetReceiver))
         "transaction verification failed: assetReceiver".

(** ** Box access *)

(** [this.allDrops(id).value] read: fails when the box does not exist. *)
Definition readDrop (tokenDropId : TokenDropId) : M TokenDropInfo :=
  fun st => match allDrops st !! tokenDropId with
            | Some d => Ok (d, st)
            | None => Err BoxMissing
            end.

(** [this.allDrops(id).value.field = v]: replaces part of an existing box. *)
Definition updateDrop (tokenDropId : TokenDropId) (f : TokenDropInfo -> TokenDropInfo) : M unit :=
  fun st => match allDrops st !! tokenDropId with
            | Some d => Ok (tt, set_allDrops (insert tokenDropId (f d)) st)
            | None => Err BoxMissing
            end.

(** [this.dropForToken(token).value] read. *)
Definition readDropForToken (token : AssetID) : M TokenDropId :=
  fun st => match dropForToken st !! token with
            | Some id => Ok (id, st)
            | None => Err BoxMissing
            end.

Definition with_AmountRemaining (v : Z) (d : TokenDropInfo) : TokenDropInfo :=
  mkDrop (DropId d) (DropCreator d) v (MaxClaims d) (NumClaims d) (Config d).
Definition with_NumClaims (v : Z) (d : TokenDropInfo) : TokenDropInfo :=
  mkDrop (DropId d) (DropCreator d) (AmountRemaining d) (MaxClaims d) v (Config d).

(** ** The contract, method by method *)

Definition createApplication (nfdRegistryId : AppID) (maintainer : Address) : State :=
  mkState nfdRegistryId maintainer
          10000000      (* creationFeeAmount: 10 ALGO *)
          100000        (* perClaimFeeAmount *)
          0 0 ∅ ∅ ∅ 0 ∅ [].

Definition updateApplication (ctx : Ctx) : M unit :=
  assert (bool_decide (txnSender ctx = appCreator ctx)) "Only the creator can update the application".

Definition changeMaintainer (ctx : Ctx) (newMaintainer : Address) : M unit :=
  assert (bool_decide (txnSender ctx = appCreator ctx)) "Only the creator can call";;
  modify (fun st => set_globals newMaintainer (creationFeeAmount st) (perClaimFeeAmount st)
                                (totalClaims st) (lastDropId st) st).

Definition getPerClaimerMbrCost : M Z :=
  ret (costForBoxStorage (1 + len_AddressClaimKey + len_ClaimedInfo)).

Definition getPerClaimerFee : M Z :=
  gets perClaimFeeAmount.

Definition changeFees (ctx : Ctx) (creationFee perClaimFee : Z) : M unit :=
  assert (bool_decide (txnSender ctx = appCreator ctx)) "Only the creator can call";;
  assert (2000000 <? creationFee) "fee must be at least 2 algo";;
  assert (creationFee mod 2 =? 0) "fee must be even amount";;
  let* mbr := getPerClaimerMbrCost in
  let* dbl := mul64 mbr 2 in
  assert (dbl <=? perClaimFee) "per-claim fee must >= double mbr cost";;
  modify (fun st => set_globals (maintainerAddress st) creationFee perClaimFee
                                (totalClaims st) (lastDropId st) st).

Definition optinAsset (ctx : Ctx) (mbrPayment : PayTxn) (assetId : AssetID) : M unit :=
  verifyPayTxn mbrPayment (Some (appAddress ctx)) None (Some assetOptInMinBalance);;
  let* optedIn := gets (fun st => isOptedInToAsset ctx st (appAddress ctx) assetId) in
  if optedIn then
    sendPayment ctx (txnSender ctx) assetOptInMinBalance "optin refund"
  else
    sendAssetTransfer ctx assetId (appAddress ctx) 0 None EmptyString.

Definition getDropCreateCost : M Z :=
  let* feeNeeded := gets creationFeeAmount in
  let* feeNeeded := add64 feeNeeded (costForBoxStorage (1 + len_uint64 + len_TokenDropInfo)) in
  let* feeNeeded := add64 feeNeeded (costForBoxStorage (3 + len_uint64 + len_uint64)) in
  ret feeNeeded.

Definition getDropInfo (tokenDropId : TokenDropId) : M TokenDropInfo :=
  readDrop tokenDropId.

Definition isDropExpiredOrEmpty (ctx : Ctx) (dropInfo : TokenDropInfo) : bool :=
  (AmountRemaining dropInfo =? 0) || (AirdropEndTime (Config dropInfo) <? latestTimestamp ctx).

(** *** Gating *)

Definition isNfdAppIdValid (ctx : Ctx) (nfdAppId : Z) : M bool :=
  gets (fun st => registryIsValidNfdAppId ctx (nfdRegistryAppId st) nfdAppId).

Definition isNfdPreV3 (ctx : Ctx) (nfdAppId : Z) : bool :=
  let majVer := nfdMajorVersion ctx nfdAppId in
  String.eqb majVer "1." || String.eqb majVer "2.".

Definition safeGlobalIntGet (ctx : Ctx) (appId : Z) (key : string) : Z :=
  match nfdGlobalInt ctx appId key with
  | None => 0
  | Some v => v
  end.

Definition isNfdForSale (ctx : Ctx) (nfdAppId : Z) : bool :=
  negb (safeGlobalIntGet ctx nfdAppId "i.sellamt" =? 0).

Definition isNfdExpired (ctx : Ctx) (nfdAppId : Z) : bool :=
  let expTime := safeGlobalIntGet ctx nfdAppId "i.expirationTime" in
  if expTime =? 0 then false else expTime <? latestTimestamp ctx.

Definition isAddressInNFDCAAlgoList (ctx : Ctx) (nfdAppId : Z) (addrToFind : Address) : bool :=
  existsb (fun addr => negb (addr =? zeroAddress) && (addr =? addrToFind))
          (nfdCaAlgo ctx nfdAppId).

Definition checkValidV3NfdAndOwnedByClaimer (ctx : Ctx) (valueToVerify : Z) (claimer : Address)
    : M unit :=
  let userOfferedNFDAppId := valueToVerify in
  let* valid := isNfdAppIdValid ctx userOfferedNFDAppId in
  assert valid "provided NFD must be valid";;
  assert (negb (isNfdPreV3 ctx userOfferedNFDAppId)) "NFD must be V3 or later";;
  assert (negb (isNfdForSale ctx userOfferedNFDAppId)) "NFD must not be for sale";;
  assert (negb (isNfdExpired ctx userOfferedNFDAppId)) "NFD must not be expired";;
  assert (nfdOwner ctx userOfferedNFDAppId =? claimer)
         "provided nfd for entry isn't owned by the claimer".

Definition doesClaimAccountMeetGating (ctx : Ctx) (tokenDropId : TokenDropId) (valueToVerify : Z)
    : M unit :=
  let* d0 := readDrop tokenDropId in
  let type := entryGatingType (Config d0) in
  if type =? GATING_TYPE_NONE then ret tt else
  let claimer := txnSender ctx in
  let* tokenDropInfo := readDrop tokenDropId in
  when ((type =? GATING_TYPE_ASSETS_CREATED_BY) || (type =? GATING_TYPE_ASSET_ID)
        || (type =? GATING_TYPE_CREATED_BY_NFD_ADDRESSES))
    (assert (negb (valueToVerify =? 0)) "assert failed";;
     let balRequired := gatingAssetMinBalance (Config tokenDropInfo) in
     let balRequired := if balRequired =? 0 then 1 else balRequired in
     let* bal := gets (fun st => assetBalance ctx st claimer valueToVerify) in
     assert (balRequired <=? bal)
            "must have required minimum balance of validator defined token to add stake");;
  when (type =? GATING_TYPE_ASSETS_CREATED_BY)
    (assert (assetCreatorOf ctx valueToVerify =? entryGatingAddress (Config tokenDropInfo))
            "specified asset must be created by creator that the validator defined as a requirement to stake");;
  when (type =? GATING_TYPE_ASSET_ID)
    (let found := existsb (fun assetId => valueToVerify =? assetId)
                          (entryGatingAssets (Config tokenDropInfo)) in
     assert found
            "specified asset must be identical to the asset id defined as a requirement to stake");;
  when (type =? GATING_TYPE_CREATED_BY_NFD_ADDRESSES)
    (assert (isAddressInNFDCAAlgoList ctx
               (default 0 (entryGatingAssets (Config tokenDropInfo) !! 0%nat))
               (assetCreatorOf ctx valueToVerify))
            "specified asset must be created by creator that is one of the linked addresses in an nfd");;
  when (type =? GATING_TYPE_SEGMENT_OF_NFD)
    (let userOfferedNFDAppId := valueToVerify in
     let* valid := isNfdAppIdValid ctx userOfferedNFDAppId in
     assert valid "provided NFD must be valid";;
     assert ((nfdOwner ctx userOfferedNFDAppId =? claimer)
             || isAddressInNFDCAAlgoList ctx userOfferedNFDAppId claimer)
            "provided nfd for entry isn't owned or linked to the claimer";;
     assert (nfdParentAppID ctx userOfferedNFDAppId
               =? default 0 (entryGatingAssets (Config tokenDropInfo) !! 0%nat))
            "specified nfd must be a segment of the nfd the validator specified as a requirement");;
  when (type =? GATING_TYPE_NFD_W_VERIFIED_TWITTER)
    (checkValidV3NfdAndOwnedByClaimer ctx valueToVerify claimer;;
     let twitterVal := nfdReadField ctx valueToVerify "v.twitter" in
     assert (negb (String.eqb twitterVal EmptyString)) "must have verified twitter");;
  when (type =? GATING_TYPE_NFD_W_VERIFIED_BLUESKY)
    (checkValidV3NfdAndOwnedByClaimer ctx valueToVerify claimer;;
     let twitterVal := nfdReadField ctx valueToVerify "v.blueskydid" in
     assert (negb (String.eqb twitterVal EmptyString)) "must have verified bluesky");;
  when (type =? GATING_TYPE_NFD_HOLDING_AGE)
    (checkValidV3NfdAndOwnedByClaimer ctx valueToVerify claimer;;
     let timePurchased := nfdTimePurchased ctx valueToVerify in
     let* days := mul64 (gatingAssetMinBalance (Config tokenDropInfo)) 24 in
     let* mins := mul64 days 60 in
     let* secs := mul64 mins 60 in
     let* until := add64 timePurchased secs in
     assert (until <=? latestTimestamp ctx) "nfd must be held for min num of days").

Definition checkGatingInfo (ctx : Ctx) (tokenDropInfo : TokenDropConfig) : M unit :=
  assert ((GATING_TYPE_NONE <=? entryGatingType tokenDropInfo)
          && (entryGatingType tokenDropInfo <=? GATING_TYPE_CONST_MAX)) "assert failed";;
  when ((entryGatingType tokenDropInfo =? GATING_TYPE_CREATED_BY_NFD_ADDRESSES)
        || (entryGatingType tokenDropInfo =? GATING_TYPE_SEGMENT_OF_NFD))
    (let* valid := isNfdAppIdValid ctx (default 0 (entryGatingAssets tokenDropInfo !! 0%nat)) in
     assert valid "provided NFD App id for gating must be valid NFD");;
  when (entryGatingType tokenDropInfo =? GATING_TYPE_NFD_HOLDING_AGE)
    (assert (0 <? gatingAssetMinBalance tokenDropInfo)
            "asset min balance - used as nfd holding age - must be >0").

(** *** Drops *)

Definition sendTokensFromDrop (ctx : Ctx) (dropInfo : TokenDropInfo) (receiver : Address)
    (amountToSend : Z) : M Z :=
  sendAssetTransfer ctx (Token (Config dropInfo)) receiver amountToSend None EmptyString;;
  let* remaining := sub64 (AmountRemaining dropInfo) amountToSend in
  updateDrop (DropId dropInfo) (with_AmountRemaining remaining);;
  let* cur := readDrop (DropId dropInfo) in
  let* n := add64 (NumClaims cur) 1 in
  updateDrop (DropId dropInfo) (with_NumClaims n);;
  ret remaining.

Definition addNewDrop (tokenDropId : TokenDropId) (dropInfo : TokenDropInfo) : M unit :=
  modify (set_allDrops (insert tokenDropId dropInfo));;
  modify (set_dropForToken (insert (Token (Config dropInfo)) tokenDropId)).

Definition removeFromDrops (tokenDropId : TokenDropId) : M unit :=
  let* dropInfo := readDrop tokenDropId in
  modify (set_dropForToken (delete (Token (Config dropInfo))));;
  modify (set_allDrops (delete tokenDropId)).

Definition refundDropCreatorRemainingTokens (ctx : Ctx) (tokenDropId : TokenDropId) : M unit :=
  let* dropInfo := readDrop tokenDropId in
  when (0 <? AmountRemaining dropInfo)
    (sendTokensFromDrop ctx dropInfo (DropCreator dropInfo) (AmountRemaining dropInfo);; ret tt);;
  let* bal := gets (fun st => assetBalance ctx st (appAddress ctx) (Token (Config dropInfo))) in
  when (bal =? 0)
    (sendAssetTransfer ctx (Token (Config dropInfo)) (appAddress ctx) 0
                       (Some (appAddress ctx)) "opt-out of token").

Definition cleanupDrop (ctx : Ctx) (tokenDropId : TokenDropId) : M unit :=
  let* dropInfo := readDrop tokenDropId in      (* clone(...) *)
  when (negb (bool_decide (txnSender ctx = DropCreator dropInfo)))
    (assert (isDropExpiredOrEmpty ctx dropInfo) "drop MUST be expired or empty");;
  let* preMbr := gets minBalance in
  refundDropCreatorRemainingTokens ctx tokenDropId;;
  removeFromDrops tokenDropId;;
  let* postMbr := gets minBalance in
  let* mbrRefund := sub64 preMbr postMbr in
  sendPayment ctx (DropCreator dropInfo) mbrRefund "refund from removing token drop".

Definition cancelDrop (ctx : Ctx) (tokenDropId : TokenDropId) : M unit :=
  let* dropInfo := readDrop tokenDropId in
  assert (bool_decide (txnSender ctx = DropCreator dropInfo)) "only drop creator can cancel a drop";;
  cleanupDrop ctx tokenDropId.

Definition createDrop (ctx : Ctx) (feeAndMbrPayment : PayTxn) (assetTxn : AssetTransferTxn)
    (tokenDropConfig : TokenDropConfig) : M Z :=
  verifyAssetTransferTxn assetTxn (appAddress ctx);;
  assert (0 <? axfer_assetAmount assetTxn) "must have a positive amount";;
  assert (axfer_xferAsset assetTxn =? Token tokenDropConfig)
         "asset sent must be same as asset specified for drops";;
  let* optedIn := gets (fun st => isOptedInToAsset ctx st (appAddress ctx) (axfer_xferAsset assetTxn)) in
  assert optedIn "must opt-in contract first";;
  assert (Token tokenDropConfig =? axfer_xferAsset assetTxn)
         "token must match asset being transferred";;
  assert (AmountPerClaim tokenDropConfig <=? axfer_assetAmount assetTxn)
         "amount per claim must be at least amount transferred";;
  let* rem := mod64 (axfer_assetAmount assetTxn) (AmountPerClaim tokenDropConfig) in
  assert (rem =? 0) "amount must be divisible by amount per claim";;
  let* earliest := add64 (latestTimestamp ctx) 86400 in
  assert (earliest <? AirdropEndTime tokenDropConfig)
         "airdrop end time must be at least 1 day into the future";;
  let* t := add64 (latestTimestamp ctx) 3600 in
  let* latest := add64 t (86400 * 7) in
  assert (AirdropEndTime tokenDropConfig <=? latest) "airdrop can't last more than 1 week";;
  let* existing := gets (fun st => dropForToken st !! Token tokenDropConfig) in
  match existing with
  | Some existing =>
      let* dropInfo := readDrop existing in
      assert (isDropExpiredOrEmpty ctx dropInfo)
             "existing drop must be expired or have no remaining tokens";;
      cleanupDrop ctx existing
  | None => ret tt
  end;;
  checkGatingInfo ctx tokenDropConfig;;
  let* last := gets lastDropId in
  let* tokenDropId := add64 last 1 in
  modify (fun st => set_globals (maintainerAddress st) (creationFeeAmount st)
                                (perClaimFeeAmount st) (totalClaims st) tokenDropId st);;
  let* maxClaims := div64 (axfer_assetAmount assetTxn) (AmountPerClaim tokenDropConfig) in
  let dropInfo := mkDrop tokenDropId (axfer_sender assetTxn) (axfer_assetAmount assetTxn)
                         maxClaims 0 tokenDropConfig in
  addNewDrop tokenDropId dropInfo;;
  verifyPayTxn feeAndMbrPayment (Some (appAddress ctx)) None None;;
  let* mbrCosts := getDropCreateCost in
  assert (mbrCosts <=? pay_amount feeAndMbrPayment) "must pay at least MBR costs";;
  when (mbrCosts <? pay_amount feeAndMbrPayment)
    (let* excess := sub64 (pay_amount feeAndMbrPayment) mbrCosts in
     sendPayment ctx (pay_sender feeAndMbrPayment) excess "excess mbr refund");;
  let* maintainer := gets maintainerAddress in
  let* fee := gets creationFeeAmount in
  let* half := div64 fee 2 in
  sendPayment ctx maintainer half "TokenDrop fee";;
  let* fee := gets creationFeeAmount in
  let* half := div64 fee 2 in
  sendPayment ctx (feeSink ctx) half "TokenDrop fee";;
  ret tokenDropId.

Definition claimDrop (ctx : Ctx) (feeAndMbrPayment : PayTxn) (tokenDropId : TokenDropId)
    (valueToVerify : Z) : M unit :=
  let* dropInfo := readDrop tokenDropId in
  assert (negb (bool_decide (txnSender ctx = DropCreator dropInfo))) "drop creator cannot claim";;
  assert (negb (isDropExpiredOrEmpty ctx dropInfo)) "airdrop has ended or out of tokens";;
  let* optedIn := gets (fun st => isOptedInToAsset ctx st (txnSender ctx) (Token (Config dropInfo))) in
  assert optedIn "claimant must already be opted-in to token!";;
  let claimKey := (tokenDropId, txnSender ctx) in
  let* receipt := gets (fun st => claimedMap st !! claimKey) in
  assert (bool_decide (receipt = None)) "already claimed";;
  doesClaimAccountMeetGating ctx tokenDropId valueToVerify;;
  let* perClaimerFee := getPerClaimerFee in
  let* mbrCost := getPerClaimerMbrCost in
  let* dbl := mul64 mbrCost 2 in
  assert (dbl <=? perClaimerFee) "per-claim fee too low";;
  verifyPayTxn feeAndMbrPayment (Some (appAddress ctx)) (Some (txnSender ctx)) (Some perClaimerFee);;
  let* scaled := mul64 perClaimerFee 500 in
  let* maintainerPortion := div64 scaled 1000 in
  let* maintainer := gets maintainerAddress in
  sendPayment ctx maintainer maintainerPortion "TokenDrop fee";;
  let* rest := sub64 perClaimerFee maintainerPortion in
  let* feeSinkPortion := sub64 rest mbrCost in
  sendPayment ctx (feeSink ctx) feeSinkPortion "TokenDrop fee";;
  modify (set_claimedMap (insert claimKey (mkClaimed (txnID ctx))));;
  let* total := gets totalClaims in
  let* n := add64 total 1 in
  modify (fun st => set_globals (maintainerAddress st) (creationFeeAmount st)
                                (perClaimFeeAmount st) n (lastDropId st) st);;
  sendTokensFromDrop ctx dropInfo (txnSender ctx) (AmountPerClaim (Config dropInfo));;
  ret tt.

Definition claimClaimerBoxCost (ctx : Ctx) (tokenDropId : TokenDropId) (claimerAddress : Address)
    (receiver : Address) : M unit :=
  let* dropInfo := readDrop tokenDropId in
  assert (isDropExpiredOrEmpty ctx dropInfo) "drop MUST be expired or empty!";;
  let* preMbr := gets minBalance in
  let claimKey := (tokenDropId, claimerAddress) in
  modify (set_claimedMap (delete claimKey));;
  let* postMbr := gets minBalance in
  let* mbrRefund := sub64 preMbr postMbr in
  sendPayment ctx receiver mbrRefund EmptyString.

(** ** Calls as the ledger runs them *)

(** A call with the transactions of its group that are its arguments. *)
Definition optinAssetGroup (ctx : Ctx) (mbrPayment : PayTxn) (assetId : AssetID) : M unit :=
  receivePayTxn ctx mbrPayment;;
  optinAsset ctx mbrPayment assetId.

Definition createDropGroup (ctx : Ctx) (feeAndMbrPayment : PayTxn) (assetTxn : AssetTransferTxn)
    (tokenDropConfig : TokenDropConfig) : M Z :=
  receivePayTxn ctx feeAndMbrPayment;;
  receiveAssetTransferTxn ctx assetTxn;;
  createDrop ctx feeAndMbrPayment assetTxn tokenDropConfig.

Definition claimDropGroup (ctx : Ctx) (feeAndMbrPayment : PayTxn) (tokenDropId : TokenDropId)
    (valueToVerify : Z) : M unit :=
  receivePayTxn ctx feeAndMbrPayment;;
  claimDrop ctx feeAndMbrPayment tokenDropId valueToVerify.

(** ** The contract as a transition system *)

(** The calls of the contract's interface, and the two ways the application
    account is credited outside any call. *)
Inductive Call :=
| UpdateApplication
| ChangeMaintainer (newMaintainer : Address)
| ChangeFees (creationFee perClaimFee : Z)
| OptinAsset (mbrPayment : PayTxn) (assetId : AssetID)
| CreateDrop (feeAndMbrPayment : PayTxn) (assetTxn : AssetTransferTxn)
             (tokenDropConfig : TokenDropConfig)
| CancelDrop (tokenDropId : TokenDropId)
| ClaimDrop (feeAndMbrPayment : PayTxn) (tokenDropId : TokenDropId) (valueToVerify : Z)
| ClaimClaimerBoxCost (tokenDropId : TokenDropId) (claimerAddress receiver : Address)
| CleanupDrop (tokenDropId : TokenDropId)
| Deposit (payment : PayTxn)
| DepositAsset (transfer : AssetTransferTxn).

Definition exec (ctx : Ctx) (c : Call) : M unit :=
  match c with
  | UpdateApplication => updateApplication ctx
  | ChangeMaintainer a => changeMaintainer ctx a
  | ChangeFees cf pf => changeFees ctx cf pf
  | OptinAsset p a => optinAssetGroup ctx p a
  | CreateDrop p a cfg => createDropGroup ctx p a cfg;; ret tt
  | CancelDrop id => cancelDrop ctx id
  | ClaimDrop p id v => claimDropGroup ctx p id v
  | ClaimClaimerBoxCost id a r => claimClaimerBoxCost ctx id a r
  | CleanupDrop id => cleanupDrop ctx id
  | Deposit p => receivePayTxn ctx p
  | DepositAsset a => receiveAssetTransferTxn ctx a
  end.

(** Arguments as the ABI decodes them: amounts are uint64. *)
Definition wf_call (c : Call) : Prop :=
  match c with
  | OptinAsset p _ | ClaimDrop p _ _ | Deposit p => uint64 (pay_amount p)
  | CreateDrop p a cfg =>
      uint64 (pay_amount p) /\ uint64 (axfer_assetAmount a) /\ uint64 (AmountPerClaim cfg)
  | DepositAsset a => uint64 (axfer_assetAmount a)
  | ChangeFees cf pf => uint64 cf /\ uint64 pf
  | _ => True
  end.

(** States the application at address [self] can be in: created by
    [createApplication], then any sequence of successful calls. *)
Inductive reachable (self : Address) : State -> Prop :=
| reach_create nfdRegistryId maintainer :
    reachable self (createApplication nfdRegistryId maintainer)
| reach_step st ctx c st' :
    reachable self st ->
    appAddress ctx = self ->
    wf_call c ->
    exec ctx c st = Ok (tt, st') ->
    reachable self st'.

(** * Vocabulary of the statements

    The definitions of this part are not code of the contract.  They name
    the states and amounts the theorems speak about: the closed form of the
    state a method leaves behind, the conditions under which it succeeds, the
    invariant of the registry, and the states of a worked scenario.  Each
    closed form is tied to the embedded method by a lemma of the next parts
    ([sendTokensFromDrop_eq], [cleanupDrop_eq], [claimDrop_Ok],
    [createDrop_Ok]). *)

(** ** Outcomes of the methods *)

(** The record [sendTokensFromDrop] writes back: [amt] less remaining, one
    more claim. *)
Definition sentDrop (d : TokenDropInfo) (amt : Z) : TokenDropInfo :=
  mkDrop (DropId d) (DropCreator d) (AmountRemaining d - amt) (MaxClaims d) (NumClaims d + 1)
         (Config d).

(** The state after [sendTokensFromDrop] sent [amt] units to [recv], the
    application holding [bal] units before. *)
Definition after_send (ctx : Ctx) (d : TokenDropInfo) (recv : Address) (amt bal : Z) (st : State)
    : State :=
  set_allDrops (insert (DropId d) (sentDrop d amt))
    (set_account (appAlgo st)
       (<[Token (Config d) := if decide (recv = appAddress ctx) then bal else bal - amt]>
          (appAssets st))
       [ItxnAxfer (Token (Config d)) recv amt None EmptyString] st).

(** When [sendTokensFromDrop] succeeds. *)
Definition send_ok (ctx : Ctx) (d : TokenDropInfo) (recv : Address) (amt bal : Z) (st : State)
    : bool :=
  (amt <=? bal) && isOptedInToAsset ctx st recv (Token (Config d))
  && (amt <=? AmountRemaining d) && (NumClaims d + 1 <=? MAX_UINT64).

(** What the application holds of the drop's token once the remaining
    tokens went back to the drop's creator. *)
Definition teardownLeft (ctx : Ctx) (d : TokenDropInfo) (bal : Z) : Z :=
  if 0 <? AmountRemaining d
  then (if decide (DropCreator d = appAddress ctx) then bal else bal - AmountRemaining d)
  else bal.

(** The asset transfers of [refundDropCreatorRemainingTokens]: the remaining
    tokens, then the opt-out if nothing of the token is left. *)
Definition teardownTxns (ctx : Ctx) (d : TokenDropInfo) (bal : Z) : list InnerTxn :=
  (if 0 <? AmountRemaining d
   then [ItxnAxfer (Token (Config d)) (DropCreator d) (AmountRemaining d) None EmptyString]
   else [])
  ++ (if teardownLeft ctx d bal =? 0
      then [ItxnAxfer (Token (Config d)) (appAddress ctx) 0 (Some (appAddress ctx))
                      "opt-out of token"]
      else []).

(** The payment of [cleanupDrop]: by how much the minimum balance went down
    over the removal of the two boxes and the opt-out, if any. *)
Definition teardownRefund (ctx : Ctx) (d : TokenDropInfo) (bal : Z) : Z :=
  costForBoxStorage boxBytes_allDrops + costForBoxStorage boxBytes_dropForToken
  + (if teardownLeft ctx d bal =? 0 then assetOptInMinBalance else 0).

(** The state after [cleanupDrop]. *)
Definition after_teardown (ctx : Ctx) (id : Z) (d : TokenDropInfo) (bal : Z) (st : State) : State :=
  mkState (nfdRegistryAppId st) (maintainerAddress st) (creationFeeAmount st)
          (perClaimFeeAmount st) (totalClaims st) (lastDropId st)
          (delete id (allDrops st)) (delete (Token (Config d)) (dropForToken st)) (claimedMap st)
          (if decide (DropCreator d = appAddress ctx) then appAlgo st
           else appAlgo st - teardownRefund ctx d bal)
          (if teardownLeft ctx d bal =? 0 then delete (Token (Config d)) (appAssets st)
           else <[Token (Config d) := teardownLeft ctx d bal]> (appAssets st))
          (itxns st ++ teardownTxns ctx d bal
             ++ [ItxnPay (DropCreator d) (teardownRefund ctx d bal)
                         "refund from removing token drop"]).

(** The state after [refundDropCreatorRemainingTokens]. *)
Definition after_refund (ctx : Ctx) (id : Z) (d : TokenDropInfo) (bal : Z) (st : State) : State :=
  mkState (nfdRegistryAppId st) (maintainerAddress st) (creationFeeAmount st)
          (perClaimFeeAmount st) (totalClaims st) (lastDropId st)
          (if 0 <? AmountRemaining d then <[id := sentDrop d (AmountRemaining d)]> (allDrops st)
           else allDrops st)
          (dropForToken st) (claimedMap st) (appAlgo st)
          (if teardownLeft ctx d bal =? 0 then delete (Token (Config d)) (appAssets st)
           else <[Token (Config d) := teardownLeft ctx d bal]> (appAssets st))
          (itxns st ++ teardownTxns ctx d bal).

(** When [refundDropCreatorRemainingTokens] and [cleanupDrop] succeed. *)
Definition refund_ok (ctx : Ctx) (d : TokenDropInfo) (bal : Z) (st : State) : bool :=
  if 0 <? AmountRemaining d
  then send_ok ctx d (DropCreator d) (AmountRemaining d) bal st
  else true.

Definition cleanup_ok (ctx : Ctx) (d : TokenDropInfo) (bal : Z) (st : State) : bool :=
  (bool_decide (txnSender ctx = DropCreator d) || isDropExpiredOrEmpty ctx d)
  && refund_ok ctx d bal st
  && (minBalance st - teardownRefund ctx d bal
      <=? (if decide (DropCreator d = appAddress ctx) then appAlgo st
           else appAlgo st - teardownRefund ctx d bal)).

(** The rent of one receipt box, as [getPerClaimerMbrCost] computes it, and
    the two parts of the per-claim fee [claimDrop] pays out. *)
Definition perClaimerMbr : Z := costForBoxStorage (1 + len_AddressClaimKey + len_ClaimedInfo).

Definition maintainerPortion (fee : Z) : Z := fee * 500 / 1000.
Definition feeSinkPortion (fee : Z) : Z := fee - maintainerPortion fee - perClaimerMbr.

(** The state after [claimDrop], the payment already credited. *)
Definition after_claim (ctx : Ctx) (id : Z) (d : TokenDropInfo) (bal : Z) (st : State) : State :=
  let fee := perClaimFeeAmount st in
  let algo1 := if decide (maintainerAddress st = appAddress ctx) then appAlgo st
               else appAlgo st - maintainerPortion fee in
  let algo2 := if decide (feeSink ctx = appAddress ctx) then algo1
               else algo1 - feeSinkPortion fee in
  mkState (nfdRegistryAppId st) (maintainerAddress st) (creationFeeAmount st)
          (perClaimFeeAmount st) (totalClaims st + 1) (lastDropId st)
          (<[id := sentDrop d (AmountPerClaim (Config d))]> (allDrops st))
          (dropForToken st)
          (<[(id, txnSender ctx) := mkClaimed (txnID ctx)]> (claimedMap st))
          algo2
          (<[Token (Config d) := if decide (txnSender ctx = appAddress ctx) then bal
                                 else bal - AmountPerClaim (Config d)]> (appAssets st))
          (itxns st ++ [ItxnPay (maintainerAddress st) (maintainerPortion fee) "TokenDrop fee";
                        ItxnPay (feeSink ctx) (feeSinkPortion fee) "TokenDrop fee";
                        ItxnAxfer (Token (Config d)) (txnSender ctx) (AmountPerClaim (Config d))
                                  None EmptyString]).

(** The state of [claimDrop] between the receipt and the token transfer. *)
Definition paid_state (ctx : Ctx) (id : Z) (st : State) : State :=
  let fee := perClaimFeeAmount st in
  let algo1 := if decide (maintainerAddress st = appAddress ctx) then appAlgo st
               else appAlgo st - maintainerPortion fee in
  let algo2 := if decide (feeSink ctx = appAddress ctx) then algo1
               else algo1 - feeSinkPortion fee in
  mkState (nfdRegistryAppId st) (maintainerAddress st) (creationFeeAmount st)
          (perClaimFeeAmount st) (totalClaims st + 1) (lastDropId st)
          (allDrops st) (dropForToken st)
          (<[(id, txnSender ctx) := mkClaimed (txnID ctx)]> (claimedMap st))
          algo2 (appAssets st)
          (itxns st ++ [ItxnPay (maintainerAddress st) (maintainerPortion fee) "TokenDrop fee";
                        ItxnPay (feeSink ctx) (feeSinkPortion fee) "TokenDrop fee"]).

(** [claimDrop] as the specification describes it: the method without a
    check of the per-claim fee against the receipt rent at claim time.  It
    is [claimDrop] with the assert ['per-claim fee too low'] left out. *)
Definition claimDrop_without_fee_check (ctx : Ctx) (feeAndMbrPayment : PayTxn)
    (tokenDropId : TokenDropId) (valueToVerify : Z) : M unit :=
  let* dropInfo := readDrop tokenDropId in
  assert (negb (bool_decide (txnSender ctx = DropCreator dropInfo))) "drop creator cannot claim";;
  assert (negb (isDropExpiredOrEmpty ctx dropInfo)) "airdrop has ended or out of tokens";;
  let* optedIn := gets (fun st => isOptedInToAsset ctx st (txnSender ctx) (Token (Config dropInfo))) in
  assert optedIn "claimant must already be opted-in to token!";;
  let claimKey := (tokenDropId, txnSender ctx) in
  let* receipt := gets (fun st => claimedMap st !! claimKey) in
  assert (bool_decide (receipt = None)) "already claimed";;
  doesClaimAccountMeetGating ctx tokenDropId valueToVerify;;
  let* perClaimerFee := getPerClaimerFee in
  let* mbrCost := getPerClaimerMbrCost in
  verifyPayTxn feeAndMbrPayment (Some (appAddress ctx)) (Some (txnSender ctx)) (Some perClaimerFee);;
  let* scaled := mul64 perClaimerFee 500 in
  let* maintainerPortion := div64 scaled 1000 in
  let* maintainer := gets maintainerAddress in
  sendPayment ctx maintainer maintainerPortion "TokenDrop fee";;
  let* rest := sub64 perClaimerFee maintainerPortion in
  let* feeSinkPortion := sub64 rest mbrCost in
  sendPayment ctx (feeSink ctx) feeSinkPortion "TokenDrop fee";;
  modify (set_claimedMap (insert claimKey (mkClaimed (txnID ctx))));;
  let* total := gets totalClaims in
  let* n := add64 total 1 in
  modify (fun st => set_globals (maintainerAddress st) (creationFeeAmount st)
                                (perClaimFeeAmount st) n (lastDropId st) st);;
  sendTokensFromDrop ctx dropInfo (txnSender ctx) (AmountPerClaim (Config dropInfo));;
  ret tt.

Definition claimDropGroup_without_fee_check (ctx : Ctx) (feeAndMbrPayment : PayTxn)
    (tokenDropId : TokenDropId) (valueToVerify : Z) : M unit :=
  receivePayTxn ctx feeAndMbrPayment;;
  claimDrop_without_fee_check ctx feeAndMbrPayment tokenDropId valueToVerify.

(** What [getDropCreateCost] returns. *)
Definition createCost (st : State) : Z :=
  creationFeeAmount st + costForBoxStorage (1 + len_uint64 + len_TokenDropInfo)
  + costForBoxStorage (3 + len_uint64 + len_uint64).

(** The record [createDrop] stores. *)
Definition newDrop (id : Z) (assetTxn : AssetTransferTxn) (cfg : TokenDropConfig) : TokenDropInfo :=
  mkDrop id (axfer_sender assetTxn) (axfer_assetAmount assetTxn)
         (axfer_assetAmount assetTxn / AmountPerClaim cfg) 0 cfg.

(** The refund of what the payment exceeds the cost by. *)
Definition excessTxns (pay : PayTxn) (st : State) : list InnerTxn :=
  if createCost st <? pay_amount pay
  then [ItxnPay (pay_sender pay) (pay_amount pay - createCost st) "excess mbr refund"]
  else [].

(** The state after [createDrop] stored the new drop, refunded the excess and
    paid out the creation fee; [st] is the state after the teardown of the
    superseded drop, if any. *)
Definition after_install (ctx : Ctx) (pay : PayTxn) (assetTxn : AssetTransferTxn)
    (cfg : TokenDropConfig) (st : State) : State :=
  let id := lastDropId st + 1 in
  let half := creationFeeAmount st / 2 in
  let algo1 := if createCost st <? pay_amount pay
               then (if decide (pay_sender pay = appAddress ctx) then appAlgo st
                     else appAlgo st - (pay_amount pay - createCost st))
               else appAlgo st in
  let algo2 := if decide (maintainerAddress st = appAddress ctx) then algo1 else algo1 - half in
  let algo3 := if decide (feeSink ctx = appAddress ctx) then algo2 else algo2 - half in
  mkState (nfdRegistryAppId st) (maintainerAddress st) (creationFeeAmount st)
          (perClaimFeeAmount st) (totalClaims st) id
          (<[id := newDrop id assetTxn cfg]> (allDrops st))
          (<[Token cfg := id]> (dropForToken st))
          (claimedMap st) algo3 (appAssets st)
          (itxns st ++ excessTxns pay st
             ++ [ItxnPay (maintainerAddress st) half "TokenDrop fee";
                 ItxnPay (feeSink ctx) half "TokenDrop fee"]).

(** The state after [optinAsset], the payment already credited. *)
Definition after_optin (ctx : Ctx) (assetId : AssetID) (st : State) : State :=
  match appAssets st !! assetId with
  | Some _ =>
      set_account (if decide (txnSender ctx = appAddress ctx) then appAlgo st
                   else appAlgo st - assetOptInMinBalance)
                  (appAssets st)
                  [ItxnPay (txnSender ctx) assetOptInMinBalance "optin refund"] st
  | None =>
      set_account (appAlgo st) (<[assetId := 0]> (appAssets st))
                  [ItxnAxfer assetId (appAddress ctx) 0 None EmptyString] st
  end.

(** The refund of [claimClaimerBoxCost]: the rent of the receipt, if there
    is one. *)
Definition receiptRefund (key : Z * Z) (st : State) : Z :=
  match claimedMap st !! key with
  | Some _ => perClaimerMbr
  | None => 0
  end.

(** The state after [claimClaimerBoxCost]. *)
Definition after_reclaim (ctx : Ctx) (id : TokenDropId) (claimer receiver : Address) (st : State)
    : State :=
  set_account (if decide (receiver = appAddress ctx) then appAlgo st
               else appAlgo st - receiptRefund (id, claimer) st)
              (appAssets st)
              [ItxnPay receiver (receiptRefund (id, claimer) st) EmptyString]
              (set_claimedMap (delete (id, claimer)) st).

(** The balance an asset gate asks for: the configured minimum, or 1 when
    none is configured. *)
Definition balRequired (cfg : TokenDropConfig) : Z :=
  if gatingAssetMinBalance cfg =? 0 then 1 else gatingAssetMinBalance cfg.

(** The teardown of the drop indexed for the token, if there is one. *)
Definition supersede (ctx : Ctx) (cfg : TokenDropConfig) (st st0 : State) : Prop :=
  match dropForToken st !! Token cfg with
  | None => st0 = st
  | Some old =>
      exists dOld, allDrops st !! old = Some dOld /\ isDropExpiredOrEmpty ctx dOld = true /\
                   cleanupDrop ctx old st = Ok (tt, st0)
  end.

(** ** The registry invariant *)

(** What holds of every stored drop. *)
Record drop_ok (st : State) (id : Z) (d : TokenDropInfo) : Prop := mk_drop_ok {
  ok_id : DropId d = id;
  ok_last : 0 < id <= lastDropId st;
  ok_apc : 0 < AmountPerClaim (Config d);
  ok_claims : 0 <= NumClaims d <= MaxClaims d;
  ok_max : MaxClaims d <= MAX_UINT64;
  ok_accounting :
    AmountRemaining d = (MaxClaims d - NumClaims d) * AmountPerClaim (Config d);
  ok_index : dropForToken st !! Token (Config d) = Some id;
  ok_escrow :
    exists bal, appAssets st !! Token (Config d) = Some bal /\ AmountRemaining d <= bal
}.

(** What holds of every reachable state. *)
Record Inv (st : State) : Prop := mk_Inv {
  inv_drops : forall id d, allDrops st !! id = Some d -> drop_ok st id d;
  inv_index : forall tok id, dropForToken st !! tok = Some id ->
                exists d, allDrops st !! id = Some d /\ Token (Config d) = tok;
  inv_last : 0 <= lastDropId st;
  inv_assets : forall a bal, appAssets st !! a = Some bal -> 0 <= bal;
  inv_fees : creationFeeAmount st mod 2 = 0 /\
             2000000 < creationFeeAmount st <= MAX_UINT64 /\
             2 * perClaimerMbr <= perClaimFeeAmount st <= MAX_UINT64
}.

(** What else holds of every reachable state: receipts belong to drop ids
    that were handed out, and stored configurations passed [checkGatingInfo]. *)
Record Inv_receipts (st : State) : Prop := mk_Inv_receipts {
  inv_receipt_ids : forall id a r, claimedMap st !! (id, a) = Some r -> 0 < id <= lastDropId st;
  inv_gating : forall id d, allDrops st !! id = Some d ->
    GATING_TYPE_NONE <= entryGatingType (Config d) <= GATING_TYPE_CONST_MAX /\
    (entryGatingType (Config d) = GATING_TYPE_NFD_HOLDING_AGE ->
     0 < gatingAssetMinBalance (Config d))
}.

(** The state after the payment of a group was applied. *)
Definition credited (ctx : Ctx) (p : PayTxn) (st : State) : State :=
  if bool_decide (pay_receiver p = appAddress ctx) then bump (pay_amount p) st else st.

(** ** Properties of computations *)

(** Checks: computations that leave the state as it is. *)
Definition check {A} (m : M A) : Prop :=
  forall st a st', m st = Ok (a, st') -> st' = st.

(** A computation is monotone in the balance: [extra] more microAlgo in the
    account never turns a success into a failure, and carries over to the
    final state. *)
Definition mono (extra : Z) {A} (m : M A) : Prop :=
  forall st a st', m st = Ok (a, st') -> m (bump extra st) = Ok (a, bump extra st').

(** Two runs in step: the second starts with [extra] more microAlgo. *)
Definition sim (extra : Z) {A} (m m' : M A) (Q : A * State -> Result (A * State) -> Prop)
    : Prop :=
  forall st r, m st = Ok r -> Q r (m' (bump extra st)).

(** The state with another list of submitted inner transactions. *)
Definition set_itxns (l : list InnerTxn) (st : State) : State :=
  mkState (nfdRegistryAppId st) (maintainerAddress st) (creationFeeAmount st)
          (perClaimFeeAmount st) (totalClaims st) (lastDropId st)
          (allDrops st) (dropForToken st) (claimedMap st)
          (appAlgo st) (appAssets st) l.

(** ** A worked scenario *)

Definition APP : Address := 1000.
Definition CREATOR : Address := 10.
Definition ALICE : Address := 11.
Definition MAINTAINER : Address := 50.
Definition FEE_SINK : Address := 2000.
Definition TOKEN : AssetID := 7.

(** A context in which every other account has opted in to every asset and
    no NFD exists. *)
Definition demo_ctx (sender : Address) (now : Z) : Ctx :=
  mkCtx sender 777 1 APP now FEE_SINK
        (fun _ _ => true) (fun _ _ => 0) (fun _ => 0)
        (fun _ _ => false) (fun _ => 0) (fun _ => 0) (fun _ => []) (fun _ => EmptyString)
        (fun _ _ => None) (fun _ _ => EmptyString) (fun _ => 0).

Definition demo_config (amountPerClaim : Z) : TokenDropConfig :=
  mkConfig TOKEN amountPerClaim (5000 + 7 * 86400) GATING_TYPE_NONE 0 [0; 0; 0; 0] 0.

(** The application funded with its base minimum balance and opted in to
    the token. *)
Definition demo_ready : State :=
  mkState 1 MAINTAINER 10000000 100000 0 0 ∅ ∅ ∅ 200000 {[TOKEN := 0]}
          [ItxnAxfer TOKEN APP 0 None EmptyString].

(** The inner transactions up to the creation of the first drop. *)
Definition demo_itxns_created : list InnerTxn :=
  [ItxnAxfer TOKEN APP 0 None EmptyString;
   ItxnPay MAINTAINER 5000000 "TokenDrop fee"; ItxnPay FEE_SINK 5000000 "TokenDrop fee"].

(** A drop of 4000 units at 1000 per claim. *)
Definition demo_drop : TokenDropInfo := mkDrop 1 CREATOR 4000 4 0 (demo_config 1000).
Definition demo_created : State :=
  mkState 1 MAINTAINER 10000000 100000 0 1 {[1 := demo_drop]} {[TOKEN := 1]} ∅
          280600 {[TOKEN := 4000]} demo_itxns_created.

(** After ALICE claimed once. *)
Definition demo_drop_claimed : TokenDropInfo := mkDrop 1 CREATOR 3000 4 1 (demo_config 1000).
Definition demo_claimed : State :=
  mkState 1 MAINTAINER 10000000 100000 1 1 {[1 := demo_drop_claimed]} {[TOKEN := 1]}
          {[(1, ALICE) := mkClaimed 777]} 312300 {[TOKEN := 3000]}
          (demo_itxns_created
             ++ [ItxnPay MAINTAINER 50000 "TokenDrop fee"; ItxnPay FEE_SINK 18300 "TokenDrop fee";
                 ItxnAxfer TOKEN ALICE 1000 None EmptyString]).

(** The same drop with an odd per-claim fee, set by the application's creator. *)
Definition demo_odd_fee : State := set_globals MAINTAINER 10000000 100001 0 1 demo_created.

(** A drop funded for a single claim, and the state after ALICE claimed it. *)
Definition demo_single : State :=
  mkState 1 MAINTAINER 10000000 100000 0 1 {[1 := mkDrop 1 CREATOR 1000 1 0 (demo_config 1000)]}
          {[TOKEN := 1]} ∅ 280600 {[TOKEN := 1000]} demo_itxns_created.

Definition demo_exhausted : State :=
  mkState 1 MAINTAINER 10000000 100000 1 1 {[1 := mkDrop 1 CREATOR 0 1 1 (demo_config 1000)]}
          {[TOKEN := 1]} {[(1, ALICE) := mkClaimed 777]} 312300 {[TOKEN := 0]}
          (demo_itxns_created
             ++ [ItxnPay MAINTAINER 50000 "TokenDrop fee"; ItxnPay FEE_SINK 18300 "TokenDrop fee";
                 ItxnAxfer TOKEN ALICE 1000 None EmptyString]).

(** The exhausted drop replaced by a new one for the same token. *)
Definition demo_replaced : State :=
  mkState 1 MAINTAINER 10000000 100000 1 2 {[2 := mkDrop 2 CREATOR 2000 2 0 (demo_config 1000)]}
          {[TOKEN := 2]} {[(1, ALICE) := mkClaimed 777]} 312300 {[TOKEN := 2000]}
          (itxns demo_exhausted
             ++ [ItxnPay CREATOR 80600 "refund from removing token drop";
                 ItxnPay MAINTAINER 5000000 "TokenDrop fee";
                 ItxnPay FEE_SINK 5000000 "TokenDrop fee"]).

(** The first drop cancelled by its creator after ALICE's claim. *)
Definition demo_cancelled : State :=
  mkState 1 MAINTAINER 10000000 100000 1 1 ∅ ∅ {[(1, ALICE) := mkClaimed 777]} 131700 ∅
          (itxns demo_claimed
             ++ [ItxnAxfer TOKEN CREATOR 3000 None EmptyString;
                 ItxnAxfer TOKEN APP 0 (Some APP) "opt-out of token";
                 ItxnPay CREATOR 180600 "refund from removing token drop"]).

(** A context with an asset and two NFDs, for the gates. *)
(** A context with an asset and two NFDs, for the gates. *)
Definition GATE_ASSET : AssetID := 55.

Definition NFD_ROOT : AppID := 900.

Definition NFD_SEG : AppID := 901.

Definition gate_ctx : Ctx :=
  mkCtx ALICE 778 1 APP 700000 FEE_SINK
        (fun _ _ => true)
        (fun addr a => if (addr =? ALICE) && (a =? GATE_ASSET) then 10 else 0)
        (fun a => if a =? GATE_ASSET then CREATOR else 0)
        (fun reg nfd => (reg =? 1) && ((nfd =? NFD_ROOT) || (nfd =? NFD_SEG)))
        (fun nfd => if nfd =? NFD_SEG then ALICE else CREATOR)
        (fun nfd => if nfd =? NFD_SEG then NFD_ROOT else 0)
        (fun nfd => if nfd =? NFD_ROOT then [0; CREATOR] else [])
        (fun _ => "3.")
        (fun _ _ => None)
        (fun _ key => if String.eqb key "v.twitter" then "alice" else EmptyString)
        (fun _ => 95000).

(** A state with one drop, gated as given. *)
Definition gated_state (ty : Z) (addr : Address) (assets : list Z) (minBal : Z) : State :=
  mkState 1 MAINTAINER 10000000 100000 0 1
          {[1 := mkDrop 1 CREATOR 4000 4 0
                        (mkConfig TOKEN 1000 (5000 + 7 * 86400) ty addr assets minBal)]}
          {[TOKEN := 1]} ∅ 280600 {[TOKEN := 4000]} demo_itxns_created.

(** * Reasoning about runs *)

Section Runs.
Context {A B : Type}.
Implicit Types (m : M A) (f : A -> M B) (st : State).

Lemma bind_Ok m f st r :
  bind m f st = Ok r -> exists a st1, m st = Ok (a, st1) /\ f a st1 = Ok r.
Proof. unfold bind. destruct (m st) as [[a st1]|e]; [eauto | discriminate]. Qed.

Lemma bind_run m f st a st1 : m st = Ok (a, st1) -> bind m f st = f a st1.
Proof. unfold bind. now intros ->. Qed.

Lemma bind_Err m f st e : m st = Err e -> bind m f st = Err e.
Proof. unfold bind. now intros ->. Qed.

Lemma ret_Ok (a b : A) st st' : ret a st = Ok (b, st') -> b = a /\ st' = st.
Proof. unfold ret. intros [= <- <-]. auto. Qed.

Lemma gets_Ok (g : State -> A) (b : A) st st' : gets g st = Ok (b, st') -> b = g st /\ st' = st.
Proof. unfold gets. intros [= <- <-]. auto. Qed.
End Runs.

Lemma modify_Ok f st u st' : modify f st = Ok (u, st') -> st' = f st.
Proof. unfold modify. now intros [= <-]. Qed.

Lemma assert_Ok c msg st u st' : assert c msg st = Ok (u, st') -> c = true /\ st' = st.
Proof. unfold assert. destruct c; [intros [= <-]; auto | discriminate]. Qed.

Lemma assert_true c msg st : c = true -> assert c msg st = Ok (tt, st).
Proof. now intros ->. Qed.

Lemma assert_false c msg st : c = false -> assert c msg st = Err (AssertFailed msg).
Proof. now intros ->. Qed.

Lemma when_Ok b m st u st' :
  when b m st = Ok (u, st') -> (b = true /\ m st = Ok (u, st')) \/ (b = false /\ st' = st).
Proof. unfold when. destruct b; [auto | intros [= <-]; auto]. Qed.

Lemma add64_Ok a b st r st' : add64 a b st = Ok (r, st') -> r = a + b /\ a + b <= MAX_UINT64 /\ st' = st.
Proof. unfold add64. case_match; [intros [= <- <-]; repeat split; lia | discriminate]. Qed.

Lemma sub64_Ok a b st r st' : sub64 a b st = Ok (r, st') -> r = a - b /\ b <= a /\ st' = st.
Proof. unfold sub64. case_match; [intros [= <- <-]; repeat split; lia | discriminate]. Qed.

Lemma mul64_Ok a b st r st' : mul64 a b st = Ok (r, st') -> r = a * b /\ a * b <= MAX_UINT64 /\ st' = st.
Proof. unfold mul64. case_match; [intros [= <- <-]; repeat split; lia | discriminate]. Qed.

Lemma div64_Ok a b st r st' : div64 a b st = Ok (r, st') -> r = a / b /\ b <> 0 /\ st' = st.
Proof. unfold div64. case_match; [discriminate | intros [= <- <-]; repeat split; lia]. Qed.

Lemma mod64_Ok a b st r st' : mod64 a b st = Ok (r, st') -> r = a mod b /\ b <> 0 /\ st' = st.
Proof. unfold mod64. case_match; [discriminate | intros [= <- <-]; repeat split; lia]. Qed.

Lemma add64_run a b st : a + b <= MAX_UINT64 -> add64 a b st = Ok (a + b, st).
Proof. intros. unfold add64. case_match; [done | lia]. Qed.

Lemma sub64_run a b st : b <= a -> sub64 a b st = Ok (a - b, st).
Proof. intros. unfold sub64. case_match; [done | lia]. Qed.

Lemma mul64_run a b st : a * b <= MAX_UINT64 -> mul64 a b st = Ok (a * b, st).
Proof. intros. unfold mul64. case_match; [done | lia]. Qed.

Lemma div64_run a b st : b <> 0 -> div64 a b st = Ok (a / b, st).
Proof. intros. unfold div64. case_match; [lia | done]. Qed.

Lemma mod64_run a b st : b <> 0 -> mod64 a b st = Ok (a mod b, st).
Proof. intros. unfold mod64. case_match; [lia | done]. Qed.

Lemma readDrop_Ok id st d st' : readDrop id st = Ok (d, st') -> allDrops st !! id = Some d /\ st' = st.
Proof. unfold readDrop. case_match; [intros [= <- <-]; auto | discriminate]. Qed.

Lemma readDrop_run id st d : allDrops st !! id = Some d -> readDrop id st = Ok (d, st).
Proof. unfold readDrop. now intros ->. Qed.

Lemma updateDrop_Ok id f st u st' :
  updateDrop id f st = Ok (u, st') ->
  exists d, allDrops st !! id = Some d /\ st' = set_allDrops (insert id (f d)) st.
Proof. unfold updateDrop. case_match; [intros [= <-]; eauto | discriminate]. Qed.

Lemma updateDrop_run id f st d :
  allDrops st !! id = Some d -> updateDrop id f st = Ok (tt, set_allDrops (insert id (f d)) st).
Proof. unfold updateDrop. now intros ->. Qed.

Lemma sendPayment_Ok ctx receiver amount note st u st' :
  sendPayment ctx receiver amount note st = Ok (u, st') ->
  let algo' := if decide (receiver = appAddress ctx) then appAlgo st else appAlgo st - amount in
  minBalance st <= algo' /\
  st' = set_account algo' (appAssets st) [ItxnPay receiver amount note] st.
Proof.
  unfold sendPayment. cbv zeta.
  destruct (minBalance st <=? _) eqn:E; [intros [= <-]; split; [lia | done] | discriminate].
Qed.

Lemma sendPayment_run ctx receiver amount note st :
  let algo' := if decide (receiver = appAddress ctx) then appAlgo st else appAlgo st - amount in
  minBalance st <= algo' ->
  sendPayment ctx receiver amount note st
  = Ok (tt, set_account algo' (appAssets st) [ItxnPay receiver amount note] st).
Proof.
  cbv zeta. intros. unfold sendPayment. cbv zeta.
  destruct (minBalance st <=? _) eqn:E; [done | lia].
Qed.

Lemma verifyPayTxn_Ok p receiver sender amount st u st' :
  verifyPayTxn p receiver sender amount st = Ok (u, st') ->
  (forall r, receiver = Some r -> pay_receiver p = r) /\
  (forall s, sender = Some s -> pay_sender p = s) /\
  (forall a, amount = Some a -> pay_amount p = a) /\ st' = st.
Proof.
  unfold verifyPayTxn. intros H.
  apply bind_Ok in H as (? & ? & H1 & H). apply assert_Ok in H1 as [H1 ->].
  apply bind_Ok in H as (? & ? & H2 & H). apply assert_Ok in H2 as [H2 ->].
  apply assert_Ok in H as [H3 ->].
  repeat split.
  - intros r ->. simpl in H1. now apply bool_decide_eq_true in H1.
  - intros s ->. simpl in H2. now apply bool_decide_eq_true in H2.
  - intros a ->. simpl in H3. lia.
Qed.

Lemma verifyPayTxn_run p receiver sender amount st :
  (forall r, receiver = Some r -> pay_receiver p = r) ->
  (forall s, sender = Some s -> pay_sender p = s) ->
  (forall a, amount = Some a -> pay_amount p = a) ->
  verifyPayTxn p receiver sender amount st = Ok (tt, st).
Proof.
  intros Hr Hs Ha. unfold verifyPayTxn.
  erewrite bind_run; [| apply assert_true].
  2:{ destruct receiver; simpl; [apply bool_decide_eq_true; auto | done]. }
  erewrite bind_run; [| apply assert_true].
  2:{ destruct sender; simpl; [apply bool_decide_eq_true; auto | done]. }
  apply assert_true. destruct amount; simpl; [rewrite (Ha _ eq_refl); lia | done].
Qed.

(** Inversion of a successful run, one primitive at a time. *)
Ltac inv_prim H :=
  first
    [ apply ret_Ok in H; destruct H as [? ?]
    | apply gets_Ok in H; destruct H as [? ?]
    | apply modify_Ok in H
    | apply assert_Ok in H; destruct H as [H ?]
    | apply add64_Ok in H; destruct H as (? & H & ?)
    | apply sub64_Ok in H; destruct H as (? & H & ?)
    | apply mul64_Ok in H; destruct H as (? & H & ?)
    | apply div64_Ok in H; destruct H as (? & H & ?)
    | apply mod64_Ok in H; destruct H as (? & H & ?)
    | apply readDrop_Ok in H; destruct H as [H ?]
    | apply verifyPayTxn_Ok in H; destruct H as (? & ? & H & ?)
    | apply sendPayment_Ok in H; cbv zeta in H; destruct H as [H ?]
    | apply updateDrop_Ok in H; destruct H as (? & H & ?) ];
  subst.

Ltac inv_run H :=
  lazymatch type of H with
  | bind _ _ _ = Ok _ =>
      let a := fresh "x" in
      let s := fresh "s" in
      let H1 := fresh "R" in
      apply bind_Ok in H; destruct H as (a & s & H1 & H);
      inv_run H1; inv_run H
  | _ => try inv_prim H
  end.

Lemma check_bind {A B} (m : M A) (f : A -> M B) :
  check m -> (forall a, check (f a)) -> check (bind m f).
Proof.
  intros Hm Hf st b st' H. apply bind_Ok in H as (a & s & H1 & H2).
  apply Hm in H1 as ->. now apply Hf in H2.
Qed.

Lemma check_ret {A} (a : A) : check (ret a).
Proof. intros st b st' H. now apply ret_Ok in H. Qed.

Lemma check_gets {A} (g : State -> A) : check (gets g).
Proof. intros st b st' H. now apply gets_Ok in H. Qed.

Lemma check_assert c msg : check (assert c msg).
Proof. intros st b st' H. now apply assert_Ok in H. Qed.

Lemma check_when b m : check m -> check (when b m).
Proof. intros Hm. destruct b; [exact Hm | apply check_ret]. Qed.

Lemma check_readDrop id : check (readDrop id).
Proof. intros st b st' H. now apply readDrop_Ok in H. Qed.

Lemma check_add64 a b : check (add64 a b).
Proof. intros st r st' H. now apply add64_Ok in H. Qed.

Lemma check_mul64 a b : check (mul64 a b).
Proof. intros st r st' H. now apply mul64_Ok in H. Qed.

Lemma check_verifyPayTxn p r s a : check (verifyPayTxn p r s a).
Proof. intros st u st' H. now apply verifyPayTxn_Ok in H. Qed.

Create HintDb checks.
#[export] Hint Resolve check_ret check_gets check_assert check_readDrop check_add64
  check_mul64 check_verifyPayTxn : checks.

Ltac check_tac :=
  repeat first
    [ apply check_bind; [| intros ?]
    | apply check_when
    | solve [auto with checks] ].

Lemma check_isNfdAppIdValid ctx id : check (isNfdAppIdValid ctx id).
Proof. apply check_gets. Qed.
#[export] Hint Resolve check_isNfdAppIdValid : checks.

Lemma check_checkValidV3NfdAndOwnedByClaimer ctx v claimer :
  check (checkValidV3NfdAndOwnedByClaimer ctx v claimer).
Proof. unfold checkValidV3NfdAndOwnedByClaimer. check_tac. Qed.
#[export] Hint Resolve check_checkValidV3NfdAndOwnedByClaimer : checks.

Lemma check_doesClaimAccountMeetGating ctx id v : check (doesClaimAccountMeetGating ctx id v).
Proof.
  unfold doesClaimAccountMeetGating. apply check_bind; [auto with checks | intros d0].
  cbv zeta. case_match; [apply check_ret |]. check_tac.
Qed.

Lemma check_checkGatingInfo ctx cfg : check (checkGatingInfo ctx cfg).
Proof. unfold checkGatingInfo. check_tac. Qed.

(** With no gating configured, a claim passes the gate. *)
Lemma doesClaimAccountMeetGating_none ctx id v st d :
  allDrops st !! id = Some d ->
  entryGatingType (Config d) = GATING_TYPE_NONE ->
  doesClaimAccountMeetGating ctx id v st = Ok (tt, st).
Proof.
  intros Hd Ht. unfold doesClaimAccountMeetGating.
  rewrite (bind_run _ _ _ _ _ (readDrop_run _ _ _ Hd)). cbv zeta. now rewrite Ht.
Qed.

(** ** Asset transfers and teardown, step by step *)

Lemma sendAssetTransfer_held ctx tok recv amt note st bal :
  appAssets st !! tok = Some bal ->
  sendAssetTransfer ctx tok recv amt None note st =
    if amt <=? bal then
      if isOptedInToAsset ctx st recv tok then
        Ok (tt, set_account (appAlgo st)
                  (<[tok := if decide (recv = appAddress ctx) then bal else bal - amt]> (appAssets st))
                  [ItxnAxfer tok recv amt None note] st)
      else Err (LedgerRejected "receiver not opted in")
    else Err (LedgerRejected "underflow on asset holding").
Proof. intros H. unfold sendAssetTransfer. rewrite H. reflexivity. Qed.

Lemma isOptedInToAsset_self ctx st tok bal :
  appAssets st !! tok = Some bal -> isOptedInToAsset ctx st (appAddress ctx) tok = true.
Proof.
  intros H. unfold isOptedInToAsset. rewrite decide_True by done.
  apply bool_decide_eq_true. rewrite H. eauto.
Qed.

Lemma sendAssetTransfer_close_self ctx tok note st :
  appAssets st !! tok = Some 0 ->
  sendAssetTransfer ctx tok (appAddress ctx) 0 (Some (appAddress ctx)) note st =
    Ok (tt, set_account (appAlgo st) (delete tok (appAssets st))
              [ItxnAxfer tok (appAddress ctx) 0 (Some (appAddress ctx)) note] st).
Proof.
  intros H. unfold sendAssetTransfer. rewrite H. simpl.
  rewrite (isOptedInToAsset_self _ _ _ _ H). rewrite !decide_True by done. reflexivity.
Qed.

Lemma sendTokensFromDrop_eq ctx d recv amt st bal :
  allDrops st !! DropId d = Some d ->
  appAssets st !! Token (Config d) = Some bal ->
  exists e,
    sendTokensFromDrop ctx d recv amt st
    = if send_ok ctx d recv amt bal st
      then Ok (AmountRemaining d - amt, after_send ctx d recv amt bal st)
      else Err e.
Proof.
  intros Hd Hb. unfold sendTokensFromDrop, send_ok, bind at 1.
  rewrite (sendAssetTransfer_held _ _ _ _ _ _ _ Hb).
  destruct (amt <=? bal) eqn:Ha; [| eauto].
  destruct (isOptedInToAsset ctx st recv (Token (Config d))) eqn:Ho; [| eauto].
  unfold bind at 1, sub64.
  destruct (amt <=? AmountRemaining d) eqn:Hr; [| eauto]. unfold ret at 1.
  erewrite bind_run; [| apply updateDrop_run; simpl; exact Hd].
  erewrite bind_run; [| apply readDrop_run; simpl; apply lookup_insert_eq].
  unfold bind at 1, add64. simpl.
  destruct (NumClaims d + 1 <=? MAX_UINT64) eqn:Hn; [| eauto]. unfold ret at 1.
  erewrite bind_run; [| apply updateDrop_run; simpl; apply lookup_insert_eq].
  exists Overflow. unfold ret, after_send, set_allDrops. simpl. now rewrite insert_insert_eq.
Qed.

Lemma size_delete_Z `{Countable K} {V} (m : gmap K V) i x :
  m !! i = Some x -> Z.of_nat (size (delete i m)) = Z.of_nat (size m) - 1.
Proof.
  intros Hi. rewrite <-(insert_id m i x Hi) at 2. rewrite <-insert_delete_eq.
  rewrite map_size_insert_None by apply lookup_delete_eq. lia.
Qed.

Lemma size_insert_new_Z `{Countable K} {V} (m : gmap K V) i x :
  m !! i = None -> Z.of_nat (size (<[i:=x]> m)) = Z.of_nat (size m) + 1.
Proof. intros Hi. rewrite map_size_insert_None by done. lia. Qed.

Lemma size_insert_old_Z `{Countable K} {V} (m : gmap K V) i x y :
  m !! i = Some y -> Z.of_nat (size (<[i:=x]> m)) = Z.of_nat (size m).
Proof. intros Hi. rewrite map_size_insert_Some by eauto. lia. Qed.

(** ** Teardown *)

Lemma optout_eq ctx tok st left :
  appAssets st !! tok = Some left ->
  (let* bal := gets (fun st => assetBalance ctx st (appAddress ctx) tok) in
   when (bal =? 0)
     (sendAssetTransfer ctx tok (appAddress ctx) 0 (Some (appAddress ctx)) "opt-out of token")) st
  = Ok (tt, set_account (appAlgo st)
              (if left =? 0 then delete tok (appAssets st) else appAssets st)
              (if left =? 0
               then [ItxnAxfer tok (appAddress ctx) 0 (Some (appAddress ctx)) "opt-out of token"]
               else []) st).
Proof.
  intros Hb. unfold bind, gets, assetBalance. rewrite decide_True by done. rewrite Hb. simpl.
  destruct (left =? 0) eqn:E; simpl.
  - assert (left = 0) as -> by lia. now rewrite sendAssetTransfer_close_self.
  - unfold ret, set_account. rewrite app_nil_r. now destruct st.
Qed.

Lemma refund_eq ctx id d bal st :
  allDrops st !! id = Some d -> DropId d = id ->
  appAssets st !! Token (Config d) = Some bal ->
  exists e,
    refundDropCreatorRemainingTokens ctx id st
    = if refund_ok ctx d bal st then Ok (tt, after_refund ctx id d bal st) else Err e.
Proof.
  intros Hd Hid Hb. unfold refundDropCreatorRemainingTokens, refund_ok.
  rewrite (bind_run _ _ _ _ _ (readDrop_run _ _ _ Hd)).
  destruct (0 <? AmountRemaining d) eqn:Hpos; unfold when at 1.
  - rewrite <-Hid in Hd.
    destruct (sendTokensFromDrop_eq ctx d (DropCreator d) (AmountRemaining d) st bal Hd Hb)
      as [e He].
    exists e. unfold bind at 1. unfold bind at 1. rewrite He.
    destruct (send_ok _ _ _ _ _ _); [| done]. unfold ret at 1.
    erewrite optout_eq; [| simpl; apply lookup_insert_eq].
    f_equal. f_equal. unfold after_refund, after_send, set_account, set_allDrops, teardownLeft,
      teardownTxns, teardownLeft. rewrite Hpos, Hid. simpl.
    rewrite delete_insert_eq. rewrite <-app_assoc.
    destruct (_ =? 0); reflexivity.
  - exists Overflow. unfold bind at 1, ret at 1.
    rewrite (optout_eq _ _ _ _ Hb).
    f_equal. f_equal. unfold after_refund, set_account, teardownTxns, teardownLeft.
    rewrite Hpos. simpl. destruct (bal =? 0) eqn:E; [reflexivity |].
    now rewrite (insert_id _ _ _ Hb).
Qed.

Lemma cost_allDrops : costForBoxStorage boxBytes_allDrops = 70500.
Proof. reflexivity. Qed.
Lemma cost_dropForToken : costForBoxStorage boxBytes_dropForToken = 10100.
Proof. reflexivity. Qed.
Lemma cost_claimedMap : costForBoxStorage boxBytes_claimedMap = 31700.
Proof. reflexivity. Qed.

Lemma removeFromDrops_after_refund ctx id d bal st :
  allDrops st !! id = Some d ->
  removeFromDrops id (after_refund ctx id d bal st)
  = Ok (tt, set_allDrops (delete id)
              (set_dropForToken (delete (Token (Config d))) (after_refund ctx id d bal st))).
Proof.
  intros Hd. unfold removeFromDrops.
  assert (exists d', allDrops (after_refund ctx id d bal st) !! id = Some d'
                     /\ Config d' = Config d) as (d' & Hd' & Hc).
  { unfold after_refund. simpl. destruct (0 <? AmountRemaining d).
    - eexists. rewrite lookup_insert_eq. split; reflexivity.
    - eauto. }
  rewrite (bind_run _ _ _ _ _ (readDrop_run _ _ _ Hd')). rewrite Hc. reflexivity.
Qed.

Lemma minBalance_after_removal ctx id d bal st id' :
  allDrops st !! id = Some d ->
  dropForToken st !! Token (Config d) = Some id' ->
  appAssets st !! Token (Config d) = Some bal ->
  minBalance (set_allDrops (delete id)
                (set_dropForToken (delete (Token (Config d))) (after_refund ctx id d bal st)))
  = minBalance st - teardownRefund ctx d bal.
Proof.
  intros Hd Hi Hb. unfold minBalance, teardownRefund. simpl.
  rewrite (size_delete_Z _ _ _ Hi).
  assert (Z.of_nat (size (delete id (if 0 <? AmountRemaining d
                                     then <[id:=sentDrop d (AmountRemaining d)]> (allDrops st)
                                     else allDrops st)))
          = Z.of_nat (size (allDrops st)) - 1) as ->.
  { destruct (0 <? AmountRemaining d).
    - rewrite delete_insert_eq. eapply size_delete_Z; eauto.
    - eapply size_delete_Z; eauto. }
  destruct (teardownLeft ctx d bal =? 0).
  - rewrite (size_delete_Z _ _ _ Hb). lia.
  - rewrite (size_insert_old_Z _ _ _ _ Hb). lia.
Qed.

Lemma teardownRefund_pos ctx d bal : 0 < teardownRefund ctx d bal.
Proof.
  unfold teardownRefund. rewrite cost_allDrops, cost_dropForToken.
  unfold assetOptInMinBalance. destruct (_ =? 0); lia.
Qed.

Lemma cleanupDrop_eq ctx id d bal st id' :
  allDrops st !! id = Some d -> DropId d = id ->
  dropForToken st !! Token (Config d) = Some id' ->
  appAssets st !! Token (Config d) = Some bal ->
  exists e,
    cleanupDrop ctx id st
    = if cleanup_ok ctx d bal st then Ok (tt, after_teardown ctx id d bal st) else Err e.
Proof.
  intros Hd Hid Hi Hb. unfold cleanupDrop, cleanup_ok.
  rewrite (bind_run _ _ _ _ _ (readDrop_run _ _ _ Hd)).
  assert (exists e, when (negb (bool_decide (txnSender ctx = DropCreator d)))
                      (assert (isDropExpiredOrEmpty ctx d) "drop MUST be expired or empty") st
                    = if bool_decide (txnSender ctx = DropCreator d) || isDropExpiredOrEmpty ctx d
                      then Ok (tt, st) else Err e) as [e1 He1].
  { destruct (bool_decide _); simpl; [by exists Overflow |].
    destruct (isDropExpiredOrEmpty ctx d); simpl; [by exists Overflow | eauto]. }
  unfold bind at 1. rewrite He1.
  destruct (bool_decide _ || isDropExpiredOrEmpty ctx d); [| eauto]. simpl.
  unfold bind at 1, gets at 1.
  destruct (refund_eq ctx id d bal st Hd Hid Hb) as [e2 He2].
  unfold bind at 1. rewrite He2. destruct (refund_ok ctx d bal st); [| eauto]. simpl.
  rewrite (bind_run _ _ _ _ _ (removeFromDrops_after_refund _ _ _ _ _ Hd)).
  unfold bind at 1, gets at 1.
  rewrite (minBalance_after_removal _ _ _ _ _ _ Hd Hi Hb).
  pose proof (teardownRefund_pos ctx d bal) as Hpos.
  erewrite bind_run; [| apply sub64_run; lia].
  replace (minBalance st - (minBalance st - teardownRefund ctx d bal))
    with (teardownRefund ctx d bal) by lia.
  unfold sendPayment. cbv zeta.
  rewrite (minBalance_after_removal _ _ _ _ _ _ Hd Hi Hb). simpl.
  destruct (_ <=? _); [| eauto]. exists Overflow.
  f_equal. f_equal. unfold after_teardown, set_account, set_allDrops, set_dropForToken, after_refund.
  simpl. f_equal.
  - destruct (0 <? AmountRemaining d); [apply delete_insert_eq | done].
  - now rewrite <-app_assoc.
Qed.

(** ** Claims *)

Lemma claimDrop_Ok ctx pay id v st u st' d bal :
  allDrops st !! id = Some d -> DropId d = id ->
  appAssets st !! Token (Config d) = Some bal ->
  claimDrop ctx pay id v st = Ok (u, st') ->
  txnSender ctx <> DropCreator d /\
  isDropExpiredOrEmpty ctx d = false /\
  isOptedInToAsset ctx st (txnSender ctx) (Token (Config d)) = true /\
  claimedMap st !! (id, txnSender ctx) = None /\
  doesClaimAccountMeetGating ctx id v st = Ok (tt, st) /\
  2 * perClaimerMbr <= perClaimFeeAmount st /\
  pay_receiver pay = appAddress ctx /\ pay_sender pay = txnSender ctx /\
  pay_amount pay = perClaimFeeAmount st /\
  perClaimFeeAmount st * 500 <= MAX_UINT64 /\
  AmountPerClaim (Config d) <= AmountRemaining d /\
  AmountPerClaim (Config d) <= bal /\
  st' = after_claim ctx id d bal st.
Proof.
  intros Hd Hid Hb H. unfold claimDrop in H.
  apply bind_Ok in H as (d0 & s0 & H0 & H). apply readDrop_Ok in H0 as [H0 ->].
  rewrite Hd in H0. injection H0 as <-.
  apply bind_Ok in H as (? & ? & H1 & H). apply assert_Ok in H1 as [H1 ->].
  apply bind_Ok in H as (? & ? & H2 & H). apply assert_Ok in H2 as [H2 ->].
  apply bind_Ok in H as (? & ? & H3 & H). apply gets_Ok in H3 as [-> ->].
  apply bind_Ok in H as (? & ? & H4 & H). apply assert_Ok in H4 as [H4 ->].
  apply bind_Ok in H as (? & ? & H5 & H). apply gets_Ok in H5 as [-> ->].
  apply bind_Ok in H as (? & ? & H6 & H). apply assert_Ok in H6 as [H6 ->].
  apply bind_Ok in H as ([] & ? & H7 & H).
  pose proof (check_doesClaimAccountMeetGating _ _ _ _ _ _ H7) as ->.
  unfold getPerClaimerFee, getPerClaimerMbrCost in H. fold perClaimerMbr in H.
  inv_run H.
  match goal with
  | HS : sendTokensFromDrop _ _ _ _ ?s = _ |- _ =>
      destruct (sendTokensFromDrop_eq ctx d (txnSender ctx) (AmountPerClaim (Config d)) s bal)
        as [e He]; [exact Hd | exact Hb |];
      rewrite He in HS; clear He;
      destruct (send_ok _ _ _ _ _ _) eqn:Hs; [| discriminate]; injection HS as <- <-
  end.
  unfold send_ok in Hs. rewrite !andb_true_iff in Hs. destruct Hs as [[[Ha _] Hr] _].
  apply negb_true_iff in H1, H2. apply bool_decide_eq_false in H1.
  apply bool_decide_eq_true in H6.
  repeat split; auto; try lia.
  unfold after_claim, after_send, set_allDrops, set_globals, set_claimedMap, set_account,
    maintainerPortion, feeSinkPortion. simpl.
  rewrite <-!app_assoc. reflexivity.
Qed.

(** ** Creation *)

Lemma createDrop_Ok ctx pay assetTxn cfg st id st' :
  createDrop ctx pay assetTxn cfg st = Ok (id, st') ->
  (axfer_assetReceiver assetTxn = appAddress ctx /\
   0 < axfer_assetAmount assetTxn /\
   axfer_xferAsset assetTxn = Token cfg /\
   isOptedInToAsset ctx st (appAddress ctx) (Token cfg) = true /\
   AmountPerClaim cfg <= axfer_assetAmount assetTxn /\
   AmountPerClaim cfg <> 0 /\
   axfer_assetAmount assetTxn mod AmountPerClaim cfg = 0 /\
   latestTimestamp ctx + 86400 < AirdropEndTime cfg /\
   AirdropEndTime cfg <= latestTimestamp ctx + 3600 + 86400 * 7 /\
   pay_receiver pay = appAddress ctx) /\
  exists st0,
    supersede ctx cfg st st0 /\
    checkGatingInfo ctx cfg st0 = Ok (tt, st0) /\
    createCost st0 <= pay_amount pay /\
    id = lastDropId st0 + 1 /\ id <= MAX_UINT64 /\
    st' = after_install ctx pay assetTxn cfg st0.
Proof.
  intros H. unfold createDrop, verifyAssetTransferTxn, addNewDrop, getDropCreateCost in H.
  inv_run H.
  match goal with HG : checkGatingInfo _ _ _ = Ok (?u, _) |- _ =>
    pose proof (check_checkGatingInfo _ _ _ _ _ HG) as ->; destruct u end.
  simpl in *.
  match goal with HW : when _ _ _ = Ok _ |- _ => apply when_Ok in HW as [[Hx Hw] | [Hx ->]] end.
  all: try (inv_run Hw; simpl in * ).
  all: (split;
    [ apply bool_decide_eq_true in R; repeat split; auto; try lia;
      replace (Token cfg) with (axfer_xferAsset assetTxn) by lia; assumption |]).
  all: exists s; split;
         [ unfold supersede; destruct (dropForToken st !! Token cfg) as [old|];
           [ inv_run R12; eexists; repeat split; eauto;
             match goal with HC : cleanupDrop _ _ _ = Ok (?u, _) |- _ => destruct u; exact HC end
           | now apply ret_Ok in R12 as [_ ->] ]
         | clear R12 ].
  all: repeat split; auto; try (unfold createCost; lia).
  all: unfold after_install, excessTxns, createCost, newDrop, set_account, set_dropForToken,
         set_allDrops, set_globals; simpl; rewrite Hx; simpl.
  all: rewrite <-?app_assoc, ?app_nil_r; reflexivity.
Qed.

(** * The invariant holds in every reachable state *)

Lemma drop_ok_remaining st id d : drop_ok st id d -> 0 <= AmountRemaining d.
Proof. intros []. nia. Qed.

Lemma Inv_same_token st id1 id2 d1 d2 :
  Inv st -> allDrops st !! id1 = Some d1 -> allDrops st !! id2 = Some d2 ->
  Token (Config d1) = Token (Config d2) -> id1 = id2.
Proof.
  intros HI H1 H2 Ht.
  pose proof (ok_index _ _ _ (inv_drops _ HI _ _ H1)) as E1.
  pose proof (ok_index _ _ _ (inv_drops _ HI _ _ H2)) as E2.
  rewrite Ht in E1. congruence.
Qed.

Lemma Inv_create nfdRegistryId maintainer : Inv (createApplication nfdRegistryId maintainer).
Proof.
  split; simpl; try done; repeat split; try reflexivity; unfold MAX_UINT64; lia.
Qed.

Lemma Inv_bump amount st : Inv st -> Inv (bump amount st).
Proof. intros [H1 H2 H3 H4 H5]. split; auto. intros id d Hd. destruct (H1 id d Hd). split; auto. Qed.

Lemma Inv_emit algo tx st : Inv st -> Inv (set_account algo (appAssets st) tx st).
Proof. intros [H1 H2 H3 H4 H5]. split; auto. intros id d Hd. destruct (H1 id d Hd). split; auto. Qed.

Lemma Inv_credit_asset a bal amount st :
  Inv st -> appAssets st !! a = Some bal -> 0 <= amount ->
  Inv (set_assets (insert a (bal + amount)) st).
Proof.
  intros [H1 H2 H3 H4 H5] Hb Ha. split; auto; simpl.
  - intros id d Hd. destruct (H1 id d Hd) as [? ? ? ? ? ? ? (b & E & Hle)]. split; auto. simpl.
    destruct (decide (Token (Config d) = a)) as [<- | Hne].
    + rewrite lookup_insert_eq. eexists; split; [done |]. rewrite E in Hb. injection Hb as <-. lia.
    + rewrite lookup_insert_ne by done. eauto.
  - intros a' b'. destruct (decide (a' = a)) as [-> | Hne].
    + rewrite lookup_insert_eq. intros [= <-]. apply H4 in Hb. lia.
    + rewrite lookup_insert_ne by done. apply H4.
Qed.

Lemma Inv_optin a algo tx st :
  Inv st -> appAssets st !! a = None ->
  Inv (set_account algo (<[a := 0]> (appAssets st)) tx st).
Proof.
  intros [H1 H2 H3 H4 H5] Hb. split; auto; simpl.
  - intros id d Hd. destruct (H1 id d Hd) as [? ? ? ? ? ? ? (b & E & Hle)]. split; auto. simpl.
    rewrite lookup_insert_ne by congruence. eauto.
  - intros a' b'. destruct (decide (a' = a)) as [-> | Hne].
    + rewrite lookup_insert_eq. intros [= <-]. lia.
    + rewrite lookup_insert_ne by done. apply H4.
Qed.

Lemma Inv_globals maint cfee pfee claims st :
  Inv st -> cfee mod 2 = 0 -> 2000000 < cfee <= MAX_UINT64 ->
  2 * perClaimerMbr <= pfee <= MAX_UINT64 ->
  Inv (set_globals maint cfee pfee claims (lastDropId st) st).
Proof.
  intros [H1 H2 H3 H4 H5] ? ? ?. split; auto.
  intros id d Hd. destruct (H1 id d Hd). split; auto.
Qed.

Lemma Inv_teardown ctx id d bal st :
  Inv st -> allDrops st !! id = Some d -> appAssets st !! Token (Config d) = Some bal ->
  Inv (after_teardown ctx id d bal st).
Proof.
  intros HI Hd Hb. pose proof HI as [H1 H2 H3 H4 H5].
  pose proof (H1 _ _ Hd) as Hok. pose proof (drop_ok_remaining _ _ _ Hok) as Hrem.
  destruct Hok as [? ? ? ? ? ? Hix (b & E & Hle)].
  rewrite Hb in E. injection E as <-.
  split; simpl; auto.
  - intros id2 d2 Hd2. apply lookup_delete_Some in Hd2 as [Hne Hd2].
    assert (Token (Config d2) <> Token (Config d)) as Htok.
    { intros Ht. apply Hne. eapply Inv_same_token; eauto. }
    destruct (H1 _ _ Hd2) as [? ? ? ? ? ? ? (b2 & E2 & Hle2)]. split; auto; simpl.
    + now rewrite lookup_delete_ne.
    + exists b2. split; [| done].
      destruct (_ =? 0); [rewrite lookup_delete_ne | rewrite lookup_insert_ne]; auto.
  - intros tok id2 Ht. apply lookup_delete_Some in Ht as [Hne Ht].
    destruct (H2 _ _ Ht) as (d2 & Hd2 & Htok). exists d2. split; [| done].
    rewrite lookup_delete_ne; [done |]. intros <-. rewrite Hd in Hd2. congruence.
  - intros a b. destruct (teardownLeft ctx d bal =? 0) eqn:El.
    + intros Hl. apply lookup_delete_Some in Hl as [_ Hl]. eauto.
    + destruct (decide (a = Token (Config d))) as [-> | Hne].
      * rewrite lookup_insert_eq. intros [= <-]. unfold teardownLeft.
        apply H4 in Hb. repeat case_match; lia.
      * rewrite lookup_insert_ne by done. apply H4.
Qed.

Lemma Inv_ext st st' :
  Inv st ->
  allDrops st' = allDrops st -> dropForToken st' = dropForToken st ->
  lastDropId st' = lastDropId st -> appAssets st' = appAssets st ->
  creationFeeAmount st' = creationFeeAmount st ->
  perClaimFeeAmount st' = perClaimFeeAmount st ->
  Inv st'.
Proof.
  intros [H1 H2 H3 H4 H5] E1 E2 E3 E4 E5 E6.
  split; rewrite ?E1, ?E2, ?E3, ?E4, ?E5, ?E6; auto.
  intros id d Hd. destruct (H1 id d Hd). split; rewrite ?E2, ?E3, ?E4; auto.
Qed.

Lemma Inv_claim ctx id d bal st :
  Inv st -> allDrops st !! id = Some d -> appAssets st !! Token (Config d) = Some bal ->
  AmountPerClaim (Config d) <= AmountRemaining d ->
  AmountPerClaim (Config d) <= bal ->
  Inv (after_claim ctx id d bal st).
Proof.
  intros HI Hd Hb Hr Ha. pose proof HI as [H1 H2 H3 H4 H5].
  pose proof (H1 _ _ Hd) as [Hid ? Hapc ? ? Hacc Hix (b & E & Hle)].
  rewrite Hb in E. injection E as <-.
  split; simpl; auto.
  - intros id2 d2 Hd2. destruct (decide (id2 = id)) as [-> | Hne].
    + rewrite lookup_insert_eq in Hd2. injection Hd2 as <-.
      split; simpl; auto; try nia.
      rewrite lookup_insert_eq. eexists. split; [done |]. case_decide; lia.
    + rewrite lookup_insert_ne in Hd2 by done.
      assert (Token (Config d2) <> Token (Config d)) as Htok.
      { intros Ht. apply Hne. eapply Inv_same_token; eauto. }
      destruct (H1 _ _ Hd2) as [? ? ? ? ? ? ? (b2 & E2 & Hle2)]. split; auto; simpl.
      rewrite lookup_insert_ne by done. eauto.
  - intros tok id2 Ht. destruct (H2 _ _ Ht) as (d2 & Hd2 & Htok).
    destruct (decide (id2 = id)) as [-> | Hne].
    + rewrite lookup_insert_eq. eexists. split; [done |]. simpl. congruence.
    + rewrite lookup_insert_ne by done. eauto.
  - intros a b. destruct (decide (a = Token (Config d))) as [-> | Hne].
    + rewrite lookup_insert_eq. intros [= <-]. apply H4 in Hb. case_decide; lia.
    + rewrite lookup_insert_ne by done. apply H4.
Qed.

Lemma Inv_install ctx pay assetTxn cfg bal st :
  Inv st -> dropForToken st !! Token cfg = None ->
  appAssets st !! Token cfg = Some bal -> axfer_assetAmount assetTxn <= bal ->
  0 < AmountPerClaim cfg -> axfer_assetAmount assetTxn mod AmountPerClaim cfg = 0 ->
  0 < axfer_assetAmount assetTxn <= MAX_UINT64 ->
  Inv (after_install ctx pay assetTxn cfg st).
Proof.
  intros HI Hnone Hb Hle Hapc Hmod Hamt. pose proof HI as [H1 H2 H3 H4 H5].
  assert (Hfresh : allDrops st !! (lastDropId st + 1) = None).
  { destruct (allDrops st !! (lastDropId st + 1)) as [d|] eqn:E; [| done].
    destruct (H1 _ _ E). lia. }
  split; simpl; auto; try lia.
  - intros id2 d2 Hd2. destruct (decide (id2 = lastDropId st + 1)) as [-> | Hne].
    + rewrite lookup_insert_eq in Hd2. injection Hd2 as <-.
      split; simpl; auto; try lia.
      * split; [lia |]. apply Z.div_pos; lia.
      * apply Z.div_le_upper_bound; nia.
      * rewrite Z.sub_0_r. rewrite Z.mul_comm. apply Z.div_exact; lia.
      * apply lookup_insert_eq.
      * eauto.
    + rewrite lookup_insert_ne in Hd2 by done.
      destruct (H1 _ _ Hd2) as [? ? ? ? ? ? Hix ?]. split; auto; simpl; try lia.
      rewrite lookup_insert_ne; [done |]. intros Ht. rewrite <-Ht in Hix. congruence.
  - intros tok id2. destruct (decide (tok = Token cfg)) as [-> | Hne].
    + rewrite lookup_insert_eq. intros [= <-]. rewrite lookup_insert_eq. eauto.
    + rewrite lookup_insert_ne by done. intros Ht. destruct (H2 _ _ Ht) as (d2 & Hd2 & Htok).
      exists d2. split; [| done]. rewrite lookup_insert_ne; [done |].
      intros <-. congruence.
Qed.

(** ** Successful calls under the invariant *)

Lemma receivePayTxn_eq ctx p st : receivePayTxn ctx p st = Ok (tt, credited ctx p st).
Proof. unfold receivePayTxn, credited. now destruct (bool_decide _). Qed.

Lemma Inv_credited ctx p st : Inv st -> Inv (credited ctx p st).
Proof. unfold credited. destruct (bool_decide _); [apply Inv_bump | auto]. Qed.

Lemma receiveAssetTransferTxn_Ok ctx a st u st' :
  receiveAssetTransferTxn ctx a st = Ok (u, st') ->
  (axfer_assetReceiver a <> appAddress ctx /\ st' = st) \/
  (axfer_assetReceiver a = appAddress ctx /\
   exists bal, appAssets st !! axfer_xferAsset a = Some bal /\
               st' = set_assets (insert (axfer_xferAsset a) (bal + axfer_assetAmount a)) st).
Proof.
  unfold receiveAssetTransferTxn. intros H. apply when_Ok in H as [[Hr H] | [Hr ->]].
  - right. apply bool_decide_eq_true in Hr. split; [done |].
    apply bind_Ok in H as (h & s & H1 & H). apply gets_Ok in H1 as [-> ->].
    destruct (appAssets st !! axfer_xferAsset a) as [bal|]; [| discriminate].
    apply modify_Ok in H. eauto.
  - left. now apply bool_decide_eq_false in Hr.
Qed.

Lemma cleanupDrop_Inv ctx id st u st' :
  Inv st -> cleanupDrop ctx id st = Ok (u, st') ->
  exists d bal,
    allDrops st !! id = Some d /\ appAssets st !! Token (Config d) = Some bal /\
    cleanup_ok ctx d bal st = true /\ st' = after_teardown ctx id d bal st.
Proof.
  intros HI H. pose proof H as H0. unfold cleanupDrop in H0.
  apply bind_Ok in H0 as (d & s & Hd & _). apply readDrop_Ok in Hd as [Hd _].
  destruct (inv_drops _ HI _ _ Hd) as [Hid _ _ _ _ _ Hix (bal & Hb & _)].
  destruct (cleanupDrop_eq ctx id d bal st id Hd Hid Hix Hb) as [e He].
  rewrite He in H. destruct (cleanup_ok ctx d bal st) eqn:Hok; [| discriminate].
  injection H as <- <-. eauto 10.
Qed.

Lemma claimDrop_Inv ctx pay id v st u st' :
  Inv st -> claimDrop ctx pay id v st = Ok (u, st') ->
  exists d bal,
    allDrops st !! id = Some d /\ appAssets st !! Token (Config d) = Some bal /\
    AmountPerClaim (Config d) <= AmountRemaining d /\ AmountPerClaim (Config d) <= bal /\
    st' = after_claim ctx id d bal st.
Proof.
  intros HI H. pose proof H as H0. unfold claimDrop in H0.
  apply bind_Ok in H0 as (d & s & Hd & _). apply readDrop_Ok in Hd as [Hd _].
  destruct (inv_drops _ HI _ _ Hd) as [Hid _ _ _ _ _ Hix (bal & Hb & _)].
  apply (claimDrop_Ok _ _ _ _ _ _ _ _ _ Hd Hid Hb) in H.
  exists d, bal. intuition.
Qed.

Lemma sendAssetTransfer_optin_Ok ctx a note st u st' :
  appAssets st !! a = None ->
  sendAssetTransfer ctx a (appAddress ctx) 0 None note st = Ok (u, st') ->
  st' = set_account (appAlgo st) (<[a := 0]> (appAssets st))
          [ItxnAxfer a (appAddress ctx) 0 None note] st.
Proof.
  intros Hn. unfold sendAssetTransfer. rewrite Hn. rewrite decide_True by done. simpl.
  case_match; [now intros [= <-] | discriminate].
Qed.

Lemma createDropGroup_Inv ctx pay assetTxn cfg st id st' :
  Inv st -> uint64 (axfer_assetAmount assetTxn) -> uint64 (AmountPerClaim cfg) ->
  createDropGroup ctx pay assetTxn cfg st = Ok (id, st') ->
  Inv st'.
Proof.
  intros HI [Hamt0 Hamt1] [Hapc0 Hapc1] H. unfold createDropGroup in H.
  apply bind_Ok in H as (? & s1 & H1 & H). rewrite receivePayTxn_eq in H1.
  injection H1 as E1. subst s1.
  apply bind_Ok in H as (? & s2 & H2 & H).
  apply createDrop_Ok in H as (Hc & st0 & Hsup & _ & _ & -> & _ & ->).
  destruct Hc as (Hrecv & Hpos & Hasset & Hopt & Hle & Hne & Hmod & _).
  apply receiveAssetTransferTxn_Ok in H2 as [[Habs _] | [_ (bal0 & Hb0 & ->)]]; [done |].
  rewrite Hasset in Hb0.
  pose proof (Inv_credited ctx pay _ HI) as HI1.
  assert (Hb0' : appAssets (credited ctx pay st) !! Token cfg = Some bal0) by exact Hb0.
  pose proof (inv_assets _ HI1 _ _ Hb0') as Hbal0.
  pose proof (Inv_credit_asset _ _ _ _ HI1 Hb0' Hamt0) as HI2.
  rewrite Hasset in *.
  set (s2 := set_assets _ _) in *.
  assert (Hb2 : appAssets s2 !! Token cfg = Some (bal0 + axfer_assetAmount assetTxn)).
  { unfold s2. simpl. apply lookup_insert_eq. }
  unfold supersede in Hsup.
  destruct (dropForToken s2 !! Token cfg) as [old|] eqn:Hix.
  - destruct Hsup as (dOld & HdOld & Hexp & Hcl).
    apply (cleanupDrop_Inv _ _ _ _ _ HI2) in Hcl as (d' & bal & Hd' & Hb' & _ & ->).
    rewrite HdOld in Hd'. injection Hd' as <-.
    destruct (inv_index _ HI2 _ _ Hix) as (d'' & Hd'' & Htok).
    rewrite HdOld in Hd''. injection Hd'' as <-.
    rewrite Htok in Hb'. rewrite Hb2 in Hb'. injection Hb' as <-.
    (* what the old drop still held was covered before the new tokens arrived *)
    assert (Hold : AmountRemaining dOld <= bal0).
    { assert (HdS : allDrops (credited ctx pay st) !! old = Some dOld) by exact HdOld.
      destruct (inv_drops _ HI1 _ _ HdS) as [_ _ _ _ _ _ _ (b & Hb & Hle')].
      rewrite Htok in Hb. rewrite Hb0' in Hb. injection Hb as <-. done. }
    assert (Hleft : axfer_assetAmount assetTxn
                    <= teardownLeft ctx dOld (bal0 + axfer_assetAmount assetTxn)).
    { unfold teardownLeft. repeat case_match; lia. }
    eapply Inv_install with (bal := teardownLeft ctx dOld (bal0 + axfer_assetAmount assetTxn));
      try done; try lia.
    + eapply Inv_teardown; eauto. now rewrite Htok.
    + simpl. rewrite Htok. apply lookup_delete_eq.
    + simpl. rewrite Htok.
      destruct (_ =? 0) eqn:E; [lia |]. apply lookup_insert_eq.
  - subst st0. eapply Inv_install; eauto; lia.
Qed.

Lemma exec_Inv ctx c st st' :
  Inv st -> wf_call c -> exec ctx c st = Ok (tt, st') -> Inv st'.
Proof.
  intros HI Hwf H. destruct c; simpl in H, Hwf.
  - (* updateApplication *)
    unfold updateApplication in H. now apply assert_Ok in H as [_ ->].
  - (* changeMaintainer *)
    unfold changeMaintainer in H. inv_run H.
    destruct HI as [H1 H2 H3 H4 H5]. split; auto.
    intros id d Hd. destruct (H1 id d Hd). split; auto.
  - (* changeFees *)
    unfold changeFees, getPerClaimerMbrCost in H. fold perClaimerMbr in H. inv_run H.
    destruct Hwf as [[? ?] [? ?]].
    apply Inv_globals; auto; lia.
  - (* optinAsset *)
    unfold optinAssetGroup in H. apply bind_Ok in H as (? & s1 & H1 & H).
    rewrite receivePayTxn_eq in H1. injection H1 as E1. subst s1.
    pose proof (Inv_credited ctx mbrPayment _ HI) as HI1.
    unfold optinAsset in H. apply bind_Ok in H as (? & s2 & H2 & H).
    apply check_verifyPayTxn in H2 as ->.
    apply bind_Ok in H as (o & s3 & H3 & H). apply gets_Ok in H3 as [-> ->].
    destruct (isOptedInToAsset _ _ _ _) eqn:Ho.
    + apply sendPayment_Ok in H as [_ ->]. now apply Inv_emit.
    + unfold isOptedInToAsset in Ho. rewrite decide_True in Ho by done.
      apply bool_decide_eq_false in Ho.
      assert (Hn : appAssets (credited ctx mbrPayment st) !! assetId = None).
      { destruct (appAssets _ !! assetId); [exfalso; eauto | done]. }
      apply (sendAssetTransfer_optin_Ok _ _ _ _ _ _ Hn) in H as ->.
      now apply Inv_optin.
  - (* createDrop *)
    apply bind_Ok in H as (id & s1 & H1 & H). apply ret_Ok in H as [_ ->].
    destruct Hwf as (_ & ? & ?). eapply createDropGroup_Inv; eauto.
  - (* cancelDrop *)
    unfold cancelDrop in H. apply bind_Ok in H as (d & s1 & H1 & H).
    apply readDrop_Ok in H1 as [_ ->].
    apply bind_Ok in H as (? & s2 & H2 & H). apply assert_Ok in H2 as [_ ->].
    apply (cleanupDrop_Inv _ _ _ _ _ HI) in H as (d' & bal & Hd & Hb & _ & ->).
    eapply Inv_teardown; eauto.
  - (* claimDrop *)
    unfold claimDropGroup in H. apply bind_Ok in H as (? & s1 & H1 & H).
    rewrite receivePayTxn_eq in H1. injection H1 as E1. subst s1.
    pose proof (Inv_credited ctx feeAndMbrPayment _ HI) as HI1.
    apply (claimDrop_Inv _ _ _ _ _ _ _ HI1) in H as (d & bal & Hd & Hb & ? & ? & ->).
    eapply Inv_claim; eauto.
  - (* claimClaimerBoxCost *)
    unfold claimClaimerBoxCost in H. inv_run H.
    eapply Inv_ext; eauto.
  - (* cleanupDrop *)
    apply (cleanupDrop_Inv _ _ _ _ _ HI) in H as (d' & bal & Hd & Hb & _ & ->).
    eapply Inv_teardown; eauto.
  - (* a payment to the account *)
    rewrite receivePayTxn_eq in H. injection H as <-. now apply Inv_credited.
  - (* an asset transfer to the account *)
    apply receiveAssetTransferTxn_Ok in H as [[_ ->] | [_ (bal & Hb & ->)]]; [done |].
    destruct Hwf. now apply Inv_credit_asset.
Qed.

Theorem reachable_Inv self st : reachable self st -> Inv st.
Proof.
  induction 1 as [| st ctx c st' _ IH _ Hwf Hex].
  - apply Inv_create.
  - eapply exec_Inv; eauto.
Qed.

(** ** A larger balance never makes a call fail *)

Section Mono.
Variable extra : Z.
Hypothesis extra_nonneg : 0 <= extra.

Lemma mono_bind {A B} (m : M A) (f : A -> M B) :
  mono extra m -> (forall a, mono extra (f a)) -> mono extra (bind m f).
Proof.
  intros Hm Hf st b st' H. apply bind_Ok in H as (a & s & H1 & H2).
  rewrite (bind_run _ _ _ _ _ (Hm _ _ _ H1)). now apply Hf.
Qed.

Lemma mono_ret {A} (a : A) : mono extra (ret a).
Proof. intros st b st' H. apply ret_Ok in H as [-> ->]. reflexivity. Qed.

Lemma mono_fail {A} e : mono extra (@fail A e).
Proof. intros st b st' H. discriminate. Qed.

Lemma mono_gets {A} (g : State -> A) :
  (forall st, g (bump extra st) = g st) -> mono extra (gets g).
Proof. intros Hg st b st' H. apply gets_Ok in H as [-> ->]. unfold gets. now rewrite Hg. Qed.

Lemma mono_modify f :
  (forall st, f (bump extra st) = bump extra (f st)) -> mono extra (modify f).
Proof. intros Hf st b st' H. apply modify_Ok in H as ->. destruct b. unfold modify. now rewrite Hf. Qed.

Lemma mono_assert c msg : mono extra (assert c msg).
Proof. intros st b st' H. apply assert_Ok in H as [-> ->]. now destruct b. Qed.

Lemma mono_when b m : mono extra m -> mono extra (when b m).
Proof. intros Hm. destruct b; [exact Hm | apply mono_ret]. Qed.

Lemma mono_add64 a b : mono extra (add64 a b).
Proof. intros st r st' H. apply add64_Ok in H as (-> & ? & ->). now apply add64_run. Qed.

Lemma mono_sub64 a b : mono extra (sub64 a b).
Proof. intros st r st' H. apply sub64_Ok in H as (-> & ? & ->). now apply sub64_run. Qed.

Lemma mono_mul64 a b : mono extra (mul64 a b).
Proof. intros st r st' H. apply mul64_Ok in H as (-> & ? & ->). now apply mul64_run. Qed.

Lemma mono_div64 a b : mono extra (div64 a b).
Proof. intros st r st' H. apply div64_Ok in H as (-> & ? & ->). now apply div64_run. Qed.

Lemma mono_mod64 a b : mono extra (mod64 a b).
Proof. intros st r st' H. apply mod64_Ok in H as (-> & ? & ->). now apply mod64_run. Qed.

Lemma mono_readDrop id : mono extra (readDrop id).
Proof. intros st d st' H. apply readDrop_Ok in H as [H ->]. now apply readDrop_run. Qed.

Lemma mono_updateDrop id f : mono extra (updateDrop id f).
Proof.
  intros st u st' H. apply updateDrop_Ok in H as (d & H & ->). destruct u.
  now rewrite (updateDrop_run id f (bump extra st) d H).
Qed.

Lemma mono_sendPayment ctx receiver amount note : mono extra (sendPayment ctx receiver amount note).
Proof.
  intros st u st' H. apply sendPayment_Ok in H. cbv zeta in H. destruct H as [Hle ->].
  destruct u. rewrite sendPayment_run.
  - f_equal. f_equal. unfold set_account, bump. simpl. f_equal. case_decide; lia.
  - simpl. change (minBalance (bump extra st)) with (minBalance st). case_decide; lia.
Qed.

Lemma mono_sendAssetTransfer ctx a r amt c note : mono extra (sendAssetTransfer ctx a r amt c note).
Proof.
  intros st u st'. unfold sendAssetTransfer.
  change (appAssets (bump extra st)) with (appAssets st).
  change (isOptedInToAsset ctx (bump extra st) r a) with (isOptedInToAsset ctx st r a).
  destruct (appAssets st !! a) as [bal|].
  - repeat case_match; try discriminate; intros [= <- <-]; reflexivity.
  - repeat case_match; try discriminate; intros [= <- <-]; try reflexivity.
    all: exfalso.
    all: match goal with
         | H1 : (minBalance ?s1 <=? appAlgo ?s1) = true,
           H2 : (minBalance ?s2 <=? appAlgo ?s2) = false |- _ =>
             change (minBalance s2) with (minBalance s1) in H2;
             change (appAlgo s2) with (appAlgo s1 + extra) in H2; lia
         end.
Qed.

Lemma mono_verifyPayTxn p r s a : mono extra (verifyPayTxn p r s a).
Proof.
  intros st u st' H. apply verifyPayTxn_Ok in H as (? & ? & ? & ->). destruct u.
  now apply verifyPayTxn_run.
Qed.

End Mono.

Create HintDb monos.
#[export] Hint Resolve mono_ret mono_fail mono_assert mono_add64 mono_sub64 mono_mul64 mono_div64
  mono_mod64 mono_readDrop mono_updateDrop mono_sendPayment mono_sendAssetTransfer
  mono_verifyPayTxn : monos.

Lemma mono_option extra {A B} (o : option A) (f : A -> M B) (g : M B) :
  (forall x, mono extra (f x)) -> mono extra g ->
  mono extra (match o with Some x => f x | None => g end).
Proof. intros Hf Hg. destruct o; auto. Qed.

Ltac mono_tac :=
  repeat first
    [ apply mono_bind; [| intros ?]
    | apply mono_when
    | apply mono_option; [intros ? |]
    | apply mono_gets; reflexivity
    | apply mono_modify; reflexivity
    | solve [auto with monos] ].

Lemma mono_sendTokensFromDrop extra ctx d r amt :
  0 <= extra -> mono extra (sendTokensFromDrop ctx d r amt).
Proof. intros. unfold sendTokensFromDrop. mono_tac. Qed.
#[export] Hint Resolve mono_sendTokensFromDrop : monos.

Lemma mono_cleanupDrop extra ctx id : 0 <= extra -> mono extra (cleanupDrop ctx id).
Proof.
  intros. unfold cleanupDrop, refundDropCreatorRemainingTokens, removeFromDrops. mono_tac.
Qed.
#[export] Hint Resolve mono_cleanupDrop : monos.

Lemma mono_checkGatingInfo extra ctx cfg : 0 <= extra -> mono extra (checkGatingInfo ctx cfg).
Proof. intros. unfold checkGatingInfo, isNfdAppIdValid. mono_tac. Qed.
#[export] Hint Resolve mono_checkGatingInfo : monos.

Lemma mono_receiveAssetTransferTxn extra ctx a :
  0 <= extra -> mono extra (receiveAssetTransferTxn ctx a).
Proof.
  intros. unfold receiveAssetTransferTxn. mono_tac.
Qed.

Lemma sim_bind extra {A B} (m : M A) (f f' : A -> M B) Q :
  mono extra m -> (forall a, sim extra (f a) (f' a) Q) -> sim extra (bind m f) (bind m f') Q.
Proof.
  intros Hm Hf st r H. apply bind_Ok in H as (a & s & H1 & H2).
  rewrite (bind_run _ _ _ _ _ (Hm _ _ _ H1)). now apply Hf.
Qed.

Lemma getDropCreateCost_run st :
  createCost st <= MAX_UINT64 -> getDropCreateCost st = Ok (createCost st, st).
Proof.
  intros H. unfold getDropCreateCost, createCost in *.
  assert (0 <= costForBoxStorage (3 + len_uint64 + len_uint64)) by (vm_compute; discriminate).
  erewrite bind_run; [| reflexivity].
  erewrite bind_run; [| apply add64_run; lia].
  erewrite bind_run; [| apply add64_run; lia].
  reflexivity.
Qed.

Lemma getDropCreateCost_Ok st c st' :
  getDropCreateCost st = Ok (c, st') -> c = createCost st /\ c <= MAX_UINT64 /\ st' = st.
Proof. unfold getDropCreateCost, createCost. intros H. inv_run H. auto. Qed.

Lemma createDrop_overpay ctx s r a extra assetTxn cfg st id st1 :
  0 < extra -> s <> appAddress ctx ->
  createDrop ctx (mkPay s r a) assetTxn cfg st = Ok (id, st1) ->
  0 <= creationFeeAmount st1 ->
  exists l p1 p2,
    itxns st1 = l ++ excessTxns (mkPay s r a) st1 ++ [p1; p2] /\
    createDrop ctx (mkPay s r (a + extra)) assetTxn cfg (bump extra st)
    = Ok (id, set_itxns (l ++ [ItxnPay s (a + extra - createCost st1) "excess mbr refund";
                               p1; p2]) st1).
Proof.
  intros Hextra Hs H Hfee.
  assert (Hsim : sim extra (createDrop ctx (mkPay s r a) assetTxn cfg)
                   (createDrop ctx (mkPay s r (a + extra)) assetTxn cfg)
                   (fun r1 res2 =>
                      0 <= creationFeeAmount r1.2 ->
                      exists l p1 p2,
                        itxns r1.2 = l ++ excessTxns (mkPay s r a) r1.2 ++ [p1; p2] /\
                        res2 = Ok (r1.1, set_itxns (l ++ [ItxnPay s (a + extra - createCost r1.2)
                                                              "excess mbr refund"; p1; p2]) r1.2))).
  { unfold createDrop, verifyAssetTransferTxn, addNewDrop.
    assert (He : 0 <= extra) by lia.
    repeat (lazymatch goal with
            | |- sim _ (bind getDropCreateCost _) _ _ => fail
            | _ => idtac
            end; apply sim_bind; [solve [mono_tac] | intros ?]).
    clear - Hextra Hs. intros st [id st1] Hrun.
    apply bind_Ok in Hrun as (c & s1 & Hc & Hrun).
    apply getDropCreateCost_Ok in Hc as (-> & Hmax & ->).
    inv_run Hrun. simpl in *. intros Hfee.
    rewrite (bind_run _ _ _ _ _ (getDropCreateCost_run (bump extra st) Hmax)).
    change (createCost (bump extra st)) with (createCost st).
    erewrite bind_run; [| apply assert_true; lia].
    assert (Hlt : (createCost st <? a + extra) = true) by lia.
    rewrite Hlt. unfold when at 1.
    assert (Hhalf : 0 <= creationFeeAmount s0 `div` 2) by (apply Z.div_pos; lia).
    exists (itxns st), (ItxnPay (maintainerAddress s0) (creationFeeAmount s0 `div` 2)
                                "TokenDrop fee"),
      (ItxnPay (feeSink ctx) (creationFeeAmount s0 `div` 2) "TokenDrop fee").
    apply when_Ok in R0 as [[Hx R0] | [Hx ->]]; [inv_run R0 |].
    all: unfold excessTxns, createCost in *; simpl in *.
    all: set (cost := creationFeeAmount st + _ + _) in *.
    all: rewrite Hx; rewrite ?decide_False in * by done.
    all: (split; [now rewrite <-?app_assoc |]).
    all: erewrite bind_run;
           [| erewrite bind_run; [| apply sub64_run; lia]; apply sendPayment_run;
              cbv zeta; rewrite decide_False by done; simpl;
              change (minBalance (bump extra st)) with (minBalance st);
              repeat case_decide; lia].
    all: rewrite decide_False by done.
    all: erewrite bind_run; [| reflexivity].
    all: erewrite bind_run; [| reflexivity].
    all: erewrite bind_run; [| now apply div64_run].
    all: erewrite bind_run;
           [| apply sendPayment_run; cbv zeta; unfold minBalance in *; simpl in *;
              repeat case_decide; lia].
    all: erewrite bind_run; [| reflexivity].
    all: erewrite bind_run; [| now apply div64_run].
    all: erewrite bind_run;
           [| apply sendPayment_run; cbv zeta; unfold minBalance in *; simpl in *;
              repeat case_decide; lia].
    all: unfold ret, set_itxns, set_account, bump; simpl.
    all: f_equal; f_equal; f_equal; [repeat case_decide; lia | now rewrite <-?app_assoc]. }
  destruct (Hsim st (id, st1) H Hfee) as (l & p1 & p2 & E1 & E2).
  exists l, p1, p2. split; [exact E1 | exact E2].
Qed.

(** * Runs of the scenario *)

Lemma demo_ready_run :
  exec (demo_ctx CREATOR 5000) (Deposit (mkPay CREATOR APP 100000)) (createApplication 1 MAINTAINER)
  = Ok (tt, bump 100000 (createApplication 1 MAINTAINER)) /\
  exec (demo_ctx CREATOR 5000) (OptinAsset (mkPay CREATOR APP 100000) TOKEN)
       (bump 100000 (createApplication 1 MAINTAINER))
  = Ok (tt, demo_ready).
Proof. split; vm_compute; reflexivity. Qed.

Lemma demo_created_run :
  createDropGroup (demo_ctx CREATOR 5000) (mkPay CREATOR APP 10080600)
                  (mkAxfer CREATOR APP TOKEN 4000) (demo_config 1000) demo_ready
  = Ok (1, demo_created).
Proof. vm_compute. reflexivity. Qed.

Lemma reachable_demo_ready : reachable APP demo_ready.
Proof.
  destruct demo_ready_run as [H1 H2].
  refine (reach_step APP _ (demo_ctx CREATOR 5000)
            (OptinAsset (mkPay CREATOR APP 100000) TOKEN) _ _ eq_refl _ H2).
  - refine (reach_step APP _ (demo_ctx CREATOR 5000) (Deposit (mkPay CREATOR APP 100000)) _
              (reach_create APP 1 MAINTAINER) eq_refl _ H1).
    vm_compute. intuition discriminate.
  - vm_compute. intuition discriminate.
Qed.

Lemma reachable_demo_created : reachable APP demo_created.
Proof.
  refine (reach_step APP _ (demo_ctx CREATOR 5000)
            (CreateDrop (mkPay CREATOR APP 10080600) (mkAxfer CREATOR APP TOKEN 4000)
                        (demo_config 1000)) demo_created reachable_demo_ready eq_refl _ _).
  - vm_compute. intuition discriminate.
  - vm_compute. reflexivity.
Qed.

Lemma demo_claimed_run :
  claimDropGroup (demo_ctx ALICE 6000) (mkPay ALICE APP 100000) 1 0 demo_created
  = Ok (tt, demo_claimed).
Proof. vm_compute. reflexivity. Qed.

Lemma reachable_demo_claimed : reachable APP demo_claimed.
Proof.
  refine (reach_step APP _ (demo_ctx ALICE 6000) (ClaimDrop (mkPay ALICE APP 100000) 1 0)
            demo_claimed reachable_demo_created eq_refl _ demo_claimed_run).
  vm_compute. intuition discriminate.
Qed.

Lemma demo_replaced_run :
  createDropGroup (demo_ctx CREATOR 6000) (mkPay CREATOR APP 10080600)
                  (mkAxfer CREATOR APP TOKEN 2000) (demo_config 1000) demo_exhausted
  = Ok (2, demo_replaced).
Proof. vm_compute. reflexivity. Qed.

Lemma reachable_demo_odd_fee : reachable APP demo_odd_fee.
Proof.
  refine (reach_step APP _ (demo_ctx 1 5500) (ChangeFees 10000000 100001) demo_odd_fee
            reachable_demo_created eq_refl _ _).
  - vm_compute. intuition discriminate.
  - vm_compute. reflexivity.
Qed.

Lemma reachable_demo_exhausted : reachable APP demo_exhausted.
Proof.
  refine (reach_step APP demo_single (demo_ctx ALICE 6000)
            (ClaimDrop (mkPay ALICE APP 100000) 1 0) demo_exhausted _ eq_refl _ _).
  - refine (reach_step APP _ (demo_ctx CREATOR 5000)
              (CreateDrop (mkPay CREATOR APP 10080600) (mkAxfer CREATOR APP TOKEN 1000)
                          (demo_config 1000)) demo_single reachable_demo_ready eq_refl _ _).
    + vm_compute. intuition discriminate.
    + vm_compute. reflexivity.
  - vm_compute. intuition discriminate.
  - vm_compute. reflexivity.
Qed.

(** * The specification, statement by statement *)

Lemma createDropGroup_Ok ctx pay assetTxn cfg st id st' :
  Inv st ->
  createDropGroup ctx pay assetTxn cfg st = Ok (id, st') ->
  exists bal0,
    appAssets st !! Token cfg = Some bal0 /\
    pay_receiver pay = appAddress ctx /\ axfer_assetReceiver assetTxn = appAddress ctx /\
    0 < axfer_assetAmount assetTxn /\ id = lastDropId st + 1 /\
    let stIn := set_assets (insert (Token cfg) (bal0 + axfer_assetAmount assetTxn))
                           (bump (pay_amount pay) st) in
    (receivePayTxn ctx pay;; receiveAssetTransferTxn ctx assetTxn) st = Ok (tt, stIn) /\
    match dropForToken st !! Token cfg with
    | None => st' = after_install ctx pay assetTxn cfg stIn
    | Some old =>
        exists dOld,
          allDrops st !! old = Some dOld /\ Token (Config dOld) = Token cfg /\
          isDropExpiredOrEmpty ctx dOld = true /\
          teardownLeft ctx dOld (bal0 + axfer_assetAmount assetTxn) <> 0 /\
          cleanupDrop ctx old stIn
          = Ok (tt, after_teardown ctx old dOld (bal0 + axfer_assetAmount assetTxn) stIn) /\
          st' = after_install ctx pay assetTxn cfg
                  (after_teardown ctx old dOld (bal0 + axfer_assetAmount assetTxn) stIn)
    end.
Proof.
  intros HI H. unfold createDropGroup in H.
  apply bind_Ok in H as ([] & s1 & H1 & H). rewrite receivePayTxn_eq in H1.
  injection H1 as E1. subst s1.
  apply bind_Ok in H as ([] & s2 & H2 & H).
  apply createDrop_Ok in H as (Hc & st0 & Hsup & _ & _ & -> & _ & ->).
  destruct Hc as (Hrecv & Hpos & Hasset & Hopt & Hle & Hne & Hmod & _ & _ & Hpay).
  pose proof H2 as H2'.
  apply receiveAssetTransferTxn_Ok in H2 as [[Habs _] | [_ (bal0 & Hb0 & ->)]]; [done |].
  rewrite Hasset in *.
  unfold credited in *. rewrite bool_decide_eq_true_2 in * by done.
  change (appAssets st !! Token cfg = Some bal0) in Hb0.
  set (stIn := set_assets _ _) in *.
  assert (HIin : Inv stIn).
  { apply Inv_credit_asset; [now apply Inv_bump | exact Hb0 | lia]. }
  assert (Hin : (receivePayTxn ctx pay;; receiveAssetTransferTxn ctx assetTxn) st
                = Ok (tt, stIn)).
  { erewrite bind_run; [exact H2' |]. rewrite receivePayTxn_eq. unfold credited.
    now rewrite bool_decide_eq_true_2. }
  exists bal0. do 4 (split; [done |]).
  unfold supersede in Hsup. change (dropForToken stIn) with (dropForToken st) in Hsup.
  destruct (dropForToken st !! Token cfg) as [old|] eqn:Hix.
  - destruct Hsup as (dOld & HdOld & Hexp & Hcl).
    pose proof Hcl as Hcl0.
    apply (cleanupDrop_Inv _ _ _ _ _ HIin) in Hcl0 as (d' & bal & Hd' & Hb' & _ & ->).
    change (allDrops st !! old = Some dOld) in HdOld.
    change (allDrops st !! old = Some d') in Hd'.
    rewrite HdOld in Hd'. injection Hd' as <-.
    destruct (inv_index _ HI _ _ Hix) as (d'' & Hd'' & Htok).
    rewrite HdOld in Hd''. injection Hd'' as <-.
    rewrite Htok in Hb'. unfold stIn in Hb'. simpl in Hb'. rewrite lookup_insert_eq in Hb'.
    injection Hb' as <-.
    destruct (inv_drops _ HI _ _ HdOld) as [_ _ _ _ _ _ _ (b & Hb & Hle')].
    rewrite Htok, Hb0 in Hb. injection Hb as <-.
    split; [reflexivity |]. split; [exact Hin |].
    exists dOld. repeat split; auto.
    pose proof (inv_assets _ HI _ _ Hb0).
    unfold teardownLeft. repeat case_match; lia.
  - subst st0. split; [reflexivity |]. split; [exact Hin | reflexivity].
Qed.

(** C1. Drop accounting invariant.  In every reachable state, every drop
    record of the registry satisfies
    [AmountRemaining = (MaxClaims - NumClaims) * AmountPerClaim] (with
    [NumClaims <= MaxClaims], so the subtraction is the uint64 one).
    [createDrop] establishes it: whenever it succeeds, the funded amount is
    divisible by the amount per claim and the new record has
    [MaxClaims = funded / amountPerClaim], [NumClaims = 0] and
    [AmountRemaining = funded].  Every successful [claimDrop] preserves it:
    it lowers [AmountRemaining] by [AmountPerClaim] and raises [NumClaims]
    by one, leaving [MaxClaims] and the configuration as they were. *)
Theorem C1_drop_accounting_invariant :
  (forall self st id d,
      reachable self st -> allDrops st !! id = Some d ->
      AmountRemaining d = (MaxClaims d - NumClaims d) * AmountPerClaim (Config d)
      /\ 0 <= NumClaims d <= MaxClaims d)
  /\ (forall ctx pay assetTxn cfg st id st',
        createDropGroup ctx pay assetTxn cfg st = Ok (id, st') ->
        axfer_assetAmount assetTxn mod AmountPerClaim cfg = 0 /\
        exists d, allDrops st' !! id = Some d /\
                  MaxClaims d = axfer_assetAmount assetTxn / AmountPerClaim cfg /\
                  NumClaims d = 0 /\
                  AmountRemaining d = axfer_assetAmount assetTxn /\
                  Config d = cfg)
  /\ (forall self ctx pay id v st st',
        reachable self st ->
        claimDropGroup ctx pay id v st = Ok (tt, st') ->
        exists d d', allDrops st !! id = Some d /\ allDrops st' !! id = Some d' /\
                     AmountRemaining d' = AmountRemaining d - AmountPerClaim (Config d) /\
                     NumClaims d' = NumClaims d + 1 /\
                     MaxClaims d' = MaxClaims d /\ Config d' = Config d).
Proof.
  split; [| split].
  - intros self st id d Hr Hd.
    destruct (inv_drops _ (reachable_Inv _ _ Hr) _ _ Hd). auto.
  - intros ctx pay assetTxn cfg st id st' H. unfold createDropGroup in H.
    apply bind_Ok in H as (? & s1 & _ & H). apply bind_Ok in H as (? & s2 & _ & H).
    apply createDrop_Ok in H as (Hc & st0 & _ & _ & _ & -> & _ & ->).
    split; [apply Hc |].
    eexists. split; [apply lookup_insert_eq |]. simpl. auto.
  - intros self ctx pay id v st st' Hr H. unfold claimDropGroup in H.
    apply bind_Ok in H as (? & s1 & H1 & H). rewrite receivePayTxn_eq in H1.
    injection H1 as E1. subst s1.
    apply claimDrop_Inv in H as (d & bal & Hd & _ & _ & _ & ->);
      [| apply Inv_credited, (reachable_Inv _ _ Hr)].
    exists d, (sentDrop d (AmountPerClaim (Config d))).
    split; [| split; [apply lookup_insert_eq | simpl; auto]].
    unfold credited in Hd. now destruct (bool_decide _).
Qed.

Lemma C1_witness :
  AmountRemaining demo_drop_claimed
  = (MaxClaims demo_drop_claimed - NumClaims demo_drop_claimed)
    * AmountPerClaim (Config demo_drop_claimed)
  /\ 0 <= NumClaims demo_drop_claimed <= MaxClaims demo_drop_claimed.
Proof.
  exact (proj1 C1_drop_accounting_invariant APP demo_claimed 1 demo_drop_claimed
           reachable_demo_claimed eq_refl).
Defined.



(** C4. Expiry-window validation.  [createDrop] succeeds only if the end
    time is strictly more than 86400 seconds after the current time and at
    most 3600 + 7 * 86400 seconds after it; an end time 6 hours out and an
    end time 8 days out both make it fail. *)
Theorem C4_expiry_window :
  (forall ctx pay assetTxn cfg st id st',
      createDrop ctx pay assetTxn cfg st = Ok (id, st') ->
      latestTimestamp ctx + 86400 < AirdropEndTime cfg
      /\ AirdropEndTime cfg <= latestTimestamp ctx + (3600 + 7 * 86400))
  /\ (forall ctx pay assetTxn cfg st,
        AirdropEndTime cfg = latestTimestamp ctx + 6 * 3600 ->
        exists e, createDrop ctx pay assetTxn cfg st = Err e)
  /\ (forall ctx pay assetTxn cfg st,
        AirdropEndTime cfg = latestTimestamp ctx + 8 * 86400 ->
        exists e, createDrop ctx pay assetTxn cfg st = Err e).
Proof.
  assert (Hwin : forall ctx pay assetTxn cfg st id st',
             createDrop ctx pay assetTxn cfg st = Ok (id, st') ->
             latestTimestamp ctx + 86400 < AirdropEndTime cfg
             /\ AirdropEndTime cfg <= latestTimestamp ctx + (3600 + 7 * 86400)).
  { intros ctx pay assetTxn cfg st id st' H.
    apply createDrop_Ok in H as ((_ & _ & _ & _ & _ & _ & _ & H1 & H2 & _) & _). lia. }
  split; [exact Hwin | split].
  - intros ctx pay assetTxn cfg st Hend.
    destruct (createDrop ctx pay assetTxn cfg st) as [[id st']|e] eqn:H; [| eauto].
    apply Hwin in H. lia.
  - intros ctx pay assetTxn cfg st Hend.
    destruct (createDrop ctx pay assetTxn cfg st) as [[id st']|e] eqn:H; [| eauto].
    apply Hwin in H. lia.
Qed.

Lemma C4_witness :
  (5000 + 86400 < AirdropEndTime (demo_config 1000)
   /\ AirdropEndTime (demo_config 1000) <= 5000 + (3600 + 7 * 86400))
  /\ (exists e, createDrop (demo_ctx CREATOR 5000) (mkPay CREATOR APP 10080600)
                  (mkAxfer CREATOR APP TOKEN 4000)
                  (mkConfig TOKEN 1000 (5000 + 6 * 3600) GATING_TYPE_NONE 0 [0; 0; 0; 0] 0)
                  demo_ready = Err e)
  /\ (exists e, createDrop (demo_ctx CREATOR 5000) (mkPay CREATOR APP 10080600)
                  (mkAxfer CREATOR APP TOKEN 4000)
                  (mkConfig TOKEN 1000 (5000 + 8 * 86400) GATING_TYPE_NONE 0 [0; 0; 0; 0] 0)
                  demo_ready = Err e).
Proof.
  destruct C4_expiry_window as (H1 & H2 & H3).
  split; [| split].
  - apply (H1 (demo_ctx CREATOR 5000) (mkPay CREATOR APP 10080600)
              (mkAxfer CREATOR APP TOKEN 4000) (demo_config 1000)
              (set_assets (insert TOKEN 4000) (bump 10080600 demo_ready)) 1 demo_created).
    vm_compute. reflexivity.
  - apply H2. reflexivity.
  - apply H3. reflexivity.
Defined.

(** C10. [changeFees] constrains the creation fee besides checking the
    per-claim fee: it fails unless the new creation fee is strictly greater
    than 2,000,000 microAlgo and even, whatever the per-claim fee is.  An even
    fee makes the two halves [createDrop] pays out, [fee / 2] to the
    maintainer and [fee / 2] to the fee sink, add up to the fee exactly. *)
Theorem C10_changeFees_creation_fee :
  (forall ctx creationFee perClaimFee st st',
      changeFees ctx creationFee perClaimFee st = Ok (tt, st') ->
      2000000 < creationFee /\ creationFee mod 2 = 0 /\
      creationFeeAmount st' = creationFee /\
      creationFee / 2 + creationFee / 2 = creationFee)
  /\ (forall ctx creationFee perClaimFee st,
        creationFee <= 2000000 \/ creationFee mod 2 <> 0 ->
        exists e, changeFees ctx creationFee perClaimFee st = Err e)
  /\ (forall ctx pay assetTxn cfg st id st',
        createDrop ctx pay assetTxn cfg st = Ok (id, st') ->
        exists l, itxns st'
                  = l ++ [ItxnPay (maintainerAddress st') (creationFeeAmount st' / 2)
                                  "TokenDrop fee";
                          ItxnPay (feeSink ctx) (creationFeeAmount st' / 2) "TokenDrop fee"]).
Proof.
  assert (Hok : forall ctx creationFee perClaimFee st st',
             changeFees ctx creationFee perClaimFee st = Ok (tt, st') ->
             2000000 < creationFee /\ creationFee mod 2 = 0 /\
             creationFeeAmount st' = creationFee /\
             creationFee / 2 + creationFee / 2 = creationFee).
  { intros ctx cf pf st st' H. unfold changeFees in H. inv_run H.
    assert (cf mod 2 = 0) as Hev by lia.
    repeat split; try lia; try reflexivity.
    apply Z.div_exact in Hev; lia. }
  split; [exact Hok | split].
  - intros ctx cf pf st Hbad.
    destruct (changeFees ctx cf pf st) as [[[] st']|e] eqn:H; [| eauto].
    apply Hok in H. lia.
  - intros ctx pay assetTxn cfg st id st' H.
    apply createDrop_Ok in H as (_ & st0 & _ & _ & _ & _ & _ & ->).
    unfold after_install. simpl. eexists. rewrite app_assoc. reflexivity.
Qed.

Lemma C10_witness :
  (2000000 < 4000000 /\ 4000000 mod 2 = 0 /\
   creationFeeAmount (set_globals MAINTAINER 4000000 70000 0 0 demo_ready) = 4000000 /\
   4000000 / 2 + 4000000 / 2 = 4000000)
  /\ (exists e, changeFees (demo_ctx 1 5000) 2000001 70000 demo_ready = Err e)
  /\ (exists e, changeFees (demo_ctx 1 5000) 2000000 70000 demo_ready = Err e).
Proof.
  destruct C10_changeFees_creation_fee as (H1 & H2 & _).
  split; [| split].
  - apply (H1 (demo_ctx 1 5000) 4000000 70000 demo_ready). vm_compute. reflexivity.
  - apply H2. right. vm_compute. discriminate.
  - apply H2. left. lia.
Defined.

(** C9. For an existing drop that is expired or empty and an address with no
    claim receipt for it, [claimClaimerBoxCost] does not fail: no box is
    deleted, nothing else changes, and the given receiver is paid a refund
    of 0.  (The account is at or above its minimum balance, as the ledger
    keeps every account.) *)
Theorem C9_claimClaimerBoxCost_without_receipt :
  forall ctx tokenDropId claimerAddress receiver st d,
    allDrops st !! tokenDropId = Some d ->
    isDropExpiredOrEmpty ctx d = true ->
    claimedMap st !! (tokenDropId, claimerAddress) = None ->
    minBalance st <= appAlgo st ->
    exists st',
      claimClaimerBoxCost ctx tokenDropId claimerAddress receiver st = Ok (tt, st') /\
      claimedMap st' = claimedMap st /\ allDrops st' = allDrops st /\
      dropForToken st' = dropForToken st /\
      appAlgo st' = appAlgo st /\ appAssets st' = appAssets st /\
      itxns st' = itxns st ++ [ItxnPay receiver 0 EmptyString].
Proof.
  intros ctx id claimer receiver st d Hd Hexp Hnone Hsolvent.
  assert (Hdel : set_claimedMap (delete (id, claimer)) st = st).
  { unfold set_claimedMap. rewrite delete_id by done. now destruct st. }
  eexists. split.
  - unfold claimClaimerBoxCost.
    erewrite bind_run; [| exact (readDrop_run _ _ _ Hd)].
    erewrite bind_run; [| exact (assert_true _ _ _ Hexp)].
    erewrite bind_run; [| reflexivity].
    erewrite bind_run; [| reflexivity].
    rewrite Hdel.
    erewrite bind_run; [| reflexivity].
    erewrite bind_run; [| apply sub64_run; lia].
    rewrite Z.sub_diag. apply sendPayment_run. cbv zeta. case_decide; lia.
  - simpl. repeat split. case_decide; lia.
Qed.

Lemma C9_witness :
  exists st',
    claimClaimerBoxCost (demo_ctx CREATOR 700000) 1 CREATOR CREATOR demo_claimed = Ok (tt, st') /\
    claimedMap st' = claimedMap demo_claimed /\ allDrops st' = allDrops demo_claimed /\
    dropForToken st' = dropForToken demo_claimed /\
    appAlgo st' = appAlgo demo_claimed /\ appAssets st' = appAssets demo_claimed /\
    itxns st' = itxns demo_claimed ++ [ItxnPay CREATOR 0 EmptyString].
Proof.
  apply (C9_claimClaimerBoxCost_without_receipt (demo_ctx CREATOR 700000) 1 CREATOR CREATOR
           demo_claimed demo_drop_claimed); [reflexivity | reflexivity | reflexivity |].
  vm_compute. discriminate.
Defined.

(** ** What a claim does before it sends the tokens *)

Lemma sendAssetTransfer_frame ctx a r amt c note st u st' :
  sendAssetTransfer ctx a r amt c note st = Ok (u, st') ->
  exists assets', st' = set_account (appAlgo st) assets' [ItxnAxfer a r amt c note] st.
Proof.
  unfold sendAssetTransfer. intros H.
  repeat case_match; try discriminate; injection H as <-; eauto.
Qed.

Lemma sendTokensFromDrop_frame ctx d r amt st x st' :
  sendTokensFromDrop ctx d r amt st = Ok (x, st') ->
  appAlgo st' = appAlgo st /\ claimedMap st' = claimedMap st /\
  dropForToken st' = dropForToken st /\
  itxns st' = itxns st ++ [ItxnAxfer (Token (Config d)) r amt None EmptyString].
Proof.
  unfold sendTokensFromDrop. intros H.
  apply bind_Ok in H as (? & s1 & H1 & H).
  apply sendAssetTransfer_frame in H1 as (assets' & ->).
  inv_run H. simpl. auto.
Qed.

Lemma claimDrop_inv ctx pay id v st u st' :
  claimDrop ctx pay id v st = Ok (u, st') ->
  exists d r,
    allDrops st !! id = Some d /\
    txnSender ctx <> DropCreator d /\
    isDropExpiredOrEmpty ctx d = false /\
    isOptedInToAsset ctx st (txnSender ctx) (Token (Config d)) = true /\
    claimedMap st !! (id, txnSender ctx) = None /\
    doesClaimAccountMeetGating ctx id v st = Ok (tt, st) /\
    2 * perClaimerMbr <= perClaimFeeAmount st /\
    pay_receiver pay = appAddress ctx /\ pay_sender pay = txnSender ctx /\
    pay_amount pay = perClaimFeeAmount st /\
    0 <= feeSinkPortion (perClaimFeeAmount st) /\
    sendTokensFromDrop ctx d (txnSender ctx) (AmountPerClaim (Config d)) (paid_state ctx id st)
    = Ok (r, st').
Proof.
  intros H. unfold claimDrop in H.
  apply bind_Ok in H as (d & s0 & H0 & H). apply readDrop_Ok in H0 as [Hd ->].
  apply bind_Ok in H as (? & ? & H1 & H). apply assert_Ok in H1 as [H1 ->].
  apply bind_Ok in H as (? & ? & H2 & H). apply assert_Ok in H2 as [H2 ->].
  apply bind_Ok in H as (? & ? & H3 & H). apply gets_Ok in H3 as [-> ->].
  apply bind_Ok in H as (? & ? & H4 & H). apply assert_Ok in H4 as [H4 ->].
  apply bind_Ok in H as (? & ? & H5 & H). apply gets_Ok in H5 as [-> ->].
  apply bind_Ok in H as (? & ? & H6 & H). apply assert_Ok in H6 as [H6 ->].
  apply bind_Ok in H as ([] & ? & H7 & H).
  pose proof (check_doesClaimAccountMeetGating _ _ _ _ _ _ H7) as ->.
  unfold getPerClaimerFee, getPerClaimerMbrCost in H. fold perClaimerMbr in H.
  inv_run H. simpl in *.
  apply negb_true_iff in H1, H2. apply bool_decide_eq_false in H1.
  apply bool_decide_eq_true in H6.
  exists d. eexists. repeat split; auto; try lia.
  - unfold feeSinkPortion, maintainerPortion. lia.
  - match goal with HS : sendTokensFromDrop _ _ _ _ ?s = _ |- _ =>
      replace (paid_state ctx id st) with s; [exact HS |] end.
    unfold paid_state, set_globals, set_claimedMap, set_account, maintainerPortion,
      feeSinkPortion. simpl. now rewrite <-app_assoc.
Qed.

Lemma claimDropGroup_inv ctx pay id v st u st' :
  claimDropGroup ctx pay id v st = Ok (u, st') ->
  claimDrop ctx pay id v (bump (pay_amount pay) st) = Ok (u, st') /\
  pay_receiver pay = appAddress ctx.
Proof.
  unfold claimDropGroup. intros H.
  apply bind_Ok in H as (? & s1 & H1 & H). rewrite receivePayTxn_eq in H1.
  injection H1 as E1. subst s1.
  pose proof H as H'. apply claimDrop_inv in H' as (d & r & _ & _ & _ & _ & _ & _ & _ & Hr & _).
  unfold credited in H. rewrite bool_decide_eq_true_2 in H by done. auto.
Qed.

(** The split of the per-claim fee. *)
Lemma claimDropGroup_fee_split ctx pay id v st st' :
  claimDropGroup ctx pay id v st = Ok (tt, st') ->
  let F := perClaimFeeAmount st in
  pay_amount pay = F /\
  (exists d, allDrops st !! id = Some d /\
     itxns st'
     = itxns st
       ++ [ItxnPay (maintainerAddress st) (F * 500 / 1000) "TokenDrop fee";
           ItxnPay (feeSink ctx) (F - F * 500 / 1000 - perClaimerMbr) "TokenDrop fee";
           ItxnAxfer (Token (Config d)) (txnSender ctx) (AmountPerClaim (Config d)) None
                     EmptyString]) /\
  0 <= F - F * 500 / 1000 - perClaimerMbr /\
  (maintainerAddress st <> appAddress ctx -> feeSink ctx <> appAddress ctx ->
   appAlgo st' = appAlgo st + perClaimerMbr).
Proof.
  intros H. apply claimDropGroup_inv in H as [H _].
  apply claimDrop_inv in H
    as (d & r & Hd & _ & _ & _ & _ & _ & _ & _ & _ & Hamt & Hfs & Hsend).
  apply sendTokensFromDrop_frame in Hsend as (Halgo & _ & _ & Htx).
  cbv zeta. simpl in Hamt. repeat split; auto.
  - exists d. split; [exact Hd |]. rewrite Htx. simpl. now rewrite <-app_assoc.
  - intros Hm Hf. rewrite Halgo. simpl. rewrite !decide_False by done.
    unfold feeSinkPortion, maintainerPortion. simpl. lia.
Qed.

(** C8 (as stated) fails in its last clause: rounding down the maintainer
    portion never leaves anything in the contract beyond the receipt rent.
    With the odd fee 100001 the maintainer is paid 50000, the fee sink 18301
    and the contract keeps exactly 31700; and no successful claim at all
    leaves the contract with more, or less, than the receipt rent. *)
Lemma C8_counterexample :
  (exists st',
      claimDropGroup (demo_ctx ALICE 6000) (mkPay ALICE APP 100001) 1 0 demo_odd_fee
      = Ok (tt, st') /\
      itxns st' = itxns demo_odd_fee
                  ++ [ItxnPay MAINTAINER 50000 "TokenDrop fee";
                      ItxnPay FEE_SINK 18301 "TokenDrop fee";
                      ItxnAxfer TOKEN ALICE 1000 None EmptyString] /\
      appAlgo st' = appAlgo demo_odd_fee + 31700)
  /\ ~ (exists ctx pay id v st st',
          claimDropGroup ctx pay id v st = Ok (tt, st') /\
          maintainerAddress st <> appAddress ctx /\ feeSink ctx <> appAddress ctx /\
          appAlgo st' <> appAlgo st + perClaimerMbr).
Proof.
  split.
  - eexists. split; [vm_compute; reflexivity |]. split; reflexivity.
  - intros (ctx & pay & id & v & st & st' & H & Hm & Hf & Hne).
    apply claimDropGroup_fee_split in H as (_ & _ & _ & Halgo). auto.
Qed.

(** C8 (amended).  On every successful [claimDrop] with per-claim fee [F]
    and per-receipt rent [M], the maintainer is paid [floor (F * 500 / 1000)],
    which is [floor (F / 2)], the fee sink is paid [F - floor (F * 500 / 1000) - M],
    which is not negative, and the three portions add up to [F].  The contract
    balance grows by exactly [M]: rounding the maintainer portion down leaves
    the odd unit of [F] with the fee sink, not in the contract. *)
Theorem C8_fee_split :
  forall ctx pay id v st st',
    claimDropGroup ctx pay id v st = Ok (tt, st') ->
    let F := perClaimFeeAmount st in
    let M := perClaimerMbr in
    pay_amount pay = F /\
    (exists d, allDrops st !! id = Some d /\
       itxns st'
       = itxns st
         ++ [ItxnPay (maintainerAddress st) (F * 500 / 1000) "TokenDrop fee";
             ItxnPay (feeSink ctx) (F - F * 500 / 1000 - M) "TokenDrop fee";
             ItxnAxfer (Token (Config d)) (txnSender ctx) (AmountPerClaim (Config d)) None
                       EmptyString]) /\
    F * 500 / 1000 = F / 2 /\
    0 <= F - F * 500 / 1000 - M /\
    F * 500 / 1000 + (F - F * 500 / 1000 - M) + M = F /\
    F - F * 500 / 1000 = F / 2 + F mod 2 /\
    (maintainerAddress st <> appAddress ctx -> feeSink ctx <> appAddress ctx ->
     appAlgo st' = appAlgo st + M).
Proof.
  intros ctx pay id v st st' H. cbv zeta.
  apply claimDropGroup_fee_split in H as (H1 & H2 & H3 & H4).
  assert (Hhalf : perClaimFeeAmount st * 500 / 1000 = perClaimFeeAmount st / 2).
  { replace 1000 with (2 * 500) by reflexivity. apply Z.div_mul_cancel_r; lia. }
  repeat split; auto; try lia.
  rewrite Hhalf. pose proof (Z.div_mod (perClaimFeeAmount st) 2). lia.
Qed.

Lemma C8_witness :
  let F := perClaimFeeAmount demo_created in
  let M := perClaimerMbr in
  pay_amount (mkPay ALICE APP 100000) = F /\
  (exists d, allDrops demo_created !! 1 = Some d /\
     itxns demo_claimed
     = itxns demo_created
       ++ [ItxnPay (maintainerAddress demo_created) (F * 500 / 1000) "TokenDrop fee";
           ItxnPay (feeSink (demo_ctx ALICE 6000)) (F - F * 500 / 1000 - M) "TokenDrop fee";
           ItxnAxfer (Token (Config d)) (txnSender (demo_ctx ALICE 6000))
                     (AmountPerClaim (Config d)) None EmptyString]) /\
  F * 500 / 1000 = F / 2 /\
  0 <= F - F * 500 / 1000 - M /\
  F * 500 / 1000 + (F - F * 500 / 1000 - M) + M = F /\
  F - F * 500 / 1000 = F / 2 + F mod 2 /\
  (maintainerAddress demo_created <> appAddress (demo_ctx ALICE 6000) ->
   feeSink (demo_ctx ALICE 6000) <> appAddress (demo_ctx ALICE 6000) ->
   appAlgo demo_claimed = appAlgo demo_created + M).
Proof.
  exact (C8_fee_split (demo_ctx ALICE 6000) (mkPay ALICE APP 100000) 1 0 demo_created
           demo_claimed demo_claimed_run).
Defined.

Lemma bind_check_same {A B} (m : M A) (f g : A -> M B) st :
  check m -> (forall a, m st = Ok (a, st) -> f a st = g a st) -> bind m f st = bind m g st.
Proof.
  intros Hc Hfg. unfold bind. destruct (m st) as [[a s]|e] eqn:E; [| reflexivity].
  pose proof (Hc _ _ _ E) as ->. now apply Hfg.
Qed.

Lemma fee_check_redundant ctx pay id v st :
  2 * perClaimerMbr <= perClaimFeeAmount st ->
  claimDrop ctx pay id v st = claimDrop_without_fee_check ctx pay id v st.
Proof.
  intros Hfee. unfold claimDrop, claimDrop_without_fee_check.
  apply bind_check_same; [apply check_readDrop | intros d _].
  apply bind_check_same; [apply check_assert | intros _ _].
  apply bind_check_same; [apply check_assert | intros _ _].
  apply bind_check_same; [apply check_gets | intros o _].
  apply bind_check_same; [apply check_assert | intros _ _].
  cbv zeta.
  apply bind_check_same; [apply check_gets | intros r _].
  apply bind_check_same; [apply check_assert | intros _ _].
  apply bind_check_same; [apply check_doesClaimAccountMeetGating | intros _ _].
  unfold getPerClaimerFee, getPerClaimerMbrCost. fold perClaimerMbr.
  apply bind_check_same; [apply check_gets | intros fee Hf].
  apply gets_Ok in Hf as [-> _].
  apply bind_check_same; [apply check_ret | intros mbr Hm].
  apply ret_Ok in Hm as [-> _].
  erewrite bind_run; [| apply mul64_run; vm_compute; discriminate].
  erewrite bind_run; [| apply assert_true; lia].
  reflexivity.
Qed.



(** C3 (as stated) fails on the error it names: after ALICE's successful
    claim emptied the drop her receipt exists, and her next claim fails, but
    at the earlier expired-or-empty check, not with [already claimed]. *)
Lemma C3_counterexample :
  reachable APP demo_exhausted
  /\ claimedMap demo_exhausted !! (1, ALICE) = Some (mkClaimed 777)
  /\ claimDropGroup (demo_ctx ALICE 6100) (mkPay ALICE APP 100000) 1 0 demo_exhausted
     = Err (AssertFailed "airdrop has ended or out of tokens")
  /\ claimDropGroup (demo_ctx ALICE 6100) (mkPay ALICE APP 100000) 1 0 demo_exhausted
     <> Err (AssertFailed "already claimed").
Proof.
  split; [exact reachable_demo_exhausted |].
  split; [reflexivity |].
  split; [vm_compute; reflexivity | vm_compute; discriminate].
Qed.

(** C3 (amended).  Exactly-once claims: while a receipt exists for the key
    (d, a), every [claimDrop] call by a on d fails, and with the error of the
    first check of [claimDrop] that does not pass: the missing box when d
    has no record, [drop creator cannot claim] when a is the creator,
    [airdrop has ended or out of tokens] when d is expired or empty,
    [claimant must already be opted-in to token!] when a is not opted in,
    and [already claimed] when all of those checks pass.  A successful
    [claimDrop] found no receipt and records the receipt for (d, a) in the
    same call. *)
Theorem C3_exactly_once_claims :
  (forall ctx pay id v st,
      is_Some (claimedMap st !! (id, txnSender ctx)) ->
      claimDropGroup ctx pay id v st
      = Err (match allDrops st !! id with
             | None => BoxMissing
             | Some d =>
                 if bool_decide (txnSender ctx = DropCreator d)
                 then AssertFailed "drop creator cannot claim"
                 else if isDropExpiredOrEmpty ctx d
                 then AssertFailed "airdrop has ended or out of tokens"
                 else if isOptedInToAsset ctx st (txnSender ctx) (Token (Config d))
                 then AssertFailed "already claimed"
                 else AssertFailed "claimant must already be opted-in to token!"
             end))
  /\ (forall ctx pay id v st d,
        is_Some (claimedMap st !! (id, txnSender ctx)) ->
        allDrops st !! id = Some d ->
        txnSender ctx <> DropCreator d ->
        isDropExpiredOrEmpty ctx d = false ->
        isOptedInToAsset ctx st (txnSender ctx) (Token (Config d)) = true ->
        claimDropGroup ctx pay id v st = Err (AssertFailed "already claimed"))
  /\ (forall ctx pay id v st st',
        claimDropGroup ctx pay id v st = Ok (tt, st') ->
        claimedMap st !! (id, txnSender ctx) = None /\
        claimedMap st' !! (id, txnSender ctx) = Some (mkClaimed (txnID ctx))).
Proof.
  assert (Hrec : forall ctx pay id v st st',
             claimDropGroup ctx pay id v st = Ok (tt, st') ->
             claimedMap st !! (id, txnSender ctx) = None /\
             claimedMap st' !! (id, txnSender ctx) = Some (mkClaimed (txnID ctx))).
  { intros ctx pay id v st st' H. apply claimDropGroup_inv in H as [H _].
    apply claimDrop_inv in H as (d & r & _ & _ & _ & _ & Hnone & _ & _ & _ & _ & _ & _ & Hsend).
    apply sendTokensFromDrop_frame in Hsend as (_ & Hmap & _).
    split; [exact Hnone |]. rewrite Hmap. simpl. apply lookup_insert_eq. }
  assert (Hfail : forall ctx pay id v st,
             is_Some (claimedMap st !! (id, txnSender ctx)) ->
             claimDropGroup ctx pay id v st
             = Err (match allDrops st !! id with
                    | None => BoxMissing
                    | Some d =>
                        if bool_decide (txnSender ctx = DropCreator d)
                        then AssertFailed "drop creator cannot claim"
                        else if isDropExpiredOrEmpty ctx d
                        then AssertFailed "airdrop has ended or out of tokens"
                        else if isOptedInToAsset ctx st (txnSender ctx) (Token (Config d))
                        then AssertFailed "already claimed"
                        else AssertFailed "claimant must already be opted-in to token!"
                    end)).
  { intros ctx pay id v st [c Hc]. unfold claimDropGroup.
    erewrite bind_run; [| apply receivePayTxn_eq].
    set (s1 := credited ctx pay st).
    assert (Hs : allDrops s1 = allDrops st /\ claimedMap s1 = claimedMap st
                 /\ appAssets s1 = appAssets st)
      by (unfold s1, credited; destruct (bool_decide _); auto).
    destruct Hs as (Hs1 & Hs2 & Hs3).
    unfold claimDrop.
    destruct (allDrops st !! id) as [d|] eqn:Hd.
    2:{ apply bind_Err. unfold readDrop. now rewrite Hs1, Hd. }
    erewrite bind_run; [| apply readDrop_run; rewrite Hs1; exact Hd].
    destruct (bool_decide (txnSender ctx = DropCreator d)) eqn:Hcr.
    { simpl. apply bind_Err. first [reflexivity | now apply assert_false]. }
    erewrite bind_run; [| now apply assert_true].
    destruct (isDropExpiredOrEmpty ctx d) eqn:Hexp.
    { simpl. apply bind_Err. first [reflexivity | now apply assert_false]. }
    erewrite bind_run; [| now apply assert_true].
    erewrite bind_run; [| reflexivity].
    assert (Ho : isOptedInToAsset ctx s1 (txnSender ctx) (Token (Config d))
                 = isOptedInToAsset ctx st (txnSender ctx) (Token (Config d)))
      by (unfold isOptedInToAsset; now rewrite Hs3).
    rewrite Ho.
    destruct (isOptedInToAsset ctx st (txnSender ctx) (Token (Config d))) eqn:Hopt.
    2:{ simpl. apply bind_Err. first [reflexivity | now apply assert_false]. }
    erewrite bind_run; [| now apply assert_true].
    erewrite bind_run; [| reflexivity].
    simpl. apply bind_Err. apply assert_false. apply bool_decide_eq_false.
    rewrite Hs2, Hc. discriminate. }
  split; [exact Hfail | split; [| exact Hrec]].
  intros ctx pay id v st d Hr Hd Hne Hexp Hopt.
  rewrite (Hfail _ _ _ _ _ Hr), Hd, Hexp, Hopt.
  now rewrite bool_decide_eq_false_2.
Qed.

Lemma C3_witness :
  claimDropGroup (demo_ctx ALICE 6100) (mkPay ALICE APP 100000) 1 0 demo_exhausted
  = Err (AssertFailed "airdrop has ended or out of tokens")
  /\ claimDropGroup (demo_ctx ALICE 6100) (mkPay ALICE APP 100000) 1 0 demo_claimed
     = Err (AssertFailed "already claimed")
  /\ (claimedMap demo_created !! (1, ALICE) = None
      /\ claimedMap demo_claimed !! (1, ALICE) = Some (mkClaimed 777)).
Proof.
  destruct C3_exactly_once_claims as (H1 & H2 & H3).
  split; [| split].
  - rewrite H1; [reflexivity | vm_compute; eauto].
  - apply (H2 _ _ _ _ _ demo_drop_claimed); try reflexivity.
    + vm_compute. eauto.
    + vm_compute. discriminate.
  - exact (H3 (demo_ctx ALICE 6000) (mkPay ALICE APP 100000) 1 0 demo_created demo_claimed
              demo_claimed_run).
Defined.

Lemma minBalance_after_teardown ctx id d bal st id' :
  allDrops st !! id = Some d ->
  dropForToken st !! Token (Config d) = Some id' ->
  appAssets st !! Token (Config d) = Some bal ->
  minBalance (after_teardown ctx id d bal st) = minBalance st - teardownRefund ctx d bal.
Proof.
  intros Hd Hi Hb. rewrite <-(minBalance_after_removal ctx id d bal st id' Hd Hi Hb).
  unfold minBalance. simpl.
  destruct (0 <? AmountRemaining d); [now rewrite delete_insert_eq | reflexivity].
Qed.

(** C7 (as stated) fails on the amount paid to the creator: when the
    teardown leaves the contract holding none of the token it opts out, and
    the payment includes the opt-in minimum balance that frees.  Cancelling
    the demo drop deletes two boxes whose rent is 80600 and pays 180600. *)
Lemma C7_counterexample :
  reachable APP demo_claimed
  /\ cancelDrop (demo_ctx CREATOR 6000) 1 demo_claimed = Ok (tt, demo_cancelled)
  /\ itxns demo_cancelled
     = itxns demo_claimed
       ++ [ItxnAxfer TOKEN CREATOR 3000 None EmptyString;
           ItxnAxfer TOKEN APP 0 (Some APP) "opt-out of token";
           ItxnPay CREATOR 180600 "refund from removing token drop"]
  /\ costForBoxStorage boxBytes_allDrops + costForBoxStorage boxBytes_dropForToken = 80600
  /\ 180600 <> costForBoxStorage boxBytes_allDrops + costForBoxStorage boxBytes_dropForToken.
Proof.
  split; [exact reachable_demo_claimed |].
  split; [vm_compute; reflexivity |].
  split; [reflexivity |].
  split; [reflexivity | vm_compute; discriminate].
Qed.

(** C7 (amended).  Teardown.  For an existing drop, [cleanupDrop] called by
    anyone other than the recorded creator fails unless the drop is expired
    or empty, and [cancelDrop] fails for anyone but the creator; the creator
    may tear down at any time, by either call, and anyone may once the drop
    is expired or empty (given that the creator can still receive the token
    and the account is at its minimum balance).  On success the drop's whole
    [AmountRemaining] is sent to the recorded creator, the drop record and
    the token-index entry are deleted, and the recorded creator is paid the
    decrease of the account's minimum balance: the rent of the two deleted
    boxes, plus the asset opt-in minimum balance when the contract is left
    holding none of the token and opts out of it. *)
Theorem C7_teardown :
  (forall ctx id st d,
      allDrops st !! id = Some d -> txnSender ctx <> DropCreator d ->
      (isDropExpiredOrEmpty ctx d = false ->
       cleanupDrop ctx id st = Err (AssertFailed "drop MUST be expired or empty"))
      /\ cancelDrop ctx id st = Err (AssertFailed "only drop creator can cancel a drop"))
  /\ (forall self ctx id st d,
        reachable self st -> allDrops st !! id = Some d ->
        txnSender ctx = DropCreator d \/ isDropExpiredOrEmpty ctx d = true ->
        (0 < AmountRemaining d ->
         isOptedInToAsset ctx st (DropCreator d) (Token (Config d)) = true) ->
        minBalance st <= appAlgo st ->
        exists st', cleanupDrop ctx id st = Ok (tt, st') /\
                    (txnSender ctx = DropCreator d -> cancelDrop ctx id st = Ok (tt, st')))
  /\ (forall self ctx id st st',
        reachable self st -> cleanupDrop ctx id st = Ok (tt, st') ->
        exists d bal,
          allDrops st !! id = Some d /\ appAssets st !! Token (Config d) = Some bal /\
          (txnSender ctx = DropCreator d \/ isDropExpiredOrEmpty ctx d = true) /\
          allDrops st' !! id = None /\ dropForToken st' !! Token (Config d) = None /\
          let optOut := teardownLeft ctx d bal =? 0 in
          let refund := costForBoxStorage boxBytes_allDrops
                        + costForBoxStorage boxBytes_dropForToken
                        + (if optOut then assetOptInMinBalance else 0) in
          itxns st'
          = itxns st
            ++ (if 0 <? AmountRemaining d
                then [ItxnAxfer (Token (Config d)) (DropCreator d) (AmountRemaining d) None
                                EmptyString]
                else [])
            ++ (if optOut
                then [ItxnAxfer (Token (Config d)) (appAddress ctx) 0 (Some (appAddress ctx))
                                "opt-out of token"]
                else [])
            ++ [ItxnPay (DropCreator d) refund "refund from removing token drop"] /\
          refund = minBalance st - minBalance st').
Proof.
  split; [| split].
  - intros ctx id st d Hd Hne. split.
    + intros Hexp. unfold cleanupDrop.
      erewrite bind_run; [| exact (readDrop_run _ _ _ Hd)].
      erewrite bind_Err; [reflexivity |].
      rewrite bool_decide_eq_false_2 by done. simpl. now apply assert_false.
    + unfold cancelDrop.
      erewrite bind_run; [| exact (readDrop_run _ _ _ Hd)].
      erewrite bind_Err; [reflexivity |]. apply assert_false. now apply bool_decide_eq_false.
  - intros self ctx id st d Hr Hd Hauth Hopt Hsolvent.
    pose proof (reachable_Inv _ _ Hr) as HI.
    destruct (inv_drops _ HI _ _ Hd) as [Hid _ Hapc Hclaims Hmax Hacc Hix (bal & Hb & Hle)].
    destruct (cleanupDrop_eq ctx id d bal st id Hd Hid Hix Hb) as [e He].
    assert (Hok : cleanup_ok ctx d bal st = true).
    { unfold cleanup_ok, refund_ok, send_ok. rewrite !andb_true_iff. repeat split.
      - destruct Hauth as [-> | ->]; [rewrite bool_decide_eq_true_2 by done | ];
          auto using orb_true_r.
      - destruct (0 <? AmountRemaining d) eqn:Hpos; [| done].
        rewrite Hopt by lia. rewrite !andb_true_iff. repeat split; try lia. nia.
      - pose proof (teardownRefund_pos ctx d bal). case_decide; lia. }
    rewrite Hok in He. eexists. split; [exact He |].
    intros Hc. unfold cancelDrop.
    erewrite bind_run; [| exact (readDrop_run _ _ _ Hd)].
    erewrite bind_run; [exact He |]. apply assert_true. now apply bool_decide_eq_true.
  - intros self ctx id st st' Hr H.
    pose proof (reachable_Inv _ _ Hr) as HI.
    apply (cleanupDrop_Inv _ _ _ _ _ HI) in H as (d & bal & Hd & Hb & Hok & ->).
    destruct (inv_drops _ HI _ _ Hd) as [_ _ _ _ _ _ Hix _].
    exists d, bal. split; [exact Hd |]. split; [exact Hb |].
    unfold cleanup_ok in Hok. rewrite !andb_true_iff in Hok. destruct Hok as [[Hauth _] _].
    split.
    { apply orb_true_iff in Hauth as [Hc | He]; [left; now apply bool_decide_eq_true in Hc | auto]. }
    split; [apply lookup_delete_eq |]. split; [apply lookup_delete_eq |].
    cbv zeta.
    rewrite (minBalance_after_teardown _ _ _ _ _ _ Hd Hix Hb).
    simpl. unfold teardownRefund, teardownTxns. rewrite <-?app_assoc.
    split; [reflexivity | lia].
Qed.

Lemma C7_witness :
  (exists st', cleanupDrop (demo_ctx CREATOR 6000) 1 demo_claimed = Ok (tt, st') /\
               (txnSender (demo_ctx CREATOR 6000) = DropCreator demo_drop_claimed ->
                cancelDrop (demo_ctx CREATOR 6000) 1 demo_claimed = Ok (tt, st')))
  /\ cleanupDrop (demo_ctx ALICE 6000) 1 demo_claimed
     = Err (AssertFailed "drop MUST be expired or empty").
Proof.
  destruct C7_teardown as (H1 & H2 & _).
  split.
  - apply (H2 APP (demo_ctx CREATOR 6000) 1 demo_claimed demo_drop_claimed
              reachable_demo_claimed eq_refl (or_introl eq_refl)).
    + reflexivity.
    + reflexivity.
  - apply (H1 (demo_ctx ALICE 6000) 1 demo_claimed demo_drop_claimed eq_refl).
    + vm_compute. discriminate.
    + reflexivity.
Defined.

(** C5 (as stated) fails for two of the three operations: [claimDrop] and
    [optinAsset] verify the payment amount for equality.  The claim that
    succeeds with a payment of 100000 fails with 100001, and so does the
    opt-in. *)
Lemma C5_counterexample :
  claimDropGroup (demo_ctx ALICE 6000) (mkPay ALICE APP 100000) 1 0 demo_created
  = Ok (tt, demo_claimed)
  /\ claimDropGroup (demo_ctx ALICE 6000) (mkPay ALICE APP 100001) 1 0 demo_created
     = Err (AssertFailed "transaction verification failed: amount")
  /\ optinAssetGroup (demo_ctx CREATOR 5000) (mkPay CREATOR APP 100000) TOKEN
       (bump 100000 (createApplication 1 MAINTAINER))
     = Ok (tt, demo_ready)
  /\ optinAssetGroup (demo_ctx CREATOR 5000) (mkPay CREATOR APP 100001) TOKEN
       (bump 100000 (createApplication 1 MAINTAINER))
     = Err (AssertFailed "transaction verification failed: amount").
Proof. repeat split; vm_compute; reflexivity. Qed.

(** C5 (amended).  Overpayment is accepted by [createDrop] only.  If
    [createDrop] succeeds with a payment of exactly the required amount
    ([createCost], what [getDropCreateCost] returns), it succeeds with any
    larger payment too, returns the same drop id, sends the excess back to
    the payer and otherwise ends in the same state.  [claimDrop] and
    [optinAsset] require the payment to equal the per-claim fee and the asset
    opt-in minimum balance exactly: with any other amount, larger ones
    included, they fail. *)
Theorem C5_overpayment :
  (forall self ctx payer receiver extra assetTxn cfg st id st1,
      reachable self st -> 0 < extra -> payer <> appAddress ctx ->
      createDropGroup ctx (mkPay payer receiver (createCost st)) assetTxn cfg st
      = Ok (id, st1) ->
      exists st2,
        createDropGroup ctx (mkPay payer receiver (createCost st + extra)) assetTxn cfg st
        = Ok (id, st2) /\
        In (ItxnPay payer extra "excess mbr refund") (itxns st2) /\
        appAlgo st2 = appAlgo st1 /\ appAssets st2 = appAssets st1 /\
        allDrops st2 = allDrops st1 /\ dropForToken st2 = dropForToken st1 /\
        claimedMap st2 = claimedMap st1)
  /\ (forall st, createCost st <= MAX_UINT64 -> getDropCreateCost st = Ok (createCost st, st))
  /\ (forall ctx pay id v st,
        pay_amount pay <> perClaimFeeAmount st ->
        exists e, claimDropGroup ctx pay id v st = Err e)
  /\ (forall ctx pay assetId st,
        pay_amount pay <> assetOptInMinBalance ->
        exists e, optinAssetGroup ctx pay assetId st = Err e).
Proof.
  split; [| split; [exact getDropCreateCost_run | split]].
  - intros self ctx payer receiver extra assetTxn cfg st id st1 Hr Hextra Hpayer H.
    pose proof (reachable_Inv _ _ Hr) as HI.
    assert (Hfee : creationFeeAmount st1 = creationFeeAmount st).
    { apply (createDropGroup_Ok _ _ _ _ _ _ _ HI) in H as (b & _ & _ & _ & _ & _ & _ & Hrest).
      destruct (dropForToken st !! Token cfg);
        [destruct Hrest as (? & _ & _ & _ & _ & _ & ->) | subst st1]; reflexivity. }
    assert (Hcost : createCost st1 = createCost st) by (unfold createCost; now rewrite Hfee).
    unfold createDropGroup in H.
    apply bind_Ok in H as ([] & s1 & H1 & H). rewrite receivePayTxn_eq in H1.
    injection H1 as E1. subst s1.
    apply bind_Ok in H as ([] & s2 & H2 & H).
    pose proof H as Hcreate.
    apply createDrop_Ok in Hcreate as ((_ & _ & _ & _ & _ & _ & _ & _ & _ & Hrecv) & _).
    simpl in Hrecv. subst receiver.
    unfold credited in H2. simpl in H2. rewrite bool_decide_eq_true_2 in H2 by done.
    apply (createDrop_overpay _ _ _ _ extra) in H as (l & p1 & p2 & Hl & Hover); auto.
    2:{ rewrite Hfee. destruct (inv_fees _ HI) as (_ & ? & _). lia. }
    exists (set_itxns (l ++ [ItxnPay payer (createCost st + extra - createCost st1)
                                     "excess mbr refund"; p1; p2]) st1).
    split.
    + unfold createDropGroup.
      erewrite bind_run; [| apply receivePayTxn_eq].
      unfold credited. simpl. rewrite bool_decide_eq_true_2 by done.
      replace (bump (createCost st + extra) st) with (bump extra (bump (createCost st) st)).
      2:{ unfold bump. simpl. f_equal. lia. }
      erewrite bind_run; [| apply mono_receiveAssetTransferTxn; [lia | exact H2]].
      exact Hover.
    + simpl. repeat split. apply in_or_app. right. left. f_equal. lia.
  - intros ctx pay id v st Hne.
    destruct (claimDropGroup ctx pay id v st) as [[[] st']|e] eqn:H; [| eauto].
    apply claimDropGroup_fee_split in H as (H & _). contradiction.
  - intros ctx pay assetId st Hne.
    destruct (optinAssetGroup ctx pay assetId st) as [[[] st']|e] eqn:H; [| eauto].
    unfold optinAssetGroup, optinAsset in H.
    apply bind_Ok in H as (? & s1 & _ & H). apply bind_Ok in H as (? & s2 & H2 & _).
    apply verifyPayTxn_Ok in H2 as (_ & _ & Ha & _). specialize (Ha _ eq_refl). contradiction.
Qed.

Lemma C5_witness :
  (exists st2,
      createDropGroup (demo_ctx CREATOR 5000) (mkPay CREATOR APP (createCost demo_ready + 500))
        (mkAxfer CREATOR APP TOKEN 4000) (demo_config 1000) demo_ready
      = Ok (1, st2) /\
      In (ItxnPay CREATOR 500 "excess mbr refund") (itxns st2) /\
      appAlgo st2 = appAlgo demo_created /\ appAssets st2 = appAssets demo_created /\
      allDrops st2 = allDrops demo_created /\ dropForToken st2 = dropForToken demo_created /\
      claimedMap st2 = claimedMap demo_created)
  /\ (exists e, claimDropGroup (demo_ctx ALICE 6000) (mkPay ALICE APP 100001) 1 0 demo_created
                = Err e)
  /\ (exists e, optinAssetGroup (demo_ctx CREATOR 5000) (mkPay CREATOR APP 100001) TOKEN
                  (bump 100000 (createApplication 1 MAINTAINER)) = Err e).
Proof.
  destruct C5_overpayment as (H1 & _ & H2 & H3).
  split; [| split].
  - apply (H1 APP (demo_ctx CREATOR 5000) CREATOR APP 500 (mkAxfer CREATOR APP TOKEN 4000)
              (demo_config 1000) demo_ready 1 demo_created reachable_demo_ready).
    + lia.
    + vm_compute. discriminate.
    + vm_compute. reflexivity.
  - apply H2. vm_compute. discriminate.
  - apply H3. vm_compute. discriminate.
Defined.

(** * Closed forms of the remaining calls *)

Lemma perClaimerMbr_eq : perClaimerMbr = 31700.
Proof. reflexivity. Qed.

Lemma optinAsset_eq ctx p a st :
  optinAssetGroup ctx p a st
  = let st1 := after_optin ctx a (bump (pay_amount p) st) in
    if negb (bool_decide (pay_receiver p = appAddress ctx))
    then Err (AssertFailed "transaction verification failed: receiver")
    else if negb (pay_amount p =? assetOptInMinBalance)
    then Err (AssertFailed "transaction verification failed: amount")
    else if minBalance st1 <=? appAlgo st1 then Ok (tt, st1)
    else Err (LedgerRejected "balance below minimum").
Proof.
  unfold optinAssetGroup. erewrite bind_run; [| apply receivePayTxn_eq].
  unfold credited, optinAsset, verifyPayTxn. simpl.
  destruct (bool_decide (pay_receiver p = appAddress ctx)) eqn:Hr; simpl; [| reflexivity].
  unfold bind at 1. unfold bind at 1. simpl.
  destruct (pay_amount p =? assetOptInMinBalance) eqn:Ha; simpl; [| reflexivity].
  unfold bind at 1. unfold gets at 1.
  unfold isOptedInToAsset, after_optin. rewrite decide_True by done. simpl.
  destruct (appAssets st !! a) as [bal|] eqn:Hb.
  - rewrite bool_decide_eq_true_2 by eauto.
    unfold sendPayment. simpl.
    unfold minBalance at 2. simpl. fold (minBalance st).
    change (minBalance (bump (pay_amount p) st)) with (minBalance st).
    reflexivity.
  - rewrite bool_decide_eq_false_2 by (intros [? ?]; discriminate).
    unfold sendAssetTransfer. simpl. rewrite Hb. rewrite decide_True by done. simpl.
    reflexivity.
Qed.

Lemma minBalance_delete_receipt key st :
  minBalance (set_claimedMap (delete key) st) = minBalance st - receiptRefund key st.
Proof.
  unfold minBalance, receiptRefund. simpl.
  destruct (claimedMap st !! key) eqn:Hk.
  - rewrite (size_delete_Z _ _ _ Hk). unfold perClaimerMbr, boxBytes_claimedMap. lia.
  - rewrite delete_id by done. lia.
Qed.

Lemma receiptRefund_nonneg key st : 0 <= receiptRefund key st.
Proof. unfold receiptRefund. destruct (_ !! _); [vm_compute; discriminate | lia]. Qed.

Lemma claimClaimerBoxCost_eq ctx id a r st :
  claimClaimerBoxCost ctx id a r st
  = match allDrops st !! id with
    | None => Err BoxMissing
    | Some d =>
        if negb (isDropExpiredOrEmpty ctx d)
        then Err (AssertFailed "drop MUST be expired or empty!")
        else let st1 := after_reclaim ctx id a r st in
             if minBalance st1 <=? appAlgo st1 then Ok (tt, st1)
             else Err (LedgerRejected "balance below minimum")
    end.
Proof.
  unfold claimClaimerBoxCost. unfold bind at 1. unfold readDrop.
  destruct (allDrops st !! id) as [d|]; [| reflexivity].
  unfold bind at 1. unfold assert.
  destruct (isDropExpiredOrEmpty ctx d); simpl; [| reflexivity].
  unfold bind at 1. unfold gets at 1.
  unfold bind at 1. unfold modify at 1.
  unfold bind at 1. unfold gets at 1.
  rewrite minBalance_delete_receipt.
  pose proof (receiptRefund_nonneg (id, a) st).
  erewrite bind_run; [| apply sub64_run; lia].
  replace (minBalance st - (minBalance st - receiptRefund (id, a) st))
    with (receiptRefund (id, a) st) by lia.
  unfold sendPayment, after_reclaim. simpl.
  rewrite minBalance_delete_receipt.
  change (minBalance (set_account ?x (appAssets st) ?l (set_claimedMap ?f st)))
    with (minBalance (set_claimedMap f st)).
  rewrite minBalance_delete_receipt. reflexivity.
Qed.

Lemma mono_doesClaimAccountMeetGating extra ctx id v :
  0 <= extra -> mono extra (doesClaimAccountMeetGating ctx id v).
Proof.
  intros. unfold doesClaimAccountMeetGating, checkValidV3NfdAndOwnedByClaimer, isNfdAppIdValid.
  apply mono_bind; [auto with monos | intros d0].
  cbv zeta. case_match; [apply mono_ret |]. mono_tac.
Qed.

Lemma claimDrop_run ctx id v st d bal :
  Inv st ->
  allDrops st !! id = Some d ->
  appAssets st !! Token (Config d) = Some bal ->
  txnSender ctx <> DropCreator d ->
  isDropExpiredOrEmpty ctx d = false ->
  isOptedInToAsset ctx st (txnSender ctx) (Token (Config d)) = true ->
  claimedMap st !! (id, txnSender ctx) = None ->
  doesClaimAccountMeetGating ctx id v st = Ok (tt, st) ->
  minBalance st <= appAlgo st ->
  perClaimFeeAmount st * 500 <= MAX_UINT64 ->
  totalClaims st < MAX_UINT64 ->
  claimDropGroup ctx (mkPay (txnSender ctx) (appAddress ctx) (perClaimFeeAmount st)) id v st
  = Ok (tt, after_claim ctx id d bal (bump (perClaimFeeAmount st) st)).
Proof.
  intros HI Hd Hb Hc Hexp Hopt Hnone Hgate Hsolv Hmul Htot.
  destruct (inv_drops _ HI _ _ Hd) as [Hid Hlast Hapc Hcl Hmax Hacc Hix [bal' [Hb' Hesc]]].
  rewrite Hb in Hb'. injection Hb' as <-.
  destruct (inv_fees _ HI) as (_ & _ & Hfee).
  assert (Hrem : 0 < AmountRemaining d).
  { unfold isDropExpiredOrEmpty in Hexp. pose proof Hexp as Hexp'. apply orb_false_iff in Hexp' as [Hne _].
    apply Z.eqb_neq in Hne. nia. }
  assert (Hgap : 1 <= MaxClaims d - NumClaims d) by nia.
  assert (Hone : AmountPerClaim (Config d) <= AmountRemaining d) by nia.
  assert (HM : perClaimerMbr = 31700) by reflexivity.
  set (F := perClaimFeeAmount st) in *.
  unfold claimDropGroup. erewrite bind_run; [| apply receivePayTxn_eq].
  unfold credited. simpl. rewrite bool_decide_eq_true_2 by done.
  set (st1 := bump F st).
  unfold claimDrop.
  erewrite bind_run; [| apply readDrop_run; exact Hd].
  erewrite bind_run; [| apply assert_true; apply negb_true_iff; now apply bool_decide_eq_false].
  erewrite bind_run; [| apply assert_true; now rewrite Hexp].
  erewrite bind_run; [| reflexivity].
  erewrite bind_run; [| apply assert_true; exact Hopt].
  erewrite bind_run; [| reflexivity].
  erewrite bind_run; [| apply assert_true; apply bool_decide_eq_true; exact Hnone].
  erewrite bind_run; [| apply (mono_doesClaimAccountMeetGating F); [lia | exact Hgate]].
  fold st1.
  unfold getPerClaimerFee, getPerClaimerMbrCost. fold perClaimerMbr.
  erewrite bind_run; [| reflexivity].
  erewrite bind_run; [| reflexivity].
  erewrite bind_run; [| apply mul64_run; vm_compute; discriminate].
  erewrite bind_run; [| apply assert_true; change (perClaimFeeAmount st1) with F; lia].
  erewrite bind_run; [| apply verifyPayTxn_run; simpl; intros ? [= <-]; reflexivity].
  change (perClaimFeeAmount st1) with F.
  erewrite bind_run; [| apply mul64_run; lia].
  erewrite bind_run; [| apply div64_run; lia].
  erewrite bind_run; [| reflexivity].
  assert (Hhalf : 0 <= F * 500 / 1000 /\ F * 500 / 1000 + perClaimerMbr <= F).
  { split; [apply Z.div_pos; lia |].
    assert (F * 500 / 1000 <= F / 2 + 0).
    { rewrite Z.add_0_r. apply Z.div_le_lower_bound; [lia |].
      pose proof (Z.mul_div_le (F * 500) 1000 ltac:(lia)). lia. }
    pose proof (Z.mul_div_le F 2 ltac:(lia)). lia. }
  erewrite bind_run; [| apply sendPayment_run].
  2:{ cbv zeta. change (minBalance st1) with (minBalance st).
      change (appAlgo st1) with (appAlgo st + F). case_decide; lia. }
  erewrite bind_run; [| apply sub64_run; lia].
  erewrite bind_run; [| apply sub64_run; lia].
  erewrite bind_run; [| apply sendPayment_run].
  2:{ cbv zeta. simpl. unfold minBalance. simpl. fold (minBalance st).
      repeat case_decide; lia. }
  erewrite bind_run; [| reflexivity].
  erewrite bind_run; [| reflexivity].
  erewrite bind_run; [| apply add64_run; simpl; lia].
  erewrite bind_run; [| reflexivity].
  match goal with |- bind (sendTokensFromDrop _ _ _ _) _ ?s = _ =>
    destruct (sendTokensFromDrop_eq ctx d (txnSender ctx) (AmountPerClaim (Config d)) s bal)
      as [e He]; [simpl; now rewrite Hid | exact Hb |];
    erewrite bind_run; [| rewrite He; clear He]
  end.
  2:{ unfold send_ok. simpl.
      replace (AmountPerClaim (Config d) <=? bal) with true by lia.
      unfold isOptedInToAsset in *. simpl. rewrite Hopt.
      replace (AmountPerClaim (Config d) <=? AmountRemaining d) with true by lia.
      replace (NumClaims d + 1 <=? MAX_UINT64) with true by nia.
      simpl. reflexivity. }
  unfold ret. f_equal. f_equal.
  unfold after_claim, after_send, set_allDrops, set_globals, set_claimedMap, set_account,
    maintainerPortion, feeSinkPortion. simpl. rewrite Hid.
  rewrite <-!app_assoc. reflexivity.
Qed.

(** ** What the account holds above its minimum balance *)

Lemma minBalance_after_claim ctx id d bal st :
  allDrops st !! id = Some d ->
  appAssets st !! Token (Config d) = Some bal ->
  claimedMap st !! (id, txnSender ctx) = None ->
  minBalance (after_claim ctx id d bal st) = minBalance st + perClaimerMbr.
Proof.
  intros Hd Hb Hn. unfold minBalance, after_claim. simpl.
  rewrite (size_insert_old_Z _ _ _ _ Hd), (size_insert_old_Z _ _ _ _ Hb),
    (size_insert_new_Z _ _ _ Hn).
  unfold perClaimerMbr, boxBytes_claimedMap. lia.
Qed.

Lemma appAlgo_after_claim ctx id d bal st :
  0 <= perClaimFeeAmount st -> 2 * perClaimerMbr <= perClaimFeeAmount st ->
  appAlgo st - perClaimFeeAmount st + perClaimerMbr <= appAlgo (after_claim ctx id d bal st).
Proof.
  intros H0 H2. unfold after_claim. simpl.
  assert (HM : perClaimerMbr = 31700) by reflexivity.
  assert (0 <= maintainerPortion (perClaimFeeAmount st)
          /\ 0 <= feeSinkPortion (perClaimFeeAmount st)) as [Hm Hs].
  { unfold feeSinkPortion, maintainerPortion.
    set (F := perClaimFeeAmount st) in *.
    split; [apply Z.div_pos; lia |].
    assert (F * 500 / 1000 <= F / 2).
    { apply Z.div_le_lower_bound; [lia |].
      pose proof (Z.mul_div_le (F * 500) 1000 ltac:(lia)). lia. }
    pose proof (Z.mul_div_le F 2 ltac:(lia)). lia. }
  unfold feeSinkPortion in *. repeat case_decide; lia.
Qed.

Lemma minBalance_after_install ctx pay assetTxn cfg st :
  allDrops st !! (lastDropId st + 1) = None ->
  dropForToken st !! Token cfg = None ->
  minBalance (after_install ctx pay assetTxn cfg st)
  = minBalance st + costForBoxStorage boxBytes_allDrops + costForBoxStorage boxBytes_dropForToken.
Proof.
  intros Hd Hx. unfold minBalance, after_install. simpl.
  rewrite (size_insert_new_Z _ _ _ Hd), (size_insert_new_Z _ _ _ Hx). lia.
Qed.

Lemma appAlgo_after_install ctx pay assetTxn cfg st :
  createCost st <= pay_amount pay ->
  0 <= creationFeeAmount st -> creationFeeAmount st mod 2 = 0 ->
  appAlgo st - pay_amount pay
  + costForBoxStorage boxBytes_allDrops + costForBoxStorage boxBytes_dropForToken
  <= appAlgo (after_install ctx pay assetTxn cfg st).
Proof.
  intros Hc H0 He. unfold after_install. simpl.
  assert (Hh : 2 * (creationFeeAmount st / 2) = creationFeeAmount st).
  { pose proof (Z.div_mod (creationFeeAmount st) 2 ltac:(lia)). lia. }
  unfold createCost in *. rewrite cost_allDrops, cost_dropForToken.
  change (costForBoxStorage (1 + len_uint64 + len_TokenDropInfo)) with 70500 in *.
  change (costForBoxStorage (3 + len_uint64 + len_uint64)) with 10100 in *.
  destruct (_ <? _) eqn:E; repeat case_decide; lia.
Qed.

Lemma cleanup_ok_algo ctx id d bal st :
  appAlgo st - teardownRefund ctx d bal <= appAlgo (after_teardown ctx id d bal st).
Proof.
  unfold after_teardown. simpl. pose proof (teardownRefund_pos ctx d bal).
  case_decide; lia.
Qed.

(** ** Gating *)

Ltac run_bool :=
  unfold bind, assert, when, gets, ret, fail in *; simpl in *.

Lemma checkGatingInfo_iff ctx cfg st :
  checkGatingInfo ctx cfg st = Ok (tt, st)
  <-> (GATING_TYPE_NONE <= entryGatingType cfg <= GATING_TYPE_CONST_MAX)
      /\ (entryGatingType cfg = GATING_TYPE_CREATED_BY_NFD_ADDRESSES
          \/ entryGatingType cfg = GATING_TYPE_SEGMENT_OF_NFD ->
          registryIsValidNfdAppId ctx (nfdRegistryAppId st)
            (default 0 (entryGatingAssets cfg !! 0%nat)) = true)
      /\ (entryGatingType cfg = GATING_TYPE_NFD_HOLDING_AGE -> 0 < gatingAssetMinBalance cfg).
Proof.
  unfold checkGatingInfo, isNfdAppIdValid, GATING_TYPE_NONE, GATING_TYPE_CONST_MAX,
    GATING_TYPE_CREATED_BY_NFD_ADDRESSES, GATING_TYPE_SEGMENT_OF_NFD, GATING_TYPE_NFD_HOLDING_AGE.
  run_bool.
  destruct (0 <=? entryGatingType cfg) eqn:E0; destruct (entryGatingType cfg <=? 7) eqn:E7;
    simpl; try (split; [discriminate | lia]).
  destruct (entryGatingType cfg =? 3) eqn:E3; destruct (entryGatingType cfg =? 4) eqn:E4;
    destruct (entryGatingType cfg =? 7) eqn:E77; simpl; try lia;
    try destruct (registryIsValidNfdAppId _ _ _) eqn:Ev; simpl;
    try destruct (0 <? gatingAssetMinBalance cfg) eqn:Eg; simpl;
    (split; [intros; try discriminate; repeat split; intros; try lia; try done
            | intros (? & Hv & Hg); try reflexivity; exfalso;
              try (specialize (Hv ltac:(lia)); congruence);
              try (specialize (Hg ltac:(lia)); lia)]).
Qed.

Lemma isAddressInNFDCAAlgoList_iff ctx nfdAppId addrToFind :
  isAddressInNFDCAAlgoList ctx nfdAppId addrToFind = true
  <-> addrToFind <> zeroAddress /\ In addrToFind (nfdCaAlgo ctx nfdAppId).
Proof.
  unfold isAddressInNFDCAAlgoList. rewrite existsb_exists. split.
  - intros (x & Hin & Hx). apply andb_true_iff in Hx as [Hz He].
    apply negb_true_iff, Z.eqb_neq in Hz. apply Z.eqb_eq in He. subst. auto.
  - intros [Hz Hin]. exists addrToFind. split; [done |].
    apply andb_true_iff. split; [apply negb_true_iff; now apply Z.eqb_neq | apply Z.eqb_refl].
Qed.

Lemma checkValidV3NfdAndOwnedByClaimer_iff ctx v claimer st :
  checkValidV3NfdAndOwnedByClaimer ctx v claimer st = Ok (tt, st)
  <-> registryIsValidNfdAppId ctx (nfdRegistryAppId st) v = true
      /\ isNfdPreV3 ctx v = false /\ isNfdForSale ctx v = false /\ isNfdExpired ctx v = false
      /\ nfdOwner ctx v = claimer.
Proof.
  unfold checkValidV3NfdAndOwnedByClaimer, isNfdAppIdValid. run_bool.
  destruct (registryIsValidNfdAppId _ _ _); simpl; [| intuition discriminate].
  destruct (isNfdPreV3 ctx v); simpl; [intuition discriminate |].
  destruct (isNfdForSale ctx v); simpl; [intuition discriminate |].
  destruct (isNfdExpired ctx v); simpl; [intuition discriminate |].
  destruct (nfdOwner ctx v =? claimer) eqn:E; simpl.
  - apply Z.eqb_eq in E. intuition.
  - apply Z.eqb_neq in E. intuition discriminate.
Qed.

Ltac gate_start Hd Hty :=
  unfold doesClaimAccountMeetGating;
  rewrite (bind_run _ _ _ _ _ (readDrop_run _ _ _ Hd)); cbv zeta;
  rewrite Hty; simpl;
  rewrite (bind_run _ _ _ _ _ (readDrop_run _ _ _ Hd)).

(** ** Every call, in closed form *)

Lemma createDropGroup_cost ctx pay assetTxn cfg st id st' :
  Inv st -> createDropGroup ctx pay assetTxn cfg st = Ok (id, st') ->
  createCost st <= pay_amount pay
  /\ checkGatingInfo ctx cfg st = Ok (tt, st)
  /\ AmountPerClaim cfg <> 0 /\ AmountPerClaim cfg <= axfer_assetAmount assetTxn
  /\ axfer_assetAmount assetTxn mod AmountPerClaim cfg = 0
  /\ axfer_xferAsset assetTxn = Token cfg.
Proof.
  intros HI H. unfold createDropGroup in H.
  apply bind_Ok in H as (? & s1 & H1 & H). rewrite receivePayTxn_eq in H1.
  injection H1 as E1. subst s1.
  apply bind_Ok in H as (? & s2 & H2 & H).
  apply createDrop_Ok in H as (Hc & st0 & Hsup & Hg & Hcost & _).
  destruct Hc as (_ & Hpos & Htok & _ & Hle & Hne & Hmod & _).
  assert (E : creationFeeAmount s2 = creationFeeAmount st
              /\ nfdRegistryAppId s2 = nfdRegistryAppId st
              /\ Inv s2).
  { pose proof (Inv_credited ctx pay _ HI) as HI1.
    assert (creationFeeAmount (credited ctx pay st) = creationFeeAmount st
            /\ nfdRegistryAppId (credited ctx pay st) = nfdRegistryAppId st) as [? ?]
      by (unfold credited; destruct (bool_decide _); auto).
    apply receiveAssetTransferTxn_Ok in H2 as [[_ ->] | [_ (b & Hb & ->)]].
    - auto.
    - split; [done | split; [done |]]. apply Inv_credit_asset; auto. lia. }
  destruct E as (E1' & E2 & HI2).
  assert (E0 : creationFeeAmount st0 = creationFeeAmount st
               /\ nfdRegistryAppId st0 = nfdRegistryAppId st).
  { unfold supersede in Hsup. destruct (dropForToken s2 !! Token cfg).
    - destruct Hsup as (dOld & _ & _ & Hcl).
      apply (cleanupDrop_Inv _ _ _ _ _ HI2) in Hcl as (d' & bal & _ & _ & _ & ->). auto.
    - subst st0. auto. }
  destruct E0 as [E3 E4].
  repeat split; try lia.
  - unfold createCost in *. lia.
  - apply checkGatingInfo_iff. apply checkGatingInfo_iff in Hg. now rewrite E4 in Hg.
Qed.

Lemma exec_cases ctx c st st' :
  Inv st -> wf_call c -> exec ctx c st = Ok (tt, st') ->
  match c with
  | UpdateApplication => txnSender ctx = appCreator ctx /\ st' = st
  | ChangeMaintainer a =>
      txnSender ctx = appCreator ctx /\
      st' = set_globals a (creationFeeAmount st) (perClaimFeeAmount st) (totalClaims st)
              (lastDropId st) st
  | ChangeFees cf pf =>
      txnSender ctx = appCreator ctx /\
      st' = set_globals (maintainerAddress st) cf pf (totalClaims st) (lastDropId st) st
  | OptinAsset p a =>
      pay_receiver p = appAddress ctx /\ pay_amount p = assetOptInMinBalance /\
      st' = after_optin ctx a (bump (pay_amount p) st) /\ minBalance st' <= appAlgo st'
  | CreateDrop p a cfg =>
      exists bal0,
        appAssets st !! Token cfg = Some bal0 /\ createCost st <= pay_amount p /\
        checkGatingInfo ctx cfg st = Ok (tt, st) /\
        0 < axfer_assetAmount a /\
        let stIn := set_assets (insert (Token cfg) (bal0 + axfer_assetAmount a))
                               (bump (pay_amount p) st) in
        match dropForToken st !! Token cfg with
        | None => st' = after_install ctx p a cfg stIn
        | Some old =>
            exists dOld,
              allDrops st !! old = Some dOld /\ Token (Config dOld) = Token cfg /\
              st' = after_install ctx p a cfg
                      (after_teardown ctx old dOld (bal0 + axfer_assetAmount a) stIn)
        end
  | CancelDrop id | CleanupDrop id =>
      exists d bal,
        allDrops st !! id = Some d /\ appAssets st !! Token (Config d) = Some bal /\
        st' = after_teardown ctx id d bal st
  | ClaimDrop p id v =>
      exists d bal,
        allDrops st !! id = Some d /\ appAssets st !! Token (Config d) = Some bal /\
        claimedMap st !! (id, txnSender ctx) = None /\
        pay_amount p = perClaimFeeAmount st /\
        st' = after_claim ctx id d bal (bump (pay_amount p) st)
  | ClaimClaimerBoxCost id a r =>
      exists d, allDrops st !! id = Some d /\ isDropExpiredOrEmpty ctx d = true /\
                st' = after_reclaim ctx id a r st /\ minBalance st' <= appAlgo st'
  | Deposit p => st' = credited ctx p st
  | DepositAsset a =>
      st' = st \/
      exists bal, appAssets st !! axfer_xferAsset a = Some bal /\
                  st' = set_assets (insert (axfer_xferAsset a) (bal + axfer_assetAmount a)) st
  end.
Proof.
  intros HI Hwf H. destruct c; simpl in H, Hwf.
  - unfold updateApplication in H. apply assert_Ok in H as [H ->].
    now apply bool_decide_eq_true in H.
  - unfold changeMaintainer in H. inv_run H. now apply bool_decide_eq_true in R.
  - unfold changeFees, getPerClaimerMbrCost in H. inv_run H.
    now apply bool_decide_eq_true in R.
  - rewrite optinAsset_eq in H. cbv zeta in H.
    destruct (bool_decide _) eqn:Hr; simpl in H; [| discriminate].
    destruct (_ =? _) eqn:Ha; simpl in H; [| discriminate].
    destruct (_ <=? _) eqn:Hm; [| discriminate]. injection H as <-.
    apply bool_decide_eq_true in Hr. repeat split; auto; lia.
  - apply bind_Ok in H as (id & s1 & H1 & H). apply ret_Ok in H as [_ ->].
    destruct (createDropGroup_cost _ _ _ _ _ _ _ HI H1) as (Hc & Hg & _).
    apply (createDropGroup_Ok _ _ _ _ _ _ _ HI) in H1
      as (bal0 & Hb0 & _ & _ & Hpos & _ & _ & Hrest).
    exists bal0. repeat split; auto.
    destruct (dropForToken st !! Token tokenDropConfig).
    + destruct Hrest as (dOld & ? & ? & _ & _ & _ & ->). eauto.
    + done.
  - unfold cancelDrop in H. apply bind_Ok in H as (d & s1 & H1 & H).
    apply readDrop_Ok in H1 as [_ ->].
    apply bind_Ok in H as (? & s2 & H2 & H). apply assert_Ok in H2 as [_ ->].
    apply (cleanupDrop_Inv _ _ _ _ _ HI) in H as (d' & bal & Hd & Hb & _ & ->). eauto.
  - apply claimDropGroup_inv in H as [H _].
    pose proof (Inv_credited ctx feeAndMbrPayment _ HI) as HI1.
    pose proof H as H'.
    apply claimDrop_inv in H' as (d & r & Hd & _ & _ & _ & Hn & _ & _ & _ & _ & Ha & _).
    apply (claimDrop_Inv _ _ _ _ _ _ _ (Inv_bump _ _ HI)) in H
      as (d' & bal & Hd' & Hb & _ & _ & ->).
    exists d', bal. repeat split; auto.
  - rewrite claimClaimerBoxCost_eq in H.
    destruct (allDrops st !! tokenDropId) as [d|]; [| discriminate].
    destruct (isDropExpiredOrEmpty ctx d) eqn:He; simpl in H; [| discriminate].
    destruct (_ <=? _) eqn:Hm; [| discriminate]. injection H as <-.
    exists d. repeat split; auto. apply Z.leb_le in Hm. exact Hm.
  - apply (cleanupDrop_Inv _ _ _ _ _ HI) in H as (d' & bal & Hd & Hb & _ & ->). eauto.
  - rewrite receivePayTxn_eq in H. now injection H as <-.
  - apply receiveAssetTransferTxn_Ok in H as [[_ ->] | [_ (bal & Hb & ->)]]; eauto.
Qed.

Lemma minBalance_credit_asset a bal x st :
  appAssets st !! a = Some bal ->
  minBalance (set_assets (insert a x) st) = minBalance st.
Proof.
  intros Hb. unfold minBalance. simpl. now rewrite (size_insert_old_Z _ _ _ _ Hb).
Qed.

Lemma fresh_drop_id st : Inv st -> allDrops st !! (lastDropId st + 1) = None.
Proof.
  intros HI. destruct (allDrops st !! (lastDropId st + 1)) as [d|] eqn:Hd; [| done].
  destruct (inv_drops _ HI _ _ Hd). lia.
Qed.

Lemma slack_step ctx c st st' :
  Inv st -> wf_call c -> exec ctx c st = Ok (tt, st') ->
  appAlgo st - minBalance st <= appAlgo st' - minBalance st'.
Proof.
  intros HI Hwf H. pose proof (exec_cases _ _ _ _ HI Hwf H) as Hc.
  destruct (inv_fees _ HI) as (Heven & [Hfee0 Hfee1] & [Hpf0 Hpf1]).
  assert (HM : perClaimerMbr = 31700) by reflexivity.
  destruct c; simpl in Hc, Hwf.
  - destruct Hc as [_ ->]. lia.
  - destruct Hc as [_ ->]. unfold minBalance. simpl. lia.
  - destruct Hc as [_ ->]. unfold minBalance. simpl. lia.
  - destruct Hc as (_ & Ha & -> & _). rewrite Ha. unfold after_optin. simpl.
    destruct (appAssets st !! assetId) eqn:Hb.
    + unfold minBalance, assetOptInMinBalance. simpl. case_decide; lia.
    + unfold minBalance, assetOptInMinBalance. simpl. rewrite (size_insert_new_Z _ _ _ Hb). lia.
  - destruct Hc as (bal0 & Hb0 & Hcost & _ & Hpos & Hrest). cbv zeta in Hrest.
    set (stIn := set_assets _ _) in Hrest.
    assert (HIn : Inv stIn).
    { apply Inv_credit_asset; [now apply Inv_bump | exact Hb0 | lia]. }
    assert (HmIn : minBalance stIn = minBalance st).
    { unfold stIn. now rewrite (minBalance_credit_asset _ bal0) by exact Hb0. }
    assert (HaIn : appAlgo stIn = appAlgo st + pay_amount feeAndMbrPayment) by reflexivity.
    destruct (dropForToken st !! Token tokenDropConfig) as [old|] eqn:Hix.
    + destruct Hrest as (dOld & HdOld & Htok & ->).
      set (bal1 := bal0 + axfer_assetAmount assetTxn).
      assert (Hb1 : appAssets stIn !! Token (Config dOld) = Some bal1).
      { rewrite Htok. unfold stIn. simpl. apply lookup_insert_eq. }
      assert (Hix1 : dropForToken stIn !! Token (Config dOld) = Some old) by now rewrite Htok.
      pose proof (minBalance_after_teardown ctx old dOld bal1 stIn old HdOld Hix1 Hb1) as Hm1.
      pose proof (cleanup_ok_algo ctx old dOld bal1 stIn) as Ha1.
      set (st0 := after_teardown ctx old dOld bal1 stIn) in *.
      assert (HI0 : Inv st0) by (eapply Inv_teardown; eauto).
      rewrite minBalance_after_install.
      2:{ apply (fresh_drop_id _ HI0). }
      2:{ unfold st0. simpl. rewrite Htok. apply lookup_delete_eq. }
      pose proof (appAlgo_after_install ctx feeAndMbrPayment assetTxn tokenDropConfig st0) as Ha0.
      change (creationFeeAmount st0) with (creationFeeAmount st) in Ha0.
      change (createCost st0) with (createCost st) in Ha0.
      specialize (Ha0 Hcost ltac:(lia) Heven). lia.
    + subst st'.
      rewrite minBalance_after_install.
      2:{ apply (fresh_drop_id _ HIn). }
      2:{ exact Hix. }
      pose proof (appAlgo_after_install ctx feeAndMbrPayment assetTxn tokenDropConfig stIn) as Ha0.
      change (creationFeeAmount stIn) with (creationFeeAmount st) in Ha0.
      change (createCost stIn) with (createCost st) in Ha0.
      specialize (Ha0 Hcost ltac:(lia) Heven). lia.
  - destruct Hc as (d & bal & Hd & Hb & ->).
    destruct (inv_drops _ HI _ _ Hd) as [_ _ _ _ _ _ Hix _].
    rewrite (minBalance_after_teardown _ _ _ _ _ _ Hd Hix Hb).
    pose proof (cleanup_ok_algo ctx tokenDropId d bal st). lia.
  - destruct Hc as (d & bal & Hd & Hb & Hn & Ha & ->).
    rewrite (minBalance_after_claim ctx tokenDropId d bal
               (bump (pay_amount feeAndMbrPayment) st) Hd Hb Hn).
    pose proof (appAlgo_after_claim ctx tokenDropId d bal (bump (pay_amount feeAndMbrPayment) st))
      as Hal.
    change (perClaimFeeAmount (bump (pay_amount feeAndMbrPayment) st))
      with (perClaimFeeAmount st) in Hal.
    change (appAlgo (bump (pay_amount feeAndMbrPayment) st))
      with (appAlgo st + pay_amount feeAndMbrPayment) in Hal.
    specialize (Hal ltac:(lia) ltac:(lia)).
    change (minBalance (bump (pay_amount feeAndMbrPayment) st)) with (minBalance st). lia.
  - destruct Hc as (d & _ & _ & -> & _). unfold after_reclaim.
    change (minBalance (set_account ?x (appAssets st) ?l (set_claimedMap ?f st)))
      with (minBalance (set_claimedMap f st)).
    rewrite minBalance_delete_receipt. simpl.
    pose proof (receiptRefund_nonneg (tokenDropId, claimerAddress) st). case_decide; lia.
  - destruct Hc as (d & bal & Hd & Hb & ->).
    destruct (inv_drops _ HI _ _ Hd) as [_ _ _ _ _ _ Hix _].
    rewrite (minBalance_after_teardown _ _ _ _ _ _ Hd Hix Hb).
    pose proof (cleanup_ok_algo ctx tokenDropId d bal st). lia.
  - subst st'. unfold credited. destruct (bool_decide _); [| lia].
    destruct Hwf. change (minBalance (bump (pay_amount payment) st)) with (minBalance st).
    simpl. lia.
  - destruct Hc as [-> | (bal & Hb & ->)]; [lia |].
    rewrite (minBalance_credit_asset _ bal) by exact Hb. simpl. lia.
Qed.

Lemma globals_step ctx c st st' :
  Inv st -> wf_call c -> exec ctx c st = Ok (tt, st') ->
  nfdRegistryAppId st' = nfdRegistryAppId st
  /\ match c with
     | UpdateApplication => txnSender ctx = appCreator ctx /\ st' = st
     | ChangeMaintainer a =>
         txnSender ctx = appCreator ctx /\ maintainerAddress st' = a /\
         creationFeeAmount st' = creationFeeAmount st /\
         perClaimFeeAmount st' = perClaimFeeAmount st
     | ChangeFees cf pf =>
         txnSender ctx = appCreator ctx /\ maintainerAddress st' = maintainerAddress st /\
         creationFeeAmount st' = cf /\ perClaimFeeAmount st' = pf
     | _ =>
         maintainerAddress st' = maintainerAddress st /\
         creationFeeAmount st' = creationFeeAmount st /\
         perClaimFeeAmount st' = perClaimFeeAmount st
     end.
Proof.
  intros HI Hwf H. pose proof (exec_cases _ _ _ _ HI Hwf H) as Hc.
  destruct c; simpl in Hc.
  - destruct Hc as [? ->]. auto.
  - destruct Hc as [? ->]. auto.
  - destruct Hc as [? ->]. auto.
  - destruct Hc as (_ & _ & -> & _). unfold after_optin. now destruct (_ !! _).
  - destruct Hc as (bal0 & _ & _ & _ & _ & Hrest). cbv zeta in Hrest.
    destruct (dropForToken st !! _); [destruct Hrest as (dOld & _ & _ & ->) | subst st']; auto.
  - destruct Hc as (d & bal & _ & _ & ->). auto.
  - destruct Hc as (d & bal & _ & _ & _ & _ & ->). auto.
  - destruct Hc as (d & _ & _ & -> & _). auto.
  - destruct Hc as (d & bal & _ & _ & ->). auto.
  - subst st'. unfold credited. now destruct (bool_decide _).
  - destruct Hc as [-> | (bal & _ & ->)]; auto.
Qed.

Lemma counters_step ctx c st st' :
  Inv st -> wf_call c -> exec ctx c st = Ok (tt, st') ->
  totalClaims st' = totalClaims st + (match c with ClaimDrop _ _ _ => 1 | _ => 0 end)
  /\ lastDropId st' = lastDropId st + (match c with CreateDrop _ _ _ => 1 | _ => 0 end).
Proof.
  intros HI Hwf H. pose proof (exec_cases _ _ _ _ HI Hwf H) as Hc.
  destruct c; simpl in Hc.
  - destruct Hc as [_ ->]. lia.
  - destruct Hc as [? ->]. simpl. lia.
  - destruct Hc as [? ->]. simpl. lia.
  - destruct Hc as (_ & _ & -> & _). unfold after_optin. destruct (_ !! _); simpl; lia.
  - destruct Hc as (bal0 & _ & _ & _ & _ & Hrest). cbv zeta in Hrest.
    destruct (dropForToken st !! _); [destruct Hrest as (dOld & _ & _ & ->) | subst st'];
      simpl; lia.
  - destruct Hc as (d & bal & _ & _ & ->). simpl. lia.
  - destruct Hc as (d & bal & _ & _ & _ & _ & ->). simpl. lia.
  - destruct Hc as (d & _ & _ & -> & _). simpl. lia.
  - destruct Hc as (d & bal & _ & _ & ->). simpl. lia.
  - subst st'. unfold credited. destruct (bool_decide _); simpl; lia.
  - destruct Hc as [-> | (bal & _ & ->)]; simpl; lia.
Qed.

Lemma Inv_receipts_ext st st' :
  Inv_receipts st ->
  allDrops st' = allDrops st -> claimedMap st' = claimedMap st ->
  lastDropId st' = lastDropId st ->
  Inv_receipts st'.
Proof. intros [H1 H2] Ea Ec El. split; rewrite ?Ea, ?Ec, ?El; auto. Qed.

Lemma Inv_receipts_teardown ctx id d bal st :
  Inv_receipts st -> Inv_receipts (after_teardown ctx id d bal st).
Proof.
  intros [H1 H2]. split; simpl; [exact H1 |].
  intros id' d' Hd'. apply lookup_delete_Some in Hd' as [_ Hd']. eauto.
Qed.

Lemma Inv_receipts_install ctx pay assetTxn cfg st :
  Inv_receipts st -> 0 <= lastDropId st ->
  checkGatingInfo ctx cfg st = Ok (tt, st) ->
  Inv_receipts (after_install ctx pay assetTxn cfg st).
Proof.
  intros [H1 H2] Hl Hg. apply checkGatingInfo_iff in Hg as (Hty & _ & Hage).
  split; simpl.
  - intros id a r Hr. specialize (H1 _ _ _ Hr). lia.
  - intros id d Hd. apply lookup_insert_Some in Hd as [[_ <-] | [_ Hd]]; [simpl; auto | eauto].
Qed.

Lemma exec_Inv_receipts ctx c st st' :
  Inv st -> Inv_receipts st -> wf_call c -> exec ctx c st = Ok (tt, st') -> Inv_receipts st'.
Proof.
  intros HI HR Hwf H. pose proof (exec_cases _ _ _ _ HI Hwf H) as Hc.
  destruct c; simpl in Hc.
  - destruct Hc as [_ ->]. done.
  - destruct Hc as [? ->]. eapply Inv_receipts_ext; eauto.
  - destruct Hc as [? ->]. eapply Inv_receipts_ext; eauto.
  - destruct Hc as (_ & _ & -> & _). eapply Inv_receipts_ext; eauto;
      unfold after_optin; now destruct (_ !! _).
  - destruct Hc as (bal0 & _ & _ & Hg & _ & Hrest). cbv zeta in Hrest.
    set (stIn := set_assets _ _) in Hrest.
    assert (HRin : Inv_receipts stIn) by (eapply Inv_receipts_ext; eauto).
    pose proof (inv_last _ HI) as Hl.
    destruct (dropForToken st !! _); [destruct Hrest as (dOld & _ & _ & ->) | subst st'].
    + apply Inv_receipts_install; [now apply Inv_receipts_teardown | exact Hl |].
      apply checkGatingInfo_iff. now apply checkGatingInfo_iff in Hg.
    + apply Inv_receipts_install; [exact HRin | exact Hl |].
      apply checkGatingInfo_iff. now apply checkGatingInfo_iff in Hg.
  - destruct Hc as (d & bal & _ & _ & ->). now apply Inv_receipts_teardown.
  - destruct Hc as (d & bal & Hd & _ & _ & _ & ->).
    destruct HR as [H1 H2]. split; simpl.
    + intros id a r Hr. apply lookup_insert_Some in Hr as [[[= <- <-] _] | [_ Hr]]; [| eauto].
      destruct (inv_drops _ HI _ _ Hd). lia.
    + intros id d' Hd'. apply lookup_insert_Some in Hd' as [[<- <-] | [_ Hd']]; [| eauto].
      simpl. eauto.
  - destruct Hc as (d & _ & _ & -> & _). destruct HR as [H1 H2]. split; simpl; [| exact H2].
    intros id a r Hr. apply lookup_delete_Some in Hr as [_ Hr]. eauto.
  - destruct Hc as (d & bal & _ & _ & ->). now apply Inv_receipts_teardown.
  - subst st'. eapply Inv_receipts_ext; eauto; unfold credited; now destruct (bool_decide _).
  - destruct Hc as [-> | (bal & _ & ->)]; [done |]. eapply Inv_receipts_ext; eauto.
Qed.

Lemma reachable_Inv_receipts self st : reachable self st -> Inv_receipts st.
Proof.
  induction 1 as [| st ctx c st' Hr IH _ Hwf Hex].
  - split; simpl.
    + intros id a r Hr. now rewrite lookup_empty in Hr.
    + intros id d Hd. now rewrite lookup_empty in Hd.
  - eapply exec_Inv_receipts; eauto. eapply reachable_Inv; eauto.
Qed.

(** * Further properties of the contract *)

(** X1. Every stored drop is fully funded: in every reachable state the
    application holds at least [AmountRemaining] units of the drop's token,
    so neither a claim nor the final refund can fail for lack of tokens. *)
Theorem drops_fully_funded self st id d :
  reachable self st -> allDrops st !! id = Some d ->
  exists bal, appAssets st !! Token (Config d) = Some bal
              /\ 0 <= AmountRemaining d <= bal.
Proof.
  intros Hr Hd. pose proof (reachable_Inv _ _ Hr) as HI.
  pose proof (inv_drops _ HI _ _ Hd) as Hok.
  pose proof (drop_ok_remaining _ _ _ Hok).
  destruct Hok as [_ _ _ _ _ _ _ (bal & Hb & Hle)]. exists bal. split; [done | lia].
Qed.

Lemma drops_fully_funded_witness :
  exists bal, appAssets demo_claimed !! Token (Config demo_drop_claimed) = Some bal
              /\ 0 <= AmountRemaining demo_drop_claimed <= bal.
Proof.
  exact (drops_fully_funded APP demo_claimed 1 demo_drop_claimed reachable_demo_claimed eq_refl).
Defined.

(** X2. No call lowers what the application account holds above its minimum
    balance: whatever a successful call pays out is covered by the payment
    that came with it or by the minimum balance it freed.  An account at or
    above its minimum balance stays there. *)
Theorem balance_above_minimum_never_decreases self ctx c st st' :
  reachable self st -> wf_call c -> exec ctx c st = Ok (tt, st') ->
  appAlgo st - minBalance st <= appAlgo st' - minBalance st'
  /\ (minBalance st <= appAlgo st -> minBalance st' <= appAlgo st').
Proof.
  intros Hr Hwf H.
  pose proof (slack_step _ _ _ _ (reachable_Inv _ _ Hr) Hwf H). split; lia.
Qed.

Lemma balance_above_minimum_never_decreases_witness :
  appAlgo demo_created - minBalance demo_created
  <= appAlgo demo_claimed - minBalance demo_claimed
  /\ (minBalance demo_created <= appAlgo demo_created ->
      minBalance demo_claimed <= appAlgo demo_claimed).
Proof.
  apply (balance_above_minimum_never_decreases APP (demo_ctx ALICE 6000)
           (ClaimDrop (mkPay ALICE APP 100000) 1 0) demo_created demo_claimed
           reachable_demo_created).
  - vm_compute. intuition discriminate.
  - vm_compute. reflexivity.
Defined.

(** X3. The fees and the maintainer address change only through
    [changeFees] and [changeMaintainer], and only when the application's
    creator calls them; [updateApplication] too is the creator's alone and
    changes nothing of the contract's storage; no call changes the NFD
    registry id. *)
Theorem fees_and_maintainer_change_only_by_creator self ctx c st st' :
  reachable self st -> wf_call c -> exec ctx c st = Ok (tt, st') ->
  nfdRegistryAppId st' = nfdRegistryAppId st
  /\ match c with
     | UpdateApplication => txnSender ctx = appCreator ctx /\ st' = st
     | ChangeMaintainer a =>
         txnSender ctx = appCreator ctx /\ maintainerAddress st' = a /\
         creationFeeAmount st' = creationFeeAmount st /\
         perClaimFeeAmount st' = perClaimFeeAmount st
     | ChangeFees cf pf =>
         txnSender ctx = appCreator ctx /\ maintainerAddress st' = maintainerAddress st /\
         creationFeeAmount st' = cf /\ perClaimFeeAmount st' = pf
     | _ =>
         maintainerAddress st' = maintainerAddress st /\
         creationFeeAmount st' = creationFeeAmount st /\
         perClaimFeeAmount st' = perClaimFeeAmount st
     end.
Proof. intros Hr. apply globals_step. eapply reachable_Inv; eauto. Qed.

Lemma fees_and_maintainer_change_only_by_creator_witness :
  nfdRegistryAppId demo_odd_fee = nfdRegistryAppId demo_created
  /\ (demo_ctx 1 5500).(txnSender) = (demo_ctx 1 5500).(appCreator)
  /\ maintainerAddress demo_odd_fee = maintainerAddress demo_created
  /\ creationFeeAmount demo_odd_fee = 10000000 /\ perClaimFeeAmount demo_odd_fee = 100001.
Proof.
  apply (fees_and_maintainer_change_only_by_creator APP (demo_ctx 1 5500)
           (ChangeFees 10000000 100001) demo_created demo_odd_fee reachable_demo_created).
  - vm_compute. intuition discriminate.
  - vm_compute. reflexivity.
Defined.

(** X4. The lifetime counters: [totalClaims] goes up by one on every
    successful [claimDrop] and is changed by nothing else (refunds of
    remaining tokens do not count); [lastDropId] goes up by one on every
    successful [createDrop] and is changed by nothing else. *)
Theorem counters_change_by_one self ctx c st st' :
  reachable self st -> wf_call c -> exec ctx c st = Ok (tt, st') ->
  totalClaims st' = totalClaims st + (match c with ClaimDrop _ _ _ => 1 | _ => 0 end)
  /\ lastDropId st' = lastDropId st + (match c with CreateDrop _ _ _ => 1 | _ => 0 end).
Proof. intros Hr. apply counters_step. eapply reachable_Inv; eauto. Qed.

Lemma counters_change_by_one_witness :
  totalClaims demo_claimed = totalClaims demo_created + 1
  /\ lastDropId demo_claimed = lastDropId demo_created + 0.
Proof.
  apply (counters_change_by_one APP (demo_ctx ALICE 6000)
           (ClaimDrop (mkPay ALICE APP 100000) 1 0) demo_created demo_claimed
           reachable_demo_created).
  - vm_compute. intuition discriminate.
  - vm_compute. reflexivity.
Defined.

(** X5. Receipts belong to drop ids that were handed out, so a drop that
    [createDrop] has just created has no receipt yet: a receipt left behind
    by an earlier drop never blocks a claim on a later one. *)
Theorem new_drop_has_no_receipts self ctx pay assetTxn cfg st id st' :
  reachable self st ->
  createDropGroup ctx pay assetTxn cfg st = Ok (id, st') ->
  (forall id' a r, claimedMap st !! (id', a) = Some r -> 0 < id' < id)
  /\ claimedMap st' = claimedMap st
  /\ forall a, claimedMap st' !! (id, a) = None.
Proof.
  intros Hr H. pose proof (reachable_Inv _ _ Hr) as HI.
  destruct (reachable_Inv_receipts _ _ Hr) as [Hrec _].
  apply (createDropGroup_Ok _ _ _ _ _ _ _ HI) in H
    as (bal0 & _ & _ & _ & _ & -> & _ & Hrest).
  assert (Hc : claimedMap st' = claimedMap st).
  { destruct (dropForToken st !! Token cfg);
      [destruct Hrest as (dOld & _ & _ & _ & _ & _ & ->) | subst st']; reflexivity. }
  split; [| split; [exact Hc |]].
  - intros id' a r Hk. specialize (Hrec _ _ _ Hk). lia.
  - intros a. rewrite Hc. destruct (claimedMap st !! (lastDropId st + 1, a)) eqn:Hk; [| done].
    specialize (Hrec _ _ _ Hk). lia.
Qed.

Lemma new_drop_has_no_receipts_witness :
  (forall id' a r, claimedMap demo_exhausted !! (id', a) = Some r -> 0 < id' < 2)
  /\ claimedMap demo_replaced = claimedMap demo_exhausted
  /\ forall a, claimedMap demo_replaced !! (2, a) = None.
Proof.
  exact (new_drop_has_no_receipts APP (demo_ctx CREATOR 6000) (mkPay CREATOR APP 10080600)
           (mkAxfer CREATOR APP TOKEN 2000) (demo_config 1000) demo_exhausted 2 demo_replaced
           reachable_demo_exhausted demo_replaced_run).
Defined.

(** X6. Every stored drop has a configuration that [checkGatingInfo]
    accepted: its gating type is one of the eight defined ones, and a
    holding-age gate asks for at least one day. *)
Theorem stored_gating_is_valid self st id d :
  reachable self st -> allDrops st !! id = Some d ->
  GATING_TYPE_NONE <= entryGatingType (Config d) <= GATING_TYPE_CONST_MAX
  /\ (entryGatingType (Config d) = GATING_TYPE_NFD_HOLDING_AGE ->
      0 < gatingAssetMinBalance (Config d)).
Proof. intros Hr Hd. exact (inv_gating _ (reachable_Inv_receipts _ _ Hr) _ _ Hd). Qed.

Lemma stored_gating_is_valid_witness :
  GATING_TYPE_NONE <= entryGatingType (Config demo_drop) <= GATING_TYPE_CONST_MAX
  /\ (entryGatingType (Config demo_drop) = GATING_TYPE_NFD_HOLDING_AGE ->
      0 < gatingAssetMinBalance (Config demo_drop)).
Proof.
  exact (stored_gating_is_valid APP demo_created 1 demo_drop reachable_demo_created eq_refl).
Defined.

(** X7. A claim that meets the conditions goes through.  In a reachable
    state, for a drop that still has tokens and whose end time has not
    passed (the end time itself included), a caller who is not the drop's
    creator, is opted in to the token, has no receipt, passes the gate and
    pays exactly the per-claim fee to the application receives
    [AmountPerClaim] tokens and a receipt.  (The account is at its minimum
    balance, and neither the fee times 500 nor the claim counter overflows;
    the ledger of this development refuses an inner payment only when it
    would take the application below its minimum balance.) *)
Theorem claimDrop_succeeds self ctx id v st d :
  reachable self st ->
  allDrops st !! id = Some d ->
  txnSender ctx <> DropCreator d ->
  0 < AmountRemaining d -> latestTimestamp ctx <= AirdropEndTime (Config d) ->
  isOptedInToAsset ctx st (txnSender ctx) (Token (Config d)) = true ->
  claimedMap st !! (id, txnSender ctx) = None ->
  doesClaimAccountMeetGating ctx id v st = Ok (tt, st) ->
  minBalance st <= appAlgo st ->
  perClaimFeeAmount st * 500 <= MAX_UINT64 -> totalClaims st < MAX_UINT64 ->
  exists st',
    claimDropGroup ctx (mkPay (txnSender ctx) (appAddress ctx) (perClaimFeeAmount st)) id v st
    = Ok (tt, st')
    /\ claimedMap st' !! (id, txnSender ctx) = Some (mkClaimed (txnID ctx))
    /\ allDrops st' !! id = Some (sentDrop d (AmountPerClaim (Config d)))
    /\ itxns st'
       = itxns st
         ++ [ItxnPay (maintainerAddress st) (maintainerPortion (perClaimFeeAmount st))
                     "TokenDrop fee";
             ItxnPay (feeSink ctx) (feeSinkPortion (perClaimFeeAmount st)) "TokenDrop fee";
             ItxnAxfer (Token (Config d)) (txnSender ctx) (AmountPerClaim (Config d)) None
                       EmptyString].
Proof.
  intros Hr Hd Hc Hrem Hend Hopt Hn Hg Hs Hm Ht.
  pose proof (reachable_Inv _ _ Hr) as HI.
  destruct (inv_drops _ HI _ _ Hd) as [_ _ _ _ _ _ _ (bal & Hb & _)].
  assert (Hexp : isDropExpiredOrEmpty ctx d = false).
  { unfold isDropExpiredOrEmpty. apply orb_false_iff. split; lia. }
  eexists. split.
  - exact (claimDrop_run ctx id v st d bal HI Hd Hb Hc Hexp Hopt Hn Hg Hs Hm Ht).
  - simpl. rewrite !lookup_insert_eq. repeat split.
Qed.

Lemma claimDrop_succeeds_witness :
  exists st',
    claimDropGroup (demo_ctx ALICE 609800) (mkPay ALICE APP 100000) 1 0 demo_created
    = Ok (tt, st')
    /\ claimedMap st' !! (1, ALICE) = Some (mkClaimed 777)
    /\ allDrops st' !! 1 = Some (sentDrop demo_drop 1000)
    /\ itxns st'
       = itxns demo_created
         ++ [ItxnPay MAINTAINER (maintainerPortion 100000) "TokenDrop fee";
             ItxnPay FEE_SINK (feeSinkPortion 100000) "TokenDrop fee";
             ItxnAxfer TOKEN ALICE 1000 None EmptyString].
Proof.
  apply (claimDrop_succeeds APP (demo_ctx ALICE 609800) 1 0 demo_created demo_drop
           reachable_demo_created eq_refl).
  - vm_compute. discriminate.
  - vm_compute. reflexivity.
  - vm_compute. discriminate.
  - reflexivity.
  - reflexivity.
  - vm_compute. reflexivity.
  - vm_compute. discriminate.
  - vm_compute. discriminate.
  - vm_compute. reflexivity.
Defined.

(** X8. [claimClaimerBoxCost] on a receipt.  Once the drop is expired or
    empty, anyone can have a claimer's receipt deleted: the rent of the
    receipt box, 31700 microAlgo, is paid to the receiver named in the call
    and nothing else of the drops changes.  A second call for the same
    claimer finds no receipt and pays 0.  (The account is at its minimum
    balance when the first call is made.) *)
Theorem claimClaimerBoxCost_refunds_receipt_rent ctx tokenDropId claimerAddress receiver st d r :
  allDrops st !! tokenDropId = Some d ->
  isDropExpiredOrEmpty ctx d = true ->
  claimedMap st !! (tokenDropId, claimerAddress) = Some r ->
  minBalance st <= appAlgo st ->
  exists st',
    claimClaimerBoxCost ctx tokenDropId claimerAddress receiver st = Ok (tt, st')
    /\ claimedMap st' = delete (tokenDropId, claimerAddress) (claimedMap st)
    /\ allDrops st' = allDrops st /\ dropForToken st' = dropForToken st
    /\ appAssets st' = appAssets st
    /\ itxns st' = itxns st ++ [ItxnPay receiver 31700 EmptyString]
    /\ minBalance st' = minBalance st - 31700
    /\ (receiver <> appAddress ctx -> appAlgo st' = appAlgo st - 31700)
    /\ forall ctx2 receiver2,
         isDropExpiredOrEmpty ctx2 d = true ->
         exists st2,
           claimClaimerBoxCost ctx2 tokenDropId claimerAddress receiver2 st' = Ok (tt, st2)
           /\ itxns st2 = itxns st' ++ [ItxnPay receiver2 0 EmptyString].
Proof.
  intros Hd Hexp Hr Hs.
  assert (Hrf : receiptRefund (tokenDropId, claimerAddress) st = 31700).
  { unfold receiptRefund. now rewrite Hr. }
  assert (Hm1 : minBalance (after_reclaim ctx tokenDropId claimerAddress receiver st)
                = minBalance st - 31700).
  { unfold after_reclaim.
    change (minBalance (set_account ?x (appAssets st) ?l (set_claimedMap ?f st)))
      with (minBalance (set_claimedMap f st)).
    rewrite minBalance_delete_receipt. lia. }
  exists (after_reclaim ctx tokenDropId claimerAddress receiver st).
  split; [| repeat split].
  - rewrite claimClaimerBoxCost_eq, Hd, Hexp. simpl.
    replace (_ <=? _) with true; [reflexivity |].
    symmetry. apply Z.leb_le. rewrite Hm1. unfold after_reclaim. simpl.
    rewrite Hrf. case_decide; lia.
  - unfold after_reclaim. simpl. now rewrite Hrf.
  - exact Hm1.
  - intros Hne. unfold after_reclaim. simpl. rewrite Hrf. now rewrite decide_False.
  - intros ctx2 receiver2 Hexp2.
    set (st1 := after_reclaim ctx tokenDropId claimerAddress receiver st).
    assert (Hgone : receiptRefund (tokenDropId, claimerAddress) st1 = 0).
    { unfold receiptRefund, st1. simpl. now rewrite lookup_delete_eq. }
    assert (Hs1 : minBalance st1 <= appAlgo st1).
    { unfold st1. rewrite Hm1. unfold after_reclaim. simpl. rewrite Hrf. case_decide; lia. }
    exists (after_reclaim ctx2 tokenDropId claimerAddress receiver2 st1).
    split.
    + rewrite claimClaimerBoxCost_eq.
      change (allDrops st1) with (allDrops st). rewrite Hd, Hexp2. simpl.
      replace (_ <=? _) with true; [reflexivity |].
      symmetry. apply Z.leb_le.
      unfold after_reclaim at 1.
      change (minBalance (set_account ?x (appAssets st1) ?l (set_claimedMap ?f st1)))
        with (minBalance (set_claimedMap f st1)).
      rewrite minBalance_delete_receipt, Hgone.
      assert (Ha1 : appAlgo st1
                    = if decide (receiver = appAddress ctx) then appAlgo st
                      else appAlgo st - receiptRefund (tokenDropId, claimerAddress) st)
        by reflexivity.
      rewrite Ha1 in Hs1. simpl. rewrite ?Hgone. repeat case_decide; lia.
    + unfold after_reclaim at 1. simpl itxns. now rewrite Hgone.
Qed.

Lemma claimClaimerBoxCost_refunds_receipt_rent_witness :
  exists st',
    claimClaimerBoxCost (demo_ctx CREATOR 6100) 1 ALICE CREATOR demo_exhausted = Ok (tt, st')
    /\ claimedMap st' = delete (1, ALICE) (claimedMap demo_exhausted)
    /\ allDrops st' = allDrops demo_exhausted /\ dropForToken st' = dropForToken demo_exhausted
    /\ appAssets st' = appAssets demo_exhausted
    /\ itxns st' = itxns demo_exhausted ++ [ItxnPay CREATOR 31700 EmptyString]
    /\ minBalance st' = minBalance demo_exhausted - 31700
    /\ (CREATOR <> appAddress (demo_ctx CREATOR 6100) ->
        appAlgo st' = appAlgo demo_exhausted - 31700)
    /\ forall ctx2 receiver2,
         isDropExpiredOrEmpty ctx2 (mkDrop 1 CREATOR 0 1 1 (demo_config 1000)) = true ->
         exists st2,
           claimClaimerBoxCost ctx2 1 ALICE receiver2 st' = Ok (tt, st2)
           /\ itxns st2 = itxns st' ++ [ItxnPay receiver2 0 EmptyString].
Proof.
  apply (claimClaimerBoxCost_refunds_receipt_rent (demo_ctx CREATOR 6100) 1 ALICE CREATOR
           demo_exhausted (mkDrop 1 CREATOR 0 1 1 (demo_config 1000)) (mkClaimed 777)).
  - reflexivity.
  - reflexivity.
  - reflexivity.
  - vm_compute. discriminate.
Defined.

(** X9. [claimClaimerBoxCost] needs the drop record, and needs it expired or
    empty: it fails while the drop is active, and it fails when there is no
    record for the id.  [cleanupDrop] deletes the record and leaves the
    receipts in place, so after a teardown no receipt of that drop can be
    turned back into its rent. *)
Theorem claimClaimerBoxCost_needs_terminal_drop :
  (forall ctx id a r st d,
      allDrops st !! id = Some d -> isDropExpiredOrEmpty ctx d = false ->
      claimClaimerBoxCost ctx id a r st = Err (AssertFailed "drop MUST be expired or empty!"))
  /\ (forall ctx id a r st,
        allDrops st !! id = None -> claimClaimerBoxCost ctx id a r st = Err BoxMissing)
  /\ (forall self ctx id st st',
        reachable self st -> cleanupDrop ctx id st = Ok (tt, st') ->
        claimedMap st' = claimedMap st
        /\ forall ctx2 a r, claimClaimerBoxCost ctx2 id a r st' = Err BoxMissing).
Proof.
  split; [| split].
  - intros ctx id a r st d Hd He. now rewrite claimClaimerBoxCost_eq, Hd, He.
  - intros ctx id a r st Hd. now rewrite claimClaimerBoxCost_eq, Hd.
  - intros self ctx id st st' Hr H.
    apply (cleanupDrop_Inv _ _ _ _ _ (reachable_Inv _ _ Hr)) in H as (d & bal & _ & _ & _ & ->).
    split; [reflexivity |]. intros ctx2 a r.
    rewrite claimClaimerBoxCost_eq. simpl. now rewrite lookup_delete_eq.
Qed.

Lemma claimClaimerBoxCost_needs_terminal_drop_witness :
  claimClaimerBoxCost (demo_ctx CREATOR 6000) 1 ALICE CREATOR demo_claimed
  = Err (AssertFailed "drop MUST be expired or empty!")
  /\ claimClaimerBoxCost (demo_ctx CREATOR 6000) 2 ALICE CREATOR demo_claimed = Err BoxMissing
  /\ claimedMap demo_cancelled = claimedMap demo_claimed
  /\ forall ctx2 a r, claimClaimerBoxCost ctx2 1 a r demo_cancelled = Err BoxMissing.
Proof.
  destruct claimClaimerBoxCost_needs_terminal_drop as (H1 & H2 & H3).
  split; [| split].
  - apply (H1 (demo_ctx CREATOR 6000) 1 ALICE CREATOR demo_claimed demo_drop_claimed);
      reflexivity.
  - apply H2. reflexivity.
  - apply (H3 APP (demo_ctx CREATOR 6000) 1 demo_claimed demo_cancelled reachable_demo_claimed).
    vm_compute. reflexivity.
Defined.

(** X10. Drop ids are never reused.  The counter of handed-out ids never
    goes down, and an id that was handed out and has no record (its drop was
    torn down) gets no record again, whatever is called. *)
Theorem drop_ids_never_reused self ctx c st st' id :
  reachable self st -> wf_call c -> exec ctx c st = Ok (tt, st') ->
  0 < id <= lastDropId st -> allDrops st !! id = None ->
  allDrops st' !! id = None /\ lastDropId st <= lastDropId st'.
Proof.
  intros Hr Hwf H Hid Hn. pose proof (reachable_Inv _ _ Hr) as HI.
  pose proof (counters_step _ _ _ _ HI Hwf H) as [_ Hl].
  split; [| destruct c; lia].
  pose proof (exec_cases _ _ _ _ HI Hwf H) as Hc.
  destruct c; simpl in Hc.
  - destruct Hc as [_ ->]. done.
  - destruct Hc as [? ->]. done.
  - destruct Hc as [? ->]. done.
  - destruct Hc as (_ & _ & -> & _). unfold after_optin.
    now destruct (appAssets _ !! assetId).
  - destruct Hc as (bal0 & _ & _ & _ & _ & Hrest). cbv zeta in Hrest.
    destruct (dropForToken st !! _); [destruct Hrest as (dOld & _ & _ & ->) | subst st'];
      simpl; rewrite lookup_insert_ne by lia; [| done].
    apply lookup_delete_None. now right.
  - destruct Hc as (d & bal & _ & _ & ->). simpl. apply lookup_delete_None. now right.
  - destruct Hc as (d & bal & Hd & _ & _ & _ & ->). simpl.
    rewrite lookup_insert_ne; [done |]. intros ->. simpl in Hd. congruence.
  - destruct Hc as (d & _ & _ & -> & _). done.
  - destruct Hc as (d & bal & _ & _ & ->). simpl. apply lookup_delete_None. now right.
  - subst st'. unfold credited. now destruct (bool_decide _).
  - destruct Hc as [-> | (bal & _ & ->)]; done.
Qed.

Lemma reachable_demo_cancelled : reachable APP demo_cancelled.
Proof.
  refine (reach_step APP demo_claimed (demo_ctx CREATOR 6000) (CancelDrop 1) demo_cancelled
            reachable_demo_claimed eq_refl I _).
  vm_compute. reflexivity.
Qed.

Lemma drop_ids_never_reused_witness :
  allDrops (after_optin (demo_ctx CREATOR 6200) TOKEN (bump 100000 demo_cancelled)) !! 1 = None
  /\ lastDropId demo_cancelled
     <= lastDropId (after_optin (demo_ctx CREATOR 6200) TOKEN (bump 100000 demo_cancelled)).
Proof.
  apply (drop_ids_never_reused APP (demo_ctx CREATOR 6200)
           (OptinAsset (mkPay CREATOR APP 100000) TOKEN) demo_cancelled _ 1
           reachable_demo_cancelled).
  - vm_compute. intuition discriminate.
  - vm_compute. reflexivity.
  - vm_compute. intuition discriminate.
  - reflexivity.
Defined.

(** X11. What [claimDrop] refuses before it looks at receipts or fees: an
    unknown drop id, the drop's own creator, and a caller who has not opted
    in to the token.  The contract never opts a claimer in and never sends a
    drop's tokens to its creator through a claim. *)
Theorem claimDrop_refusals :
  (forall ctx pay id v st,
      allDrops st !! id = None -> claimDropGroup ctx pay id v st = Err BoxMissing)
  /\ (forall ctx pay id v st d,
        allDrops st !! id = Some d -> txnSender ctx = DropCreator d ->
        claimDropGroup ctx pay id v st = Err (AssertFailed "drop creator cannot claim"))
  /\ (forall ctx pay id v st d,
        allDrops st !! id = Some d -> txnSender ctx <> DropCreator d ->
        isDropExpiredOrEmpty ctx d = false ->
        isOptedInToAsset ctx st (txnSender ctx) (Token (Config d)) = false ->
        claimDropGroup ctx pay id v st
        = Err (AssertFailed "claimant must already be opted-in to token!"))
  /\ (forall ctx pay id v st st',
        claimDropGroup ctx pay id v st = Ok (tt, st') ->
        exists d, allDrops st !! id = Some d /\ txnSender ctx <> DropCreator d
                  /\ isOptedInToAsset ctx st (txnSender ctx) (Token (Config d)) = true
                  /\ pay_sender pay = txnSender ctx /\ pay_receiver pay = appAddress ctx).
Proof.
  split; [| split; [| split]].
  - intros ctx pay id v st Hd. unfold claimDropGroup.
    erewrite bind_run; [| apply receivePayTxn_eq]. unfold claimDrop.
    apply bind_Err. unfold readDrop.
    replace (allDrops (credited ctx pay st)) with (allDrops st)
      by (unfold credited; now destruct (bool_decide _)).
    now rewrite Hd.
  - intros ctx pay id v st d Hd Hc. unfold claimDropGroup.
    erewrite bind_run; [| apply receivePayTxn_eq]. unfold claimDrop.
    erewrite bind_run.
    2:{ apply readDrop_run. unfold credited. destruct (bool_decide _); exact Hd. }
    apply bind_Err. apply assert_false. apply negb_false_iff. now apply bool_decide_eq_true.
  - intros ctx pay id v st d Hd Hc He Ho. unfold claimDropGroup.
    erewrite bind_run; [| apply receivePayTxn_eq]. unfold claimDrop.
    erewrite bind_run.
    2:{ apply readDrop_run. unfold credited. destruct (bool_decide _); exact Hd. }
    erewrite bind_run;
      [| apply assert_true; apply negb_true_iff; now apply bool_decide_eq_false].
    erewrite bind_run; [| apply assert_true; now rewrite He].
    erewrite bind_run; [| reflexivity].
    apply bind_Err. apply assert_false.
    unfold credited. destruct (bool_decide _); exact Ho.
  - intros ctx pay id v st st' H.
    apply claimDropGroup_inv in H as [H Hrecv].
    apply claimDrop_inv in H as (d & r & Hd & Hc & _ & Ho & _ & _ & _ & _ & Hs & _).
    exists d. repeat split; auto.
Qed.

Lemma claimDrop_refusals_witness :
  claimDropGroup (demo_ctx ALICE 6000) (mkPay ALICE APP 100000) 2 0 demo_created
  = Err BoxMissing
  /\ claimDropGroup (demo_ctx CREATOR 6000) (mkPay CREATOR APP 100000) 1 0 demo_created
     = Err (AssertFailed "drop creator cannot claim")
  /\ exists d, allDrops demo_created !! 1 = Some d /\ ALICE <> DropCreator d.
Proof.
  destruct claimDrop_refusals as (H1 & H2 & _ & H4).
  split; [| split].
  - apply H1. reflexivity.
  - apply (H2 _ _ _ _ _ demo_drop); reflexivity.
  - destruct (H4 (demo_ctx ALICE 6000) (mkPay ALICE APP 100000) 1 0 demo_created demo_claimed)
      as (d & Hd & Hc & _).
    + vm_compute. reflexivity.
    + exists d. split; [exact Hd | exact Hc].
Defined.

(** X12. [optinAsset] takes exactly the asset opt-in minimum balance, paid
    to the application.  If the application does not hold the asset yet it
    opts in (a holding of 0 appears and the minimum balance rises by the
    amount paid); if it already holds the asset nothing changes and the
    payment is sent back to the caller.  Either way the application holds
    the asset afterwards and every holding it had is unchanged. *)
Theorem optinAsset_effect ctx mbrPayment assetId st st' :
  optinAssetGroup ctx mbrPayment assetId st = Ok (tt, st') ->
  pay_receiver mbrPayment = appAddress ctx
  /\ pay_amount mbrPayment = assetOptInMinBalance
  /\ (forall a bal, appAssets st !! a = Some bal -> appAssets st' !! a = Some bal)
  /\ allDrops st' = allDrops st /\ dropForToken st' = dropForToken st
  /\ claimedMap st' = claimedMap st
  /\ match appAssets st !! assetId with
     | None =>
         appAssets st' = <[assetId := 0]> (appAssets st)
         /\ minBalance st' = minBalance st + assetOptInMinBalance
         /\ appAlgo st' = appAlgo st + assetOptInMinBalance
         /\ itxns st' = itxns st ++ [ItxnAxfer assetId (appAddress ctx) 0 None EmptyString]
     | Some _ =>
         appAssets st' = appAssets st
         /\ itxns st' = itxns st ++ [ItxnPay (txnSender ctx) assetOptInMinBalance "optin refund"]
         /\ (txnSender ctx <> appAddress ctx -> appAlgo st' = appAlgo st)
     end.
Proof.
  intros H. rewrite optinAsset_eq in H. cbv zeta in H.
  destruct (bool_decide _) eqn:Hr; simpl in H; [| discriminate].
  destruct (_ =? _) eqn:Ha; simpl in H; [| discriminate].
  destruct (_ <=? _) eqn:Hm; [| discriminate]. injection H as <-.
  apply bool_decide_eq_true in Hr. apply Z.eqb_eq in Ha.
  unfold after_optin. simpl.
  destruct (appAssets st !! assetId) as [b|] eqn:Hb; simpl.
  - repeat split; auto. intros Hne. rewrite decide_False by done. lia.
  - repeat split; auto; try lia.
    + intros a bal Ha'. rewrite lookup_insert_ne; [done | congruence].
    + unfold minBalance. simpl. rewrite (size_insert_new_Z _ _ _ Hb). lia.
Qed.

Lemma optinAsset_effect_witness :
  appAssets demo_ready = <[TOKEN := 0]> (appAssets (bump 100000 (createApplication 1 MAINTAINER)))
  /\ appAlgo demo_ready = appAlgo (bump 100000 (createApplication 1 MAINTAINER)) + 100000.
Proof.
  destruct (optinAsset_effect (demo_ctx CREATOR 5000) (mkPay CREATOR APP 100000) TOKEN
              (bump 100000 (createApplication 1 MAINTAINER)) demo_ready)
    as (_ & _ & _ & _ & _ & _ & H).
  - vm_compute. reflexivity.
  - simpl in H. destruct H as (H1 & _ & H3 & _). split; [exact H1 | exact H3].
Defined.

(** X13. What [createDrop] demands of its arguments.  It succeeds only if
    the asset transfer goes to the application, moves a positive amount of
    the configured token, the application is opted in to that token, the
    amount per claim is not zero, not above the amount and divides it, and
    the payment goes to the application and covers [getDropCreateCost].
    With an amount per claim of 0 the divisibility test divides by zero:
    the call panics where the checks before it pass. *)
Theorem createDrop_argument_checks :
  (forall self ctx pay assetTxn cfg st id st',
      reachable self st ->
      createDropGroup ctx pay assetTxn cfg st = Ok (id, st') ->
      axfer_assetReceiver assetTxn = appAddress ctx
      /\ 0 < axfer_assetAmount assetTxn
      /\ axfer_xferAsset assetTxn = Token cfg
      /\ is_Some (appAssets st !! Token cfg)
      /\ AmountPerClaim cfg <> 0
      /\ AmountPerClaim cfg <= axfer_assetAmount assetTxn
      /\ axfer_assetAmount assetTxn mod AmountPerClaim cfg = 0
      /\ pay_receiver pay = appAddress ctx
      /\ createCost st <= pay_amount pay)
  /\ (forall ctx pay assetTxn cfg st,
        axfer_assetReceiver assetTxn = appAddress ctx ->
        0 < axfer_assetAmount assetTxn ->
        axfer_xferAsset assetTxn = Token cfg ->
        isOptedInToAsset ctx st (appAddress ctx) (Token cfg) = true ->
        AmountPerClaim cfg = 0 ->
        createDrop ctx pay assetTxn cfg st = Err DivideByZero).
Proof.
  split.
  - intros self ctx pay assetTxn cfg st id st' Hr H.
    pose proof (reachable_Inv _ _ Hr) as HI.
    destruct (createDropGroup_cost _ _ _ _ _ _ _ HI H) as (Hc & _ & Hne & Hle & Hmod & Htok).
    apply (createDropGroup_Ok _ _ _ _ _ _ _ HI) in H
      as (bal0 & Hb0 & Hp & Ha & Hpos & _).
    repeat split; eauto.
  - intros ctx pay assetTxn cfg st Hr Hpos Htok Ho H0. unfold createDrop.
    erewrite bind_run; [| apply assert_true; now apply bool_decide_eq_true].
    erewrite bind_run; [| apply assert_true; lia].
    erewrite bind_run; [| apply assert_true; lia].
    erewrite bind_run; [| reflexivity].
    erewrite bind_run; [| apply assert_true; now rewrite Htok].
    erewrite bind_run; [| apply assert_true; lia].
    erewrite bind_run; [| apply assert_true; lia].
    apply bind_Err. unfold mod64. now rewrite H0.
Qed.

Lemma createDrop_argument_checks_witness :
  (0 < axfer_assetAmount (mkAxfer CREATOR APP TOKEN 4000)
   /\ AmountPerClaim (demo_config 1000) <> 0
   /\ createCost demo_ready <= 10080600)
  /\ createDrop (demo_ctx CREATOR 5000) (mkPay CREATOR APP 10080600)
                (mkAxfer CREATOR APP TOKEN 4000) (demo_config 0) demo_ready
     = Err DivideByZero.
Proof.
  destruct createDrop_argument_checks as [H1 H2]. split.
  - destruct (H1 APP (demo_ctx CREATOR 5000) (mkPay CREATOR APP 10080600)
                (mkAxfer CREATOR APP TOKEN 4000) (demo_config 1000) demo_ready 1 demo_created
                reachable_demo_ready demo_created_run)
      as (_ & Ha & _ & _ & Hb & _ & _ & _ & Hc).
    repeat split; assumption.
  - apply H2; reflexivity.
Defined.

(** X14. [getDropInfo] reads the registry and changes nothing.  It returns
    the record [createDrop] stored under the id it returned, and fails for an
    id without a record, as after [cleanupDrop] of that id. *)
Theorem getDropInfo_round_trip :
  (forall id st r st', getDropInfo id st = Ok (r, st') -> st' = st /\ allDrops st !! id = Some r)
  /\ (forall self ctx pay assetTxn cfg st id st',
        reachable self st ->
        createDropGroup ctx pay assetTxn cfg st = Ok (id, st') ->
        getDropInfo id st'
        = Ok (mkDrop id (axfer_sender assetTxn) (axfer_assetAmount assetTxn)
                     (axfer_assetAmount assetTxn / AmountPerClaim cfg) 0 cfg, st'))
  /\ (forall self ctx id st st',
        reachable self st -> cleanupDrop ctx id st = Ok (tt, st') ->
        getDropInfo id st' = Err BoxMissing).
Proof.
  split; [| split].
  - intros id st r st' H. unfold getDropInfo in H. apply readDrop_Ok in H as [H ->]. auto.
  - intros self ctx pay assetTxn cfg st id st' Hr H.
    apply (createDropGroup_Ok _ _ _ _ _ _ _ (reachable_Inv _ _ Hr)) in H
      as (bal0 & _ & _ & _ & _ & -> & _ & Hrest).
    unfold getDropInfo. apply readDrop_run.
    destruct (dropForToken st !! Token cfg);
      [destruct Hrest as (dOld & _ & _ & _ & _ & _ & ->) | subst st'];
      simpl; apply lookup_insert_eq.
  - intros self ctx id st st' Hr H.
    apply (cleanupDrop_Inv _ _ _ _ _ (reachable_Inv _ _ Hr)) in H as (d & bal & _ & _ & _ & ->).
    unfold getDropInfo, readDrop. simpl. now rewrite lookup_delete_eq.
Qed.

Lemma getDropInfo_round_trip_witness :
  getDropInfo 1 demo_created = Ok (demo_drop, demo_created)
  /\ getDropInfo 1 demo_cancelled = Err BoxMissing.
Proof.
  destruct getDropInfo_round_trip as (_ & H2 & H3). split.
  - exact (H2 APP (demo_ctx CREATOR 5000) (mkPay CREATOR APP 10080600)
              (mkAxfer CREATOR APP TOKEN 4000) (demo_config 1000) demo_ready 1 demo_created
              reachable_demo_ready demo_created_run).
  - apply (H3 APP (demo_ctx CREATOR 6000) 1 demo_claimed demo_cancelled reachable_demo_claimed).
    vm_compute. reflexivity.
Defined.

(** X15. The fee getters answer with what [changeFees] stored: after a
    successful [changeFees creationFee perClaimFee], [getPerClaimerFee]
    returns [perClaimFee] and [getDropCreateCost] returns [creationFee] plus
    the rent of the two boxes of a drop, 80600 microAlgo (or overflows);
    [getPerClaimerMbrCost] is 31700 whatever the fees are. *)
Theorem fee_getters_after_changeFees ctx creationFee perClaimFee st st' :
  changeFees ctx creationFee perClaimFee st = Ok (tt, st') ->
  getPerClaimerFee st' = Ok (perClaimFee, st')
  /\ getPerClaimerMbrCost st' = Ok (31700, st')
  /\ getDropCreateCost st'
     = if creationFee + 80600 <=? MAX_UINT64 then Ok (creationFee + 80600, st')
       else Err Overflow.
Proof.
  intros H. unfold changeFees, getPerClaimerMbrCost in H. inv_run H.
  repeat split.
  unfold getDropCreateCost. unfold bind at 1. unfold gets. simpl.
  change (costForBoxStorage (1 + len_uint64 + len_TokenDropInfo)) with 70500.
  change (costForBoxStorage (3 + len_uint64 + len_uint64)) with 10100.
  unfold add64, bind, ret, fail.
  assert (HM : MAX_UINT64 = 18446744073709551615) by reflexivity.
  destruct (creationFee + 70500 <=? MAX_UINT64) eqn:E1;
    destruct (creationFee + 70500 + 10100 <=? MAX_UINT64) eqn:E2;
    destruct (creationFee + 80600 <=? MAX_UINT64) eqn:E3; try lia; try reflexivity.
  do 2 f_equal. lia.
Qed.

Lemma fee_getters_after_changeFees_witness :
  getPerClaimerFee demo_odd_fee = Ok (100001, demo_odd_fee)
  /\ getPerClaimerMbrCost demo_odd_fee = Ok (31700, demo_odd_fee)
  /\ getDropCreateCost demo_odd_fee
     = if 10000000 + 80600 <=? MAX_UINT64 then Ok (10000000 + 80600, demo_odd_fee)
       else Err Overflow.
Proof.
  apply (fee_getters_after_changeFees (demo_ctx 1 5500) 10000000 100001 demo_created).
  vm_compute. reflexivity.
Defined.

(** X16. A claim and a teardown touch one drop.  [claimDrop] on a drop
    leaves every other drop record, the token index, every other receipt
    and the holdings of every other token as they were; [cleanupDrop]
    leaves every other drop record, every receipt (those of the drop it
    removes included), the index entries and the holdings of every other
    token as they were. *)
Theorem calls_touch_one_drop :
  (forall self ctx pay id v st st',
      reachable self st -> claimDropGroup ctx pay id v st = Ok (tt, st') ->
      (forall id', id' <> id -> allDrops st' !! id' = allDrops st !! id')
      /\ dropForToken st' = dropForToken st
      /\ (forall k, k <> (id, txnSender ctx) -> claimedMap st' !! k = claimedMap st !! k)
      /\ exists d, allDrops st !! id = Some d
                   /\ forall a, a <> Token (Config d) -> appAssets st' !! a = appAssets st !! a)
  /\ (forall self ctx id st st',
        reachable self st -> cleanupDrop ctx id st = Ok (tt, st') ->
        (forall id', id' <> id -> allDrops st' !! id' = allDrops st !! id')
        /\ claimedMap st' = claimedMap st
        /\ exists d, allDrops st !! id = Some d
                     /\ (forall tok, tok <> Token (Config d) ->
                                     dropForToken st' !! tok = dropForToken st !! tok)
                     /\ (forall a, a <> Token (Config d) ->
                                   appAssets st' !! a = appAssets st !! a)).
Proof.
  split.
  - intros self ctx pay id v st st' Hr H. pose proof (reachable_Inv _ _ Hr) as HI.
    apply claimDropGroup_inv in H as [H _].
    apply (claimDrop_Inv _ _ _ _ _ _ _ (Inv_bump _ _ HI)) in H
      as (d & bal & Hd & Hb & _ & _ & ->).
    simpl. repeat split.
    + intros id' Hne. now rewrite lookup_insert_ne.
    + intros k Hne. now rewrite lookup_insert_ne.
    + exists d. split; [exact Hd |]. intros a Hne. now rewrite lookup_insert_ne.
  - intros self ctx id st st' Hr H.
    apply (cleanupDrop_Inv _ _ _ _ _ (reachable_Inv _ _ Hr)) in H
      as (d & bal & Hd & Hb & _ & ->).
    simpl. repeat split.
    + intros id' Hne. now rewrite lookup_delete_ne.
    + exists d. split; [exact Hd |]. split.
      * intros tok Hne. now rewrite lookup_delete_ne.
      * intros a Hne. destruct (_ =? 0);
          [now rewrite lookup_delete_ne | now rewrite lookup_insert_ne].
Qed.

Lemma calls_touch_one_drop_witness :
  (forall id', id' <> 1 -> allDrops demo_claimed !! id' = allDrops demo_created !! id')
  /\ dropForToken demo_claimed = dropForToken demo_created
  /\ claimedMap demo_cancelled = claimedMap demo_claimed.
Proof.
  destruct calls_touch_one_drop as [H1 H2].
  destruct (H1 APP (demo_ctx ALICE 6000) (mkPay ALICE APP 100000) 1 0 demo_created demo_claimed
              reachable_demo_created) as (Ha & Hb & _).
  { vm_compute. reflexivity. }
  destruct (H2 APP (demo_ctx CREATOR 6000) 1 demo_claimed demo_cancelled reachable_demo_claimed)
    as (_ & Hc & _).
  { vm_compute. reflexivity. }
  split; [exact Ha | split; [exact Hb | exact Hc]].
Defined.

(** ** Gating *)

(** X17. The asset-id gate ([GATING_TYPE_ASSET_ID]).  A claimer passes with
    the asset id [v] exactly when [v] is not 0, is one of the configured
    gating assets, and the claimer holds at least the configured minimum of
    it, or at least 1 when the minimum is 0.  The zero padding of the list of
    gating assets admits nobody. *)
Theorem gate_asset_id ctx id v st d :
  allDrops st !! id = Some d ->
  entryGatingType (Config d) = GATING_TYPE_ASSET_ID ->
  doesClaimAccountMeetGating ctx id v st = Ok (tt, st)
  <-> v <> 0 /\ balRequired (Config d) <= assetBalance ctx st (txnSender ctx) v
      /\ In v (entryGatingAssets (Config d)).
Proof.
  intros Hd Hty. gate_start Hd Hty. unfold balRequired. run_bool.
  destruct (v =? 0) eqn:Ev; simpl; [apply Z.eqb_eq in Ev; intuition discriminate |].
  apply Z.eqb_neq in Ev.
  destruct (_ <=? assetBalance _ _ _ _) eqn:Eb; simpl; [| intuition (try discriminate; lia)].
  destruct (existsb _ _) eqn:Ex; simpl.
  - apply existsb_exists in Ex as (x & Hin & Hx). apply Z.eqb_eq in Hx. subst x.
    intuition lia.
  - split; [discriminate |]. intros (_ & _ & Hin). exfalso.
    assert (existsb (fun assetId => v =? assetId) (entryGatingAssets (Config d)) = true).
    { apply existsb_exists. exists v. split; [done | apply Z.eqb_refl]. }
    congruence.
Qed.

Lemma gate_asset_id_witness :
  doesClaimAccountMeetGating gate_ctx 1 GATE_ASSET (gated_state 2 0 [GATE_ASSET; 0; 0; 0] 0)
  = Ok (tt, gated_state 2 0 [GATE_ASSET; 0; 0; 0] 0).
Proof.
  apply (gate_asset_id gate_ctx 1 GATE_ASSET (gated_state 2 0 [GATE_ASSET; 0; 0; 0] 0)
           (mkDrop 1 CREATOR 4000 4 0
                   (mkConfig TOKEN 1000 (5000 + 7 * 86400) 2 0 [GATE_ASSET; 0; 0; 0] 0))
           eq_refl eq_refl).
  split; [vm_compute; discriminate | split; [vm_compute; discriminate | now left]].
Defined.

(** X18. The created-by gate ([GATING_TYPE_ASSETS_CREATED_BY]).  A claimer
    passes with the asset id [v] exactly when [v] is not 0, the claimer
    holds at least the required balance of it (1 when none is configured),
    and the creator of the asset is the configured gating address. *)
Theorem gate_assets_created_by ctx id v st d :
  allDrops st !! id = Some d ->
  entryGatingType (Config d) = GATING_TYPE_ASSETS_CREATED_BY ->
  doesClaimAccountMeetGating ctx id v st = Ok (tt, st)
  <-> v <> 0 /\ balRequired (Config d) <= assetBalance ctx st (txnSender ctx) v
      /\ assetCreatorOf ctx v = entryGatingAddress (Config d).
Proof.
  intros Hd Hty. gate_start Hd Hty. unfold balRequired. run_bool.
  destruct (v =? 0) eqn:Ev; simpl; [apply Z.eqb_eq in Ev; intuition discriminate |].
  apply Z.eqb_neq in Ev.
  destruct (_ <=? assetBalance _ _ _ _) eqn:Eb; simpl; [| intuition (try discriminate; lia)].
  destruct (assetCreatorOf ctx v =? _) eqn:Ec; simpl.
  - apply Z.eqb_eq in Ec. intuition lia.
  - apply Z.eqb_neq in Ec. intuition discriminate.
Qed.

Lemma gate_assets_created_by_witness :
  doesClaimAccountMeetGating gate_ctx 1 GATE_ASSET (gated_state 1 CREATOR [0; 0; 0; 0] 5)
  = Ok (tt, gated_state 1 CREATOR [0; 0; 0; 0] 5).
Proof.
  apply (gate_assets_created_by gate_ctx 1 GATE_ASSET (gated_state 1 CREATOR [0; 0; 0; 0] 5)
           (mkDrop 1 CREATOR 4000 4 0
                   (mkConfig TOKEN 1000 (5000 + 7 * 86400) 1 CREATOR [0; 0; 0; 0] 5))
           eq_refl eq_refl).
  split; [vm_compute; discriminate | split; [vm_compute; discriminate | reflexivity]].
Defined.

(** X19. The NFD-addresses gate ([GATING_TYPE_CREATED_BY_NFD_ADDRESSES]).
    A claimer passes with the asset id [v] exactly when [v] is not 0, the
    claimer holds the required balance of it, and the creator of the asset
    is one of the addresses linked in the gating NFD (the first gating
    asset); a zero address among the linked addresses matches no creator. *)
Theorem gate_created_by_nfd_addresses ctx id v st d :
  allDrops st !! id = Some d ->
  entryGatingType (Config d) = GATING_TYPE_CREATED_BY_NFD_ADDRESSES ->
  doesClaimAccountMeetGating ctx id v st = Ok (tt, st)
  <-> v <> 0 /\ balRequired (Config d) <= assetBalance ctx st (txnSender ctx) v
      /\ assetCreatorOf ctx v <> zeroAddress
      /\ In (assetCreatorOf ctx v)
            (nfdCaAlgo ctx (default 0 (entryGatingAssets (Config d) !! 0%nat))).
Proof.
  intros Hd Hty. gate_start Hd Hty. unfold balRequired.
  rewrite <-isAddressInNFDCAAlgoList_iff. run_bool.
  destruct (v =? 0) eqn:Ev; simpl; [apply Z.eqb_eq in Ev; intuition discriminate |].
  apply Z.eqb_neq in Ev.
  destruct (_ <=? assetBalance _ _ _ _) eqn:Eb; simpl; [| intuition (try discriminate; lia)].
  destruct (isAddressInNFDCAAlgoList _ _ _) eqn:El; simpl.
  - intuition lia.
  - intuition discriminate.
Qed.

Lemma gate_created_by_nfd_addresses_witness :
  doesClaimAccountMeetGating gate_ctx 1 GATE_ASSET (gated_state 3 0 [NFD_ROOT; 0; 0; 0] 0)
  = Ok (tt, gated_state 3 0 [NFD_ROOT; 0; 0; 0] 0).
Proof.
  apply (gate_created_by_nfd_addresses gate_ctx 1 GATE_ASSET
           (gated_state 3 0 [NFD_ROOT; 0; 0; 0] 0)
           (mkDrop 1 CREATOR 4000 4 0
                   (mkConfig TOKEN 1000 (5000 + 7 * 86400) 3 0 [NFD_ROOT; 0; 0; 0] 0))
           eq_refl eq_refl).
  split; [vm_compute; discriminate |].
  split; [vm_compute; discriminate |].
  split; [vm_compute; discriminate | right; now left].
Defined.

(** X20. The segment gate ([GATING_TYPE_SEGMENT_OF_NFD]).  A claimer passes
    with the NFD app id [v] exactly when the registry confirms [v], the
    claimer is its owner or one of its linked addresses, and its parent is
    the gating NFD (the first gating asset). *)
Theorem gate_segment_of_nfd ctx id v st d :
  allDrops st !! id = Some d ->
  entryGatingType (Config d) = GATING_TYPE_SEGMENT_OF_NFD ->
  doesClaimAccountMeetGating ctx id v st = Ok (tt, st)
  <-> registryIsValidNfdAppId ctx (nfdRegistryAppId st) v = true
      /\ (nfdOwner ctx v = txnSender ctx
          \/ (txnSender ctx <> zeroAddress /\ In (txnSender ctx) (nfdCaAlgo ctx v)))
      /\ nfdParentAppID ctx v = default 0 (entryGatingAssets (Config d) !! 0%nat).
Proof.
  intros Hd Hty. gate_start Hd Hty.
  rewrite <-isAddressInNFDCAAlgoList_iff. unfold isNfdAppIdValid. run_bool.
  destruct (registryIsValidNfdAppId _ _ _); simpl; [| intuition discriminate].
  assert (Ho : (nfdOwner ctx v =? txnSender ctx) = true <-> nfdOwner ctx v = txnSender ctx)
    by apply Z.eqb_eq.
  assert (Hp : (nfdParentAppID ctx v =? default 0 (entryGatingAssets (Config d) !! 0%nat)) = true
               <-> nfdParentAppID ctx v = default 0 (entryGatingAssets (Config d) !! 0%nat))
    by apply Z.eqb_eq.
  destruct (nfdOwner ctx v =? txnSender ctx);
    destruct (isAddressInNFDCAAlgoList ctx v (txnSender ctx)); simpl;
    destruct (nfdParentAppID ctx v =? _); simpl;
    intuition (try discriminate; try congruence).
Qed.

Lemma gate_segment_of_nfd_witness :
  doesClaimAccountMeetGating gate_ctx 1 NFD_SEG (gated_state 4 0 [NFD_ROOT; 0; 0; 0] 0)
  = Ok (tt, gated_state 4 0 [NFD_ROOT; 0; 0; 0] 0).
Proof.
  apply (gate_segment_of_nfd gate_ctx 1 NFD_SEG (gated_state 4 0 [NFD_ROOT; 0; 0; 0] 0)
           (mkDrop 1 CREATOR 4000 4 0
                   (mkConfig TOKEN 1000 (5000 + 7 * 86400) 4 0 [NFD_ROOT; 0; 0; 0] 0))
           eq_refl eq_refl).
  split; [reflexivity | split; [left; reflexivity | reflexivity]].
Defined.

(** X21. The verified-handle gates ([GATING_TYPE_NFD_W_VERIFIED_TWITTER] and
    [GATING_TYPE_NFD_W_VERIFIED_BLUESKY]).  A claimer passes with the NFD
    app id [v] exactly when [v] passes [checkValidV3NfdAndOwnedByClaimer]
    for the claimer and its verified field, [v.twitter] or [v.blueskydid],
    is not empty. *)
Theorem gate_verified_field ctx id v st d :
  allDrops st !! id = Some d ->
  (entryGatingType (Config d) = GATING_TYPE_NFD_W_VERIFIED_TWITTER ->
   doesClaimAccountMeetGating ctx id v st = Ok (tt, st)
   <-> checkValidV3NfdAndOwnedByClaimer ctx v (txnSender ctx) st = Ok (tt, st)
       /\ nfdReadField ctx v "v.twitter" <> EmptyString)
  /\ (entryGatingType (Config d) = GATING_TYPE_NFD_W_VERIFIED_BLUESKY ->
      doesClaimAccountMeetGating ctx id v st = Ok (tt, st)
      <-> checkValidV3NfdAndOwnedByClaimer ctx v (txnSender ctx) st = Ok (tt, st)
          /\ nfdReadField ctx v "v.blueskydid" <> EmptyString).
Proof.
  intros Hd. split; intros Hty; gate_start Hd Hty.
  all: unfold bind, ret; simpl.
  all: destruct (checkValidV3NfdAndOwnedByClaimer ctx v (txnSender ctx) st)
         as [[[] s]|e] eqn:Hc; simpl.
  all: try (split; [discriminate | intros [? _]; discriminate]).
  all: pose proof (check_checkValidV3NfdAndOwnedByClaimer _ _ _ _ _ _ Hc) as ->.
  all: unfold assert, ret, fail.
  all: match goal with |- context [String.eqb ?a ?b] =>
         destruct (String.eqb_spec a b) as [E | E]; simpl end.
  all: intuition (try discriminate; try congruence).
Qed.

Lemma gate_verified_field_witness :
  doesClaimAccountMeetGating gate_ctx 1 NFD_SEG (gated_state 5 0 [0; 0; 0; 0] 0)
  = Ok (tt, gated_state 5 0 [0; 0; 0; 0] 0).
Proof.
  destruct (gate_verified_field gate_ctx 1 NFD_SEG (gated_state 5 0 [0; 0; 0; 0] 0)
              (mkDrop 1 CREATOR 4000 4 0
                      (mkConfig TOKEN 1000 (5000 + 7 * 86400) 5 0 [0; 0; 0; 0] 0))
              eq_refl) as [H _].
  apply (H eq_refl). split; [vm_compute; reflexivity | vm_compute; discriminate].
Defined.

(** X22. The holding-age gate ([GATING_TYPE_NFD_HOLDING_AGE]).  A claimer
    passes with the NFD app id [v] exactly when [v] passes
    [checkValidV3NfdAndOwnedByClaimer] for the claimer and the purchase time
    plus the configured number of days, in seconds, is not after the current
    time; the sum is computed in uint64 and the call panics if it overflows. *)
Theorem gate_nfd_holding_age ctx id v st d :
  allDrops st !! id = Some d ->
  entryGatingType (Config d) = GATING_TYPE_NFD_HOLDING_AGE ->
  0 <= gatingAssetMinBalance (Config d) ->
  doesClaimAccountMeetGating ctx id v st = Ok (tt, st)
  <-> checkValidV3NfdAndOwnedByClaimer ctx v (txnSender ctx) st = Ok (tt, st)
      /\ gatingAssetMinBalance (Config d) * 86400 <= MAX_UINT64
      /\ nfdTimePurchased ctx v + gatingAssetMinBalance (Config d) * 86400 <= MAX_UINT64
      /\ nfdTimePurchased ctx v + gatingAssetMinBalance (Config d) * 86400
         <= latestTimestamp ctx.
Proof.
  intros Hd Hty Hdays. gate_start Hd Hty.
  unfold bind, ret; simpl.
  destruct (checkValidV3NfdAndOwnedByClaimer ctx v (txnSender ctx) st) as [[[] s]|e] eqn:Hc;
    simpl.
  2:{ split; [discriminate | intros [? _]; discriminate]. }
  pose proof (check_checkValidV3NfdAndOwnedByClaimer _ _ _ _ _ _ Hc) as ->.
  set (days := gatingAssetMinBalance (Config d)) in *.
  unfold mul64, add64, assert, ret, fail.
  assert (HM : MAX_UINT64 = 18446744073709551615) by reflexivity.
  destruct (days * 24 <=? MAX_UINT64) eqn:E1; simpl; [| intuition (try discriminate; lia)].
  destruct (days * 24 * 60 <=? MAX_UINT64) eqn:E2; simpl; [| intuition (try discriminate; lia)].
  destruct (days * 24 * 60 * 60 <=? MAX_UINT64) eqn:E3; simpl;
    [| intuition (try discriminate; lia)].
  destruct (nfdTimePurchased ctx v + days * 24 * 60 * 60 <=? MAX_UINT64) eqn:E4; simpl;
    [| intuition (try discriminate; lia)].
  destruct (nfdTimePurchased ctx v + days * 24 * 60 * 60 <=? latestTimestamp ctx) eqn:E5; simpl;
    intuition (try discriminate; lia).
Qed.

Lemma gate_nfd_holding_age_witness :
  doesClaimAccountMeetGating gate_ctx 1 NFD_SEG (gated_state 7 0 [0; 0; 0; 0] 7)
  = Ok (tt, gated_state 7 0 [0; 0; 0; 0] 7).
Proof.
  apply (gate_nfd_holding_age gate_ctx 1 NFD_SEG (gated_state 7 0 [0; 0; 0; 0] 7)
           (mkDrop 1 CREATOR 4000 4 0
                   (mkConfig TOKEN 1000 (5000 + 7 * 86400) 7 0 [0; 0; 0; 0] 7))
           eq_refl eq_refl).
  - vm_compute. discriminate.
  - split; [vm_compute; reflexivity |].
    split; [vm_compute; discriminate |].
    split; vm_compute; discriminate.
Defined.

(** X23. What [checkValidV3NfdAndOwnedByClaimer] asks of an NFD: the
    registry confirms it, its version does not start with 1. or 2., it is not
    for sale (no [i.sellamt], or 0), it has not expired (no [i.expirationTime],
    or 0, or a time not before the current time), and its owner is the
    claimer.  It changes nothing. *)
Theorem nfd_owned_and_valid ctx v claimer st :
  checkValidV3NfdAndOwnedByClaimer ctx v claimer st = Ok (tt, st)
  <-> registryIsValidNfdAppId ctx (nfdRegistryAppId st) v = true
      /\ nfdMajorVersion ctx v <> "1." /\ nfdMajorVersion ctx v <> "2."
      /\ default 0 (nfdGlobalInt ctx v "i.sellamt") = 0
      /\ (default 0 (nfdGlobalInt ctx v "i.expirationTime") = 0
          \/ latestTimestamp ctx <= default 0 (nfdGlobalInt ctx v "i.expirationTime"))
      /\ nfdOwner ctx v = claimer.
Proof.
  rewrite checkValidV3NfdAndOwnedByClaimer_iff.
  unfold isNfdPreV3, isNfdForSale, isNfdExpired, safeGlobalIntGet.
  destruct (String.eqb_spec (nfdMajorVersion ctx v) "1.") as [E1 | E1];
    destruct (String.eqb_spec (nfdMajorVersion ctx v) "2.") as [E2 | E2]; simpl;
    try (intuition (try discriminate; try congruence); fail).
  destruct (nfdGlobalInt ctx v "i.sellamt") as [s|]; simpl;
    destruct (nfdGlobalInt ctx v "i.expirationTime") as [t|]; simpl.
  all: try destruct (s =? 0) eqn:Es; try destruct (t =? 0) eqn:Et; simpl.
  all: try destruct (t <? latestTimestamp ctx) eqn:El.
  all: intuition (try discriminate; try lia).
Qed.

(** X24. What [checkGatingInfo] accepts, and so what [createDrop] stores:
    a gating type from 0 to 7; for the two gates that name a gating NFD, an
    NFD the registry confirms; for the holding-age gate, at least one day.
    A [createDrop] with any other configuration fails. *)
Theorem checkGatingInfo_accepts :
  (forall ctx cfg st,
      checkGatingInfo ctx cfg st = Ok (tt, st)
      <-> (GATING_TYPE_NONE <= entryGatingType cfg <= GATING_TYPE_CONST_MAX)
          /\ (entryGatingType cfg = GATING_TYPE_CREATED_BY_NFD_ADDRESSES
              \/ entryGatingType cfg = GATING_TYPE_SEGMENT_OF_NFD ->
              registryIsValidNfdAppId ctx (nfdRegistryAppId st)
                (default 0 (entryGatingAssets cfg !! 0%nat)) = true)
          /\ (entryGatingType cfg = GATING_TYPE_NFD_HOLDING_AGE ->
              0 < gatingAssetMinBalance cfg))
  /\ (forall self ctx pay assetTxn cfg st id st',
        reachable self st ->
        createDropGroup ctx pay assetTxn cfg st = Ok (id, st') ->
        checkGatingInfo ctx cfg st = Ok (tt, st)).
Proof.
  split; [exact checkGatingInfo_iff |].
  intros self ctx pay assetTxn cfg st id st' Hr H.
  now destruct (createDropGroup_cost _ _ _ _ _ _ _ (reachable_Inv _ _ Hr) H) as (_ & Hg & _).
Qed.

Lemma checkGatingInfo_accepts_witness :
  checkGatingInfo (demo_ctx CREATOR 5000) (demo_config 1000) demo_ready = Ok (tt, demo_ready).
Proof.
  destruct checkGatingInfo_accepts as [_ H].
  exact (H APP (demo_ctx CREATOR 5000) (mkPay CREATOR APP 10080600)
           (mkAxfer CREATOR APP TOKEN 4000) (demo_config 1000) demo_ready 1 demo_created
           reachable_demo_ready demo_created_run).
Defined.

(** X25. The gate only reads.  [doesClaimAccountMeetGating] and
    [checkGatingInfo] leave the state as it is; a drop without gating
    ([GATING_TYPE_NONE]) lets every claimer pass, whatever value is offered;
    for an id without a record the gate fails on the missing box. *)
Theorem gate_reads_only :
  (forall ctx id v st u st', doesClaimAccountMeetGating ctx id v st = Ok (u, st') -> st' = st)
  /\ (forall ctx cfg st u st', checkGatingInfo ctx cfg st = Ok (u, st') -> st' = st)
  /\ (forall ctx id v st d,
        allDrops st !! id = Some d -> entryGatingType (Config d) = GATING_TYPE_NONE ->
        doesClaimAccountMeetGating ctx id v st = Ok (tt, st))
  /\ (forall ctx id v st,
        allDrops st !! id = None -> doesClaimAccountMeetGating ctx id v st = Err BoxMissing).
Proof.
  split; [| split; [| split]].
  - intros ctx id v st u st'. apply check_doesClaimAccountMeetGating.
  - intros ctx cfg st u st'. apply check_checkGatingInfo.
  - intros ctx id v st d. apply doesClaimAccountMeetGating_none.
  - intros ctx id v st Hd. unfold doesClaimAccountMeetGating. apply bind_Err.
    unfold readDrop. now rewrite Hd.
Qed.

Lemma gate_reads_only_witness :
  doesClaimAccountMeetGating (demo_ctx ALICE 6000) 1 0 demo_created = Ok (tt, demo_created)
  /\ doesClaimAccountMeetGating (demo_ctx ALICE 6000) 2 0 demo_created = Err BoxMissing.
Proof.
  destruct gate_reads_only as (_ & _ & H3 & H4). split.
  - apply (H3 _ _ _ _ demo_drop); reflexivity.
  - apply H4. reflexivity.
Defined.

(** X26. The fees [createApplication] starts with are fees [changeFees]
    itself accepts: the creator can set them again, and that changes
    nothing. *)
Theorem initial_fees_pass_changeFees ctx nfdRegistryId maintainer :
  txnSender ctx = appCreator ctx ->
  changeFees ctx (creationFeeAmount (createApplication nfdRegistryId maintainer))
                 (perClaimFeeAmount (createApplication nfdRegistryId maintainer))
                 (createApplication nfdRegistryId maintainer)
  = Ok (tt, createApplication nfdRegistryId maintainer).
Proof.
  intros Hs. unfold changeFees.
  erewrite bind_run; [| apply assert_true; now apply bool_decide_eq_true].
  reflexivity.
Qed.

Lemma initial_fees_pass_changeFees_witness :
  changeFees (demo_ctx 1 5000) 10000000 100000 (createApplication 1 MAINTAINER)
  = Ok (tt, createApplication 1 MAINTAINER).
Proof. exact (initial_fees_pass_changeFees (demo_ctx 1 5000) 1 MAINTAINER eq_refl). Defined.
